(** * RPT-lightswarm: wire codec, fade planner, transport, resolver, simulator

    A shallow embedding of the protocol and delivery core of the LightSwarm
    middleware (src/mdp/slip.js, src/mdp/commands.js, src/mdp/protocol.js,
    src/mdp/serial.js, src/simulator/index.js, the apartment and session
    routes and the storage queries they use), with the properties of the
    specification stated and proved over it.

    Conventions.
    - Bytes and addresses are [Z]; a [Buffer] is a [list Z] whose elements
      were reduced to 8 bits when the buffer was built.
    - A JavaScript number that is divided or rounded is an IEEE-754 binary64
      value, taken from the standard library's [spec_float]; the result of
      [Math.round] / [Math.ceil] is an integer, an infinity or NaN ([jsint]).
    - Code that can throw returns a [result]; code that talks to the
      transport or the database threads a [World]. *)

From Stdlib Require Import ZArith List Bool Lia String Ascii.
From Stdlib Require Import DecimalString HexadecimalString Floats.SpecFloat.
From Stdlib Require Import Sorting.Sorted.
Import ListNotations.
Open Scope Z_scope.

(** ** JavaScript numbers *)

Module JsNum.

(** IEEE-754 binary64. *)
Definition prec : Z := 53.
Definition emax : Z := 1024.

Definition number : Type := spec_float.

(** The number denoted by an integer literal or an integer-valued field
    (exact up to 2^53, rounded to nearest beyond). *)
Definition num (z : Z) : number := binary_normalize prec emax z 0 false.

Definition js_div (x y : number) : number := SFdiv prec emax x y.
Definition js_mul (x y : number) : number := SFmul prec emax x y.
Definition js_ltb (x y : number) : bool := SFltb x y.

(** An integer-valued number, an infinity or NaN: what [Math.round] and
    [Math.ceil] return, and what the byte arrays of the encoders hold. *)
Inductive jsint : Type :=
| Finite (z : Z)
| PlusInfinity
| MinusInfinity
| NotANumber.

Definition signed (s : bool) (m : positive) : Z := if s then Zneg m else Zpos m.

(** [Math.round]: the integer nearest to [n * 2^e], halves towards +infinity. *)
Definition Math_round (x : number) : jsint :=
  match x with
  | S754_zero _ => Finite 0
  | S754_infinity false => PlusInfinity
  | S754_infinity true => MinusInfinity
  | S754_nan => NotANumber
  | S754_finite s m e =>
      let n := signed s m in
      Finite (if 0 <=? e then n * 2 ^ e else (2 * n + 2 ^ (- e)) / 2 ^ (1 - e))
  end.

(** [Math.ceil]: the least integer not below [n * 2^e]. *)
Definition Math_ceil (x : number) : jsint :=
  match x with
  | S754_zero _ => Finite 0
  | S754_infinity false => PlusInfinity
  | S754_infinity true => MinusInfinity
  | S754_nan => NotANumber
  | S754_finite s m e =>
      let n := signed s m in
      Finite (if 0 <=? e then n * 2 ^ e else - ((- n) / 2 ^ (- e)))
  end.

(** [a < b] on integer-valued numbers; false when either is NaN. *)
Definition jsint_ltb (a b : jsint) : bool :=
  match a, b with
  | NotANumber, _ | _, NotANumber => false
  | Finite x, Finite y => x <? y
  | MinusInfinity, MinusInfinity => false
  | MinusInfinity, _ => true
  | _, MinusInfinity => false
  | PlusInfinity, _ => false
  | Finite _, PlusInfinity => true
  end.

Definition Math_min (a b : jsint) : jsint :=
  match a, b with
  | NotANumber, _ | _, NotANumber => NotANumber
  | _, _ => if jsint_ltb b a then b else a
  end.

Definition Math_max (a b : jsint) : jsint :=
  match a, b with
  | NotANumber, _ | _, NotANumber => NotANumber
  | _, _ => if jsint_ltb a b then b else a
  end.

(** [a - b] on integer-valued numbers.  The exact difference stands for the
    rounded one: wherever it is used as a number again it goes through
    [of_jsint], which rounds it as the subtraction would. *)
Definition jsint_sub (a b : jsint) : jsint :=
  match a, b with
  | NotANumber, _ | _, NotANumber => NotANumber
  | Finite x, Finite y => Finite (x - y)
  | PlusInfinity, PlusInfinity | MinusInfinity, MinusInfinity => NotANumber
  | PlusInfinity, _ | _, MinusInfinity => PlusInfinity
  | MinusInfinity, _ | _, PlusInfinity => MinusInfinity
  end.

(** [Math.abs] on integer-valued numbers. *)
Definition jsint_abs (a : jsint) : jsint :=
  match a with
  | Finite x => Finite (Z.abs x)
  | PlusInfinity | MinusInfinity => PlusInfinity
  | NotANumber => NotANumber
  end.

(** An integer-valued number used again as a number. *)
Definition of_jsint (v : jsint) : number :=
  match v with
  | Finite z => num z
  | PlusInfinity => S754_infinity false
  | MinusInfinity => S754_infinity true
  | NotANumber => S754_nan
  end.

(** ToInt32, as applied by [^], [>>] and [&]. *)
Definition ToInt32 (v : jsint) : Z :=
  match v with
  | Finite z => (z + 2 ^ 31) mod 2 ^ 32 - 2 ^ 31
  | _ => 0
  end.

(** ToUint8, as applied when a number is stored in a [Buffer]. *)
Definition ToUint8 (v : jsint) : Z :=
  match v with
  | Finite z => Z.land z 0xFF
  | _ => 0
  end.

Definition jsint_eqb (a b : jsint) : bool :=
  match a, b with
  | Finite x, Finite y => x =? y
  | PlusInfinity, PlusInfinity => true
  | MinusInfinity, MinusInfinity => true
  | _, _ => false
  end.

(** The mantissa and exponent [binary_round_aux] ends with: [stage m e l]
    is the result of the two shifts. *)
Definition stage (m e : Z) (l : location) : Z * Z :=
  let '(mrs', e') := shr_fexp prec emax m e l in
  let '(mrs'', e'') :=
    shr_fexp prec emax (round_nearest_even (shr_m mrs') (loc_of_shr_record mrs')) e' loc_Exact in
  (shr_m mrs'', e'').

(** Zero, +Infinity, or a positive finite value within the format. *)
Definition nonneg_class (x : number) : Prop :=
  x = S754_zero false \/ x = S754_infinity false
  \/ exists m e, x = S754_finite false m e /\ Zpos (digits2_pos m) + e <= 1024.

(** The levels 1..255 as numbers: positive, finite and at least 1. *)
Definition level_number_ok (z : Z) : bool :=
  match num z with
  | S754_finite false m e => (1 <=? Zpos (digits2_pos m) + e) && (Zpos (digits2_pos m) + e <=? 8)
  | _ => false
  end.

End JsNum.

(** ** SLIP framing (src/mdp/slip.js) *)

Module Slip.
Import JsNum.

Definition SLIP_END : Z := 0xC0.
Definition SLIP_ESC : Z := 0xDB.
Definition SLIP_ESC_END : Z := 0xDC.
Definition SLIP_ESC_ESC : Z := 0xDD.

(** [Buffer.from(array)]: every element is stored as an unsigned byte. *)
Definition Buffer_from (a : list jsint) : list Z := map ToUint8 a.

(** Body of the [for (const byte of data)] loop of [encode]; [encoded] is the
    array being pushed to. *)
Definition encode_step (encoded : list jsint) (byte : jsint) : list jsint :=
  if jsint_eqb byte (Finite SLIP_END) then encoded ++ [Finite SLIP_ESC; Finite SLIP_ESC_END]
  else if jsint_eqb byte (Finite SLIP_ESC) then encoded ++ [Finite SLIP_ESC; Finite SLIP_ESC_ESC]
  else encoded ++ [byte].

Definition encode (data : list jsint) : list Z :=
  let encoded := fold_left encode_step data [Finite SLIP_END] in
  Buffer_from (encoded ++ [Finite SLIP_END]).

(** Body of the loop of [decode]; the state is [(decoded, escaping)]. *)
Definition decode_step (st : list Z * bool) (byte : Z) : list Z * bool :=
  let (decoded, escaping) := st in
  if escaping then
    ((if byte =? SLIP_ESC_END then decoded ++ [SLIP_END]
      else if byte =? SLIP_ESC_ESC then decoded ++ [SLIP_ESC]
      else decoded ++ [byte]), false)
  else
    if byte =? SLIP_END then (decoded, false)
    else if byte =? SLIP_ESC then (decoded, true)
    else (decoded ++ [byte], false).

Definition decode (buffer : list Z) : list Z :=
  fst (fold_left decode_step buffer ([], false)).

(** What one payload byte becomes on the wire, in the words of section 4.1. *)
Definition stuffed (byte : Z) : list Z :=
  if byte =? 0xC0 then [0xDB; 0xDC]
  else if byte =? 0xDB then [0xDB; 0xDD]
  else [byte].

Definition is_byte (b : Z) : Prop := 0 <= b <= 255.

(** A list of bytes as the [number[]] handed to [encode]. *)
Definition bytes (P : list Z) : list jsint := map Finite P.

End Slip.

(** ** Results of code that can throw *)

Inductive result (A : Type) : Type :=
| Ok (a : A)
| Throw (message : string).
Arguments Ok {A} a.
Arguments Throw {A} message.

Definition bind {A B} (r : result A) (k : A -> result B) : result B :=
  match r with
  | Ok a => k a
  | Throw m => Throw m
  end.

Declare Scope result_scope.
Delimit Scope result_scope with result.
Notation "'let*' x ':=' r 'in' k" := (bind r (fun x => k))
  (at level 10, x name, r at level 100, k at level 200) : result_scope.

(** ** Command byte layouts (src/mdp/commands.js) *)

Module Commands.
Import JsNum.
Open Scope result_scope.

Definition ON : Z := 0x20.
Definition OFF : Z := 0x21.
Definition LEVEL : Z := 0x22.
Definition FADE : Z := 0x23.
Definition RGB_LEVEL : Z := 0x2C.
Definition FLASH : Z := 0x2E.
Definition RGB_FADE : Z := 0x31.

Definition BROADCAST_ADDRESS : Z := 0xFFFF.
Definition MASTER_ADDRESS : Z := 0xFFFE.

Definition show (z : Z) : string := DecimalString.NilZero.string_of_int (Z.to_int z).

Definition addressToBytes (address : Z) : result (list jsint) :=
  if (address <? 0) || (0xFFFF <? address) then
    Throw ("Invalid address: " ++ show address ++ ". Must be 0-65535.")
  else
    Ok [Finite (Z.land (Z.shiftr address 8) 0xFF); Finite (Z.land address 0xFF)].

Definition bytesToAddress (hi lo : Z) : Z := Z.lor (Z.shiftl hi 8) lo.

(** [Math.max(min, Math.min(max, Math.round(val)))]. *)
Definition clamp (val : number) (min max : Z) : jsint :=
  Math_max (Finite min) (Math_min (Finite max) (Math_round val)).

Definition buildOnCommand (address : Z) : result (list jsint) :=
  let* a := addressToBytes address in Ok (a ++ [Finite ON]).

Definition buildOffCommand (address : Z) : result (list jsint) :=
  let* a := addressToBytes address in Ok (a ++ [Finite OFF]).

Definition buildLevelCommand (address : Z) (level : number) : result (list jsint) :=
  let clampedLevel := clamp level 0 255 in
  let* a := addressToBytes address in Ok (a ++ [Finite LEVEL; clampedLevel]).

Definition buildFadeCommand (address : Z) (level interval step : number)
  : result (list jsint) :=
  let clampedLevel := clamp level 0 255 in
  let clampedInterval := clamp interval 1 255 in
  let clampedStep := clamp step 1 127 in
  let* a := addressToBytes address in
  Ok (a ++ [Finite FADE; clampedLevel; clampedInterval; clampedStep]).

Definition buildRgbLevelCommand (address : Z) (red green blue : number)
  : result (list jsint) :=
  let* a := addressToBytes address in
  Ok (a ++ [Finite RGB_LEVEL; clamp red 0 255; clamp green 0 255; clamp blue 0 255]).

(** One channel of an RGB fade: [{level, interval, step}]. *)
Record Channel : Type := { level : number; interval : number; step : number }.

Definition buildRgbFadeCommand (address : Z) (red green blue : Channel)
  : result (list jsint) :=
  let* a := addressToBytes address in
  Ok (a ++ [Finite RGB_FADE;
            clamp (level red) 0 255; clamp (interval red) 1 255; clamp (step red) 1 127;
            clamp (level green) 0 255; clamp (interval green) 1 255; clamp (step green) 1 127;
            clamp (level blue) 0 255; clamp (interval blue) 1 255; clamp (step blue) 1 127]).

(** [(x >> 8) & 0xFF] and [x & 0xFF] of a clamped 16-bit field. *)
Definition hi8 (x : jsint) : jsint := Finite (Z.land (Z.shiftr (ToInt32 x) 8) 0xFF).
Definition lo8 (x : jsint) : jsint := Finite (Z.land (ToInt32 x) 0xFF).

Definition buildFlashCommand (address : Z)
  (levelA levelB flashSteps intervalA intervalB : number) : result (list jsint) :=
  let steps := clamp flashSteps 2 65535 in
  let intA := clamp intervalA 1 65535 in
  let intB := clamp intervalB 1 65535 in
  let* a := addressToBytes address in
  Ok (a ++ [Finite FLASH; hi8 steps; lo8 steps; hi8 intA; lo8 intA; hi8 intB; lo8 intB;
            clamp levelA 0 255; clamp levelB 0 255]).

(** A clamped field: an integer within [lo..hi]. *)
Definition within (lo hi : Z) (v : jsint) : Prop :=
  exists z, v = Finite z /\ lo <= z <= hi.

(** A numeric input: any number but NaN. *)
Definition not_nan (x : number) : Prop := x <> S754_nan.

Definition channel_ok (c : Channel) : Prop :=
  not_nan (level c) /\ not_nan (interval c) /\ not_nan (step c).

(** The three bytes a channel of an RGB fade is encoded to. *)
Definition channel_bytes (c : Channel) : list jsint :=
  [clamp (level c) 0 255; clamp (interval c) 1 255; clamp (step c) 1 127].

End Commands.

(** ** Packets and fade planning (src/mdp/protocol.js) *)

Module Protocol.
Import JsNum Commands.
Open Scope result_scope.

Definition calculateChecksum (data : list jsint) : Z :=
  let checksum := fold_left (fun checksum byte => Z.lxor checksum (ToInt32 byte)) data 0 in
  Z.land checksum 0xFF.

Definition buildPacket (commandBytes : list jsint) : list Z :=
  let checksum := calculateChecksum commandBytes in
  let withChecksum := commandBytes ++ [Finite checksum] in
  Slip.encode withChecksum.

Definition packetOn (address : Z) : result (list Z) :=
  let* c := buildOnCommand address in Ok (buildPacket c).

Definition packetOff (address : Z) : result (list Z) :=
  let* c := buildOffCommand address in Ok (buildPacket c).

Definition packetLevel (address : Z) (level : number) : result (list Z) :=
  let* c := buildLevelCommand address level in Ok (buildPacket c).

Definition packetFade (address : Z) (level interval step : number) : result (list Z) :=
  let* c := buildFadeCommand address level interval step in Ok (buildPacket c).

Definition packetRgbLevel (address : Z) (red green blue : number) : result (list Z) :=
  let* c := buildRgbLevelCommand address red green blue in Ok (buildPacket c).

(** A channel of the [config] object of [packetRgbFade]; an absent property
    is [None] and is filled from [defaults]. *)
Record ChannelConfig : Type :=
  { cfg_level : option number; cfg_interval : option number; cfg_step : option number }.

Definition with_defaults (c : ChannelConfig) : Channel :=
  {| level := match cfg_level c with Some v => v | None => num 0 end;
     interval := match cfg_interval c with Some v => v | None => num 2 end;
     step := match cfg_step c with Some v => v | None => num 5 end |}.

Definition packetRgbFade (address : Z) (red green blue : ChannelConfig)
  : result (list Z) :=
  let* c := buildRgbFadeCommand address
              (with_defaults red) (with_defaults green) (with_defaults blue) in
  Ok (buildPacket c).

Definition packetFlash (address : Z) (levelA levelB steps intervalA intervalB : number)
  : result (list Z) :=
  let* c := buildFlashCommand address levelA levelB steps intervalA intervalB in
  Ok (buildPacket c).

Record FadeParams : Type := { fp_interval : jsint; fp_step : jsint }.

(** The levels are integer-valued numbers (0, 255, or a channel that went
    through [Math.round]); the fade time is any number. *)
Definition calculateFadeParams (currentLevel targetLevel : jsint) (fadeTimeMs : number)
  : FadeParams :=
  let levelDiff := jsint_abs (jsint_sub targetLevel currentLevel) in
  if jsint_eqb levelDiff (Finite 0) then {| fp_interval := Finite 1; fp_step := Finite 1 |}
  else
    let minInterval := Finite 1 in
    let maxInterval := Finite 255 in
    let maxStep := Finite 127 in
    let fadeTime100ths := js_div fadeTimeMs (num 10) in
    let step := Finite 1 in
    let interval := Math_round (js_div fadeTime100ths (of_jsint levelDiff)) in
    let '(interval, step) :=
      if jsint_ltb maxInterval interval then (maxInterval, Finite 1)
      else if jsint_ltb interval minInterval then
        (minInterval,
         Math_min maxStep (Math_ceil (js_div (of_jsint levelDiff) fadeTime100ths)))
      else (interval, step) in
    {| fp_interval := Math_max minInterval (Math_min maxInterval interval);
       fp_step := Math_max (Finite 1) (Math_min maxStep step) |}.

(** [{ level: red, ...redParams }]. *)
Definition planned (target : jsint) (p : FadeParams) : ChannelConfig :=
  {| cfg_level := Some (of_jsint target);
     cfg_interval := Some (of_jsint (fp_interval p));
     cfg_step := Some (of_jsint (fp_step p)) |}.

(** [currentColor] is the optional last argument; when it is not passed the
    default [{ r: 0, g: 0, b: 0 }] is used. *)
Definition packetRgbFadeToColor (address : Z) (red green blue : jsint)
  (fadeTimeMs : number) (currentColor : option (jsint * jsint * jsint))
  : result (list Z) :=
  let '(cr, cg, cb) :=
    match currentColor with Some c => c | None => (Finite 0, Finite 0, Finite 0) end in
  let redParams := calculateFadeParams cr red fadeTimeMs in
  let greenParams := calculateFadeParams cg green fadeTimeMs in
  let blueParams := calculateFadeParams cb blue fadeTimeMs in
  packetRgbFade address (planned red redParams) (planned green greenParams)
    (planned blue blueParams).

(** [parsePacket]: SLIP-decode, pop and verify the checksum, split. *)
Definition parsePacket (packet : list Z) : option (Z * Z * list Z) :=
  let decoded := Slip.decode packet in
  if (Z.of_nat (List.length decoded) <? 4) then None
  else
    let receivedChecksum := last decoded 0 in
    let decoded := removelast decoded in
    let calculatedChecksum := calculateChecksum (map Finite decoded) in
    if negb (receivedChecksum =? calculatedChecksum) then None
    else
      match decoded with
      | hi :: lo :: command :: data => Some (bytesToAddress hi lo, command, data)
      | _ => None
      end.

End Protocol.

(** ** Storage rows and queries (the schema and the query helpers) *)

Module Database.

(** A column value or a bound parameter; [None] is SQL NULL. *)
Definition sql (A : Type) : Type := option A.

(** SQL [=]: comparing with NULL is unknown ([None]), never true. *)
Definition sql_eq {A} (eqb : A -> A -> bool) (x y : sql A) : option bool :=
  match x, y with
  | Some a, Some b => Some (eqb a b)
  | _, _ => None
  end.

(** SQL [AND] in three-valued logic. *)
Definition sql_and (p q : option bool) : option bool :=
  match p, q with
  | Some false, _ | _, Some false => Some false
  | Some true, Some true => Some true
  | _, _ => None
  end.

(** A [WHERE] clause keeps a row only when the condition is true. *)
Definition sql_where (p : option bool) : bool :=
  match p with Some true => true | _ => false end.

Record Apartment : Type :=
  { apt_id : string;
    apt_name : string;
    apt_lightswarm_address : sql Z;
    apt_tower_id : string;            (* TEXT NOT NULL *)
    apt_floor : Z;                    (* INTEGER NOT NULL *)
    apt_current_state : sql string;
    apt_unit_position : sql Z }.

Record ApartmentLight : Type :=
  { al_apartment_id : string;
    al_light_index : Z;
    al_lightswarm_address : Z }.      (* INTEGER NOT NULL *)

Record Amenity : Type :=
  { am_id : string;
    am_name : string;
    am_lightswarm_address : Z;        (* INTEGER NOT NULL *)
    am_tower_id : sql string;
    am_floor : sql Z }.

Record StateColor : Type :=
  { sc_state_name : string; sc_red : Z; sc_green : Z; sc_blue : Z; sc_intensity : Z }.

Record SessionEvent : Type := { se_event_type : string; se_agent_id : sql string }.

Record DB : Type :=
  { apartments : list Apartment;
    apartment_lights : list ApartmentLight;
    amenities : list Amenity;
    state_colors : list StateColor;
    settings : list (string * string);
    session_log : list SessionEvent }.

(** [ORDER BY] an integer column, ascending, NULLs first (stable insertion
    sort on the key). *)
Definition key_leb (x y : sql Z) : bool :=
  match x, y with
  | None, _ => true
  | Some _, None => false
  | Some a, Some b => a <=? b
  end.

Fixpoint insert_by {A} (key : A -> sql Z) (x : A) (l : list A) : list A :=
  match l with
  | [] => [x]
  | y :: l' => if key_leb (key x) (key y) then x :: l else y :: insert_by key x l'
  end.

Definition order_by {A} (key : A -> sql Z) (l : list A) : list A :=
  fold_right (insert_by key) [] l.

(** settings.get: [SELECT value FROM settings WHERE key = ?]. *)
Definition settings_get (db : DB) (key : string) : option string :=
  match filter (fun row => String.eqb (fst row) key) (settings db) with
  | row :: _ => Some (snd row)
  | [] => None
  end.

(** stateColors.get: [SELECT * FROM state_colors WHERE state_name = ?]. *)
Definition stateColors_get (db : DB) (stateName : string) : option StateColor :=
  match filter (fun row => String.eqb (sc_state_name row) stateName) (state_colors db) with
  | row :: _ => Some row
  | [] => None
  end.

(** apartments.getByFloor:
    [SELECT * FROM apartments WHERE tower_id = ? AND floor = ? ORDER BY unit_position]. *)
Definition apartments_getByFloor (db : DB) (towerId : sql string) (floor : sql Z)
  : list Apartment :=
  order_by apt_unit_position
    (filter (fun a => sql_where (sql_and (sql_eq String.eqb (Some (apt_tower_id a)) towerId)
                                         (sql_eq Z.eqb (Some (apt_floor a)) floor)))
            (apartments db)).

(** apartments.getByFloorOnly:
    [SELECT * FROM apartments WHERE floor = ? ORDER BY unit_position]. *)
Definition apartments_getByFloorOnly (db : DB) (floor : sql Z) : list Apartment :=
  order_by apt_unit_position
    (filter (fun a => sql_where (sql_eq Z.eqb (Some (apt_floor a)) floor)) (apartments db)).

(** amenities.getByFloor: [SELECT * FROM amenities WHERE tower_id = ? AND floor = ?]. *)
Definition amenities_getByFloor (db : DB) (towerId : sql string) (floor : sql Z)
  : list Amenity :=
  filter (fun a => sql_where (sql_and (sql_eq String.eqb (am_tower_id a) towerId)
                                      (sql_eq Z.eqb (am_floor a) floor)))
         (amenities db).

(** apartments.getFloorRange: [SELECT MIN(floor), MAX(floor) FROM apartments];
    both are NULL on an empty table. *)
Definition apartments_getFloorRange (db : DB) : sql Z * sql Z :=
  match map apt_floor (apartments db) with
  | [] => (None, None)
  | f :: fs => (Some (fold_left Z.min fs f), Some (fold_left Z.max fs f))
  end.

(** apartmentLights.getByApartment:
    [SELECT * FROM apartment_lights WHERE apartment_id = ? ORDER BY light_index]. *)
Definition apartmentLights_getByApartment (db : DB) (apartmentId : string)
  : list ApartmentLight :=
  order_by (fun l => Some (al_light_index l))
    (filter (fun l => String.eqb (al_apartment_id l) apartmentId) (apartment_lights db)).

(** apartments.updateState: [UPDATE apartments SET current_state = ? WHERE id = ?]. *)
Definition apartments_updateState (db : DB) (id state : string) : DB :=
  {| apartments :=
       map (fun a => if String.eqb (apt_id a) id
                     then {| apt_id := apt_id a; apt_name := apt_name a;
                             apt_lightswarm_address := apt_lightswarm_address a;
                             apt_tower_id := apt_tower_id a; apt_floor := apt_floor a;
                             apt_current_state := Some state;
                             apt_unit_position := apt_unit_position a |}
                     else a) (apartments db);
     apartment_lights := apartment_lights db;
     amenities := amenities db;
     state_colors := state_colors db;
     settings := settings db;
     session_log := session_log db |}.

(** sessionLog.add: [INSERT INTO session_log (event_type, agent_id, details)]. *)
Definition sessionLog_add (db : DB) (eventType : string) (agentId : sql string) : DB :=
  {| apartments := apartments db;
     apartment_lights := apartment_lights db;
     amenities := amenities db;
     state_colors := state_colors db;
     settings := settings db;
     session_log := session_log db ++ [{| se_event_type := eventType; se_agent_id := agentId |}] |}.

End Database.

(** ** The simulator (src/simulator/index.js) *)

Module Simulator.

Record LightState : Type := { on : bool; level : Z; r : Z; g : Z; b : Z }.

Inductive LightType : Type := apartment | amenity.

Record Light : Type :=
  { id : string;
    type : LightType;
    name : string;
    address : option Z;
    floor : option Z;
    state : LightState;
    lastUpdated : option string }.

Definition off_state : LightState := {| on := false; level := 0; r := 0; g := 0; b := 0 |}.

(** [this.lights]: a [Map] from address to light, in insertion order.  A key
    is [None] for a row whose address column is NULL. *)
Definition Lights : Type := list (option Z * Light).

Definition key_eqb (x y : option Z) : bool :=
  match x, y with
  | Some a, Some b => a =? b
  | None, None => true
  | _, _ => false
  end.

Fixpoint lights_get (k : option Z) (m : Lights) : option Light :=
  match m with
  | [] => None
  | (k', l) :: m' => if key_eqb k k' then Some l else lights_get k m'
  end.

(** [Map.set]: an existing key keeps its place, a new key goes last. *)
Fixpoint lights_set (k : option Z) (l : Light) (m : Lights) : Lights :=
  match m with
  | [] => [(k, l)]
  | (k', l') :: m' => if key_eqb k k' then (k, l) :: m' else (k', l') :: lights_set k l m'
  end.

Record Sim : Type := { lights : Lights; enabled : bool }.

(** [new LightSimulator()]. *)
Definition new_simulator : Sim := {| lights := []; enabled := false |}.

Definition setEnabled (e : bool) (s : Sim) : Sim := {| lights := lights s; enabled := e |}.

Definition apartment_light (apt : Database.Apartment) : Light :=
  {| id := Database.apt_id apt; type := apartment; name := Database.apt_name apt;
     address := Database.apt_lightswarm_address apt;
     floor := Some (Database.apt_floor apt);
     state := off_state; lastUpdated := None |}.

Definition amenity_light (a : Database.Amenity) : Light :=
  {| id := Database.am_id a; type := amenity; name := Database.am_name a;
     address := Some (Database.am_lightswarm_address a);
     floor := Database.am_floor a;
     state := off_state; lastUpdated := None |}.

(** [apartments.getAll()] and [amenities.getAll()] are taken as the rows in
    the order the queries return them. *)
Definition initializeFromDatabase (apartments : list Database.Apartment)
  (amenities : list Database.Amenity) (s : Sim) : Sim :=
  let m1 := fold_left (fun m apt => lights_set (Database.apt_lightswarm_address apt)
                                               (apartment_light apt) m)
                      apartments (lights s) in
  let m2 := fold_left (fun m a => lights_set (Some (Database.am_lightswarm_address a))
                                             (amenity_light a) m)
                      amenities m1 in
  {| lights := m2; enabled := enabled s |}.

(** [data[i] || 0]. *)
Definition at_or0 (data : list Z) (i : nat) : Z :=
  match nth_error data i with
  | Some v => v
  | None => 0
  end.

(** The [switch (command)] of [executeCommand]: the state the light is left
    in, and the name reported in [change]. *)
Definition apply_command (command : Z) (data : list Z) (st : LightState)
  : LightState * string :=
  if command =? 0x20 then
    ({| on := true; level := 255; r := 255; g := 255; b := 255 |}, "ON"%string)
  else if command =? 0x21 then
    ({| on := false; level := 0; r := 0; g := 0; b := 0 |}, "OFF"%string)
  else if command =? 0x22 then
    let level := at_or0 data 0 in
    ({| on := 0 <? level; level := level; r := level; g := level; b := level |},
     "LEVEL"%string)
  else if command =? 0x23 then
    let fadeLevel := at_or0 data 0 in
    ({| on := 0 <? fadeLevel; level := fadeLevel;
        r := fadeLevel; g := fadeLevel; b := fadeLevel |}, "FADE"%string)
  else if command =? 0x2C then
    let r := at_or0 data 0 in
    let g := at_or0 data 1 in
    let b := at_or0 data 2 in
    ({| on := (0 <? r) || (0 <? g) || (0 <? b); level := Z.max r (Z.max g b);
        r := r; g := g; b := b |}, "RGB_LEVEL"%string)
  else if command =? 0x31 then
    let rFade := at_or0 data 0 in
    let gFade := at_or0 data 3 in
    let bFade := at_or0 data 6 in
    ({| on := (0 <? rFade) || (0 <? gFade) || (0 <? bFade);
        level := Z.max rFade (Z.max gFade bFade);
        r := rFade; g := gFade; b := bFade |}, "RGB_FADE"%string)
  else (st, ("UNKNOWN_" ++ HexadecimalString.NilZero.string_of_int (Z.to_hex_int command))%string).

(** What [executeCommand] returns. *)
Inductive Outcome : Type :=
| AddressNotFound (address : option Z)
| LightUpdated (address : option Z) (light : Light) (change : string)
| Broadcast (command : Z) (affectedLights : nat).

Definition with_state (l : Light) (st : LightState) (now : string) : Light :=
  {| id := id l; type := type l; name := name l; address := address l; floor := floor l;
     state := st; lastUpdated := Some now |}.

(** [executeCommand] and [executeBroadcast] call each other; [depth] is the
    call depth still available, and running out of it is the RangeError that
    JavaScript raises when the recursion does not end.  The table is
    returned as the calls left it, also when one of them throws. *)
Fixpoint executeCommand (depth : nat) (now : string) (address : option Z)
  (command : Z) (data : list Z) (m : Lights) : result Outcome * Lights :=
  match depth with
  | O => (Throw "Maximum call stack size exceeded", m)
  | S depth' =>
      if key_eqb address (Some 0xFFFF) then
        (* executeBroadcast *)
        let loop :=
          fold_left
            (fun (acc : result nat * Lights) (entry : option Z * Light) =>
               match acc with
               | (Throw e, m) => (Throw e, m)
               | (Ok results, m) =>
                   match executeCommand depth' now (fst entry) command data m with
                   | (Throw e, m') => (Throw e, m')
                   | (Ok (AddressNotFound _), m') => (Ok results, m')
                   | (Ok _, m') => (Ok (S results), m')
                   end
               end)
            m (Ok O, m) in
        match loop with
        | (Throw e, m') => (Throw e, m')
        | (Ok results, m') => (Ok (Broadcast command results), m')
        end
      else
        match lights_get address m with
        | None => (Ok (AddressNotFound address), m)
        | Some light =>
            let (st, change) := apply_command command data (state light) in
            let light' := with_state light st now in
            (Ok (LightUpdated address light' change), lights_set address light' m)
        end
  end.

(** The frame [processPacket] reads out of a packet: one leading and one
    trailing 0xC0 removed, the last byte dropped, then address, command and
    data. *)
Definition frame_of_packet (packet : list Z) : option (Z * Z * list Z) :=
  let bytes := packet in
  let bytes := match bytes with
               | b0 :: rest => if b0 =? 0xC0 then rest else bytes
               | [] => bytes
               end in
  let bytes := match bytes with
               | [] => bytes
               | _ => if last bytes 0 =? 0xC0 then removelast bytes else bytes
               end in
  let bytes := removelast bytes in
  match bytes with
  | b0 :: b1 :: command :: data => Some (Z.lor (Z.shiftl b0 8) b1, command, data)
  | _ => None
  end.

Definition processPacket (depth : nat) (now : string) (packet : list Z) (s : Sim)
  : result (option Outcome) * Sim :=
  if negb (enabled s) then (Ok None, s)
  else
    match frame_of_packet packet with
    | None => (Ok None, s)
    | Some (address, command, data) =>
        match executeCommand depth now (Some address) command data (lights s) with
        | (Throw e, m) => (Throw e, {| lights := m; enabled := enabled s |})
        | (Ok result, m) => (Ok (Some result), {| lights := m; enabled := enabled s |})
        end
    end.

Definition resetAll (now : string) (s : Sim) : Sim :=
  {| lights := map (fun entry => (fst entry, with_state (snd entry) off_state now)) (lights s);
     enabled := enabled s |}.

(** The invariant of one fixture. *)
Definition state_ok (st : LightState) : Prop :=
  level st = Z.max (r st) (Z.max (g st) (b st)) /\ on st = (0 <? level st).

Definition table_ok (s : Sim) : Prop := Forall (fun entry => state_ok (state (snd entry))) (lights s).

(** The operations a client can apply to a simulator. *)
Inductive Op : Type :=
| OpSetEnabled (e : bool)
| OpInitialize (apartments : list Database.Apartment) (amenities : list Database.Amenity)
| OpProcessPacket (depth : nat) (now : string) (packet : list Z)
| OpExecuteCommand (depth : nat) (now : string) (address : option Z) (command : Z) (data : list Z)
| OpResetAll (now : string).

Definition apply_op (o : Op) (s : Sim) : Sim :=
  match o with
  | OpSetEnabled e => setEnabled e s
  | OpInitialize apartments amenities => initializeFromDatabase apartments amenities s
  | OpProcessPacket depth now packet => snd (processPacket depth now packet s)
  | OpExecuteCommand depth now address command data =>
      {| lights := snd (executeCommand depth now address command data (lights s));
         enabled := enabled s |}
  | OpResetAll now => resetAll now s
  end.

Definition run (ops : list Op) (s : Sim) : Sim := fold_left (fun s o => apply_op o s) ops s.

(** The decoder of sections 4.1 and 4.2, in the specification's words:
    SLIP-unescape the packet, drop the trailing checksum byte without
    checking it, and read address, opcode and payload. *)
Definition spec_frame_of_packet (packet : list Z) : option (Z * Z * list Z) :=
  match removelast (Slip.decode packet) with
  | hi :: lo :: opcode :: payload => Some (hi * 256 + lo, opcode, payload)
  | _ => None
  end.

(** A table with one apartment fixture at address 100 and one at 192. *)
Definition demo_light (a : Z) : Light :=
  {| id := "A"; type := apartment; name := "Apartment"; address := Some a;
     floor := Some 9; state := off_state; lastUpdated := None |}.

Definition demo_simulator : Sim :=
  {| lights := [(Some 100, demo_light 100); (Some 192, demo_light 192)]; enabled := true |}.

Definition state_at (a : Z) (s : Sim) : option LightState :=
  option_map state (lights_get (Some a) (lights s)).

End Simulator.

(** ** The serial transport (src/mdp/serial.js) *)

Module Serial.

(** An entry of [commandQueue]: the packet and the promise of its [send]
    call, named by the order of the call. *)
Record Job : Type := { job_id : nat; job_data : list Z }.

(** What the running [processQueue] is awaiting. *)
Inductive Pending : Type :=
| Writing (job : Job) (remaining : list Z)   (* port.write called; bytes still to go out *)
| Simulating (job : Job).                    (* simulation mode: in delay(5) *)

Record SentEvent : Type := { ev_data : list Z; ev_simulated : bool }.

Record State : Type :=
  { isOpen : bool;
    simulationMode : bool;
    commandQueue : list Job;
    processing : bool;
    pending : option Pending;
    gap_timers : nat;                 (* processQueue calls waiting in delay(10) *)
    device : list Z;                  (* the bytes the port has put on the line *)
    sent_events : list SentEvent;     (* the 'sent' events emitted to observers *)
    settled : list (Job * bool);      (* promises settled so far; true = resolved *)
    enqueued : list Job;              (* history: every job pushed by send *)
    started : list Job }.             (* history: every job shifted off the queue *)

(** [new SerialConnection(config)]. *)
Definition new_connection (simulation : bool) : State :=
  {| isOpen := false; simulationMode := simulation; commandQueue := [];
     processing := false; pending := None; gap_timers := 0; device := [];
     sent_events := []; settled := []; enqueued := []; started := [] |}.

(** [processQueue] up to its first [await]. *)
Definition processQueue (s : State) : State :=
  if processing s then s
  else
    match commandQueue s with
    | [] => s
    | job :: rest =>
        if negb (isOpen s) then s
        else if simulationMode s then
          {| isOpen := isOpen s; simulationMode := simulationMode s;
             commandQueue := rest; processing := true;
             pending := Some (Simulating job); gap_timers := gap_timers s;
             device := device s;
             sent_events := sent_events s ++ [{| ev_data := job_data job; ev_simulated := true |}];
             settled := settled s; enqueued := enqueued s;
             started := started s ++ [job] |}
        else
          {| isOpen := isOpen s; simulationMode := simulationMode s;
             commandQueue := rest; processing := true;
             pending := Some (Writing job (job_data job)); gap_timers := gap_timers s;
             device := device s; sent_events := sent_events s;
             settled := settled s; enqueued := enqueued s;
             started := started s ++ [job] |}
    end.

(** The rest of [processQueue] once the awaited write has ended: the promise
    is settled, [processing] is cleared, and when jobs are waiting the call
    goes to sleep in [delay(10)] before calling [processQueue] again. *)
Definition finish (job : Job) (resolved : bool) (events : list SentEvent) (s : State)
  : State :=
  {| isOpen := isOpen s; simulationMode := simulationMode s;
     commandQueue := commandQueue s; processing := false; pending := None;
     gap_timers := match commandQueue s with [] => gap_timers s | _ => S (gap_timers s) end;
     device := device s; sent_events := sent_events s ++ events;
     settled := settled s ++ [(job, resolved)];
     enqueued := enqueued s; started := started s |}.

Definition set_isOpen (o : bool) (s : State) : State :=
  {| isOpen := o; simulationMode := simulationMode s; commandQueue := commandQueue s;
     processing := processing s; pending := pending s; gap_timers := gap_timers s;
     device := device s; sent_events := sent_events s; settled := settled s;
     enqueued := enqueued s; started := started s |}.

(** What can happen to the connection: calls from producers and callbacks
    from the port and the timers, in any interleaving. *)
Inductive Event : Type :=
| Send (data : list Z)            (* a producer calls send(data) *)
| PortByte                        (* the port puts the next byte on the line *)
| Drained                         (* write and drain callbacks, no error *)
| WriteError                      (* write or drain callback with an error *)
| SimDelayElapsed                 (* delay(5) of simulation mode is over *)
| GapElapsed                      (* a delay(10) is over *)
| PortOpened                      (* 'open' event of the port *)
| SimConnect                      (* connect() in simulation mode *)
| PortClosed                      (* 'close' event, or close() *)
| SetSimulationMode (enabled : bool).

Definition step (e : Event) (s : State) : State :=
  match e with
  | Send data =>
      let job := {| job_id := List.length (enqueued s); job_data := data |} in
      processQueue
        {| isOpen := isOpen s; simulationMode := simulationMode s;
           commandQueue := commandQueue s ++ [job]; processing := processing s;
           pending := pending s; gap_timers := gap_timers s; device := device s;
           sent_events := sent_events s; settled := settled s;
           enqueued := enqueued s ++ [job]; started := started s |}
  | PortByte =>
      match pending s with
      | Some (Writing job (byte :: remaining)) =>
          {| isOpen := isOpen s; simulationMode := simulationMode s;
             commandQueue := commandQueue s; processing := processing s;
             pending := Some (Writing job remaining); gap_timers := gap_timers s;
             device := device s ++ [byte]; sent_events := sent_events s;
             settled := settled s; enqueued := enqueued s; started := started s |}
      | _ => s
      end
  | Drained =>
      match pending s with
      | Some (Writing job []) =>
          finish job true [{| ev_data := job_data job; ev_simulated := false |}] s
      | _ => s
      end
  | WriteError =>
      match pending s with
      | Some (Writing job _) => finish job false [] s
      | _ => s
      end
  | SimDelayElapsed =>
      match pending s with
      | Some (Simulating job) => finish job true [] s
      | _ => s
      end
  | GapElapsed =>
      match gap_timers s with
      | O => s
      | S n =>
          processQueue
            {| isOpen := isOpen s; simulationMode := simulationMode s;
               commandQueue := commandQueue s; processing := processing s;
               pending := pending s; gap_timers := n; device := device s;
               sent_events := sent_events s; settled := settled s;
               enqueued := enqueued s; started := started s |}
      end
  | PortOpened => processQueue (set_isOpen true s)
  | SimConnect => if simulationMode s then set_isOpen true s else s
  | PortClosed => set_isOpen false s
  | SetSimulationMode enabled =>
      {| isOpen := isOpen s; simulationMode := enabled; commandQueue := commandQueue s;
         processing := processing s; pending := pending s; gap_timers := gap_timers s;
         device := device s; sent_events := sent_events s; settled := settled s;
         enqueued := enqueued s; started := started s |}
  end.

Definition run (trace : list Event) (s : State) : State :=
  fold_left (fun s e => step e s) trace s.

(** A trace on which the port never reports an error and simulation mode is
    never switched on. *)
Definition clean (trace : list Event) : bool :=
  forallb (fun e => match e with
                    | WriteError | SetSimulationMode true => false
                    | _ => true
                    end) trace.

(** The bytes of the awaited write that are not yet on the line. *)
Definition unwritten (s : State) : list Z :=
  match pending s with
  | Some (Writing _ remaining) => remaining
  | _ => []
  end.

Definition in_flight (s : State) : list Job :=
  match pending s with
  | Some (Writing job _) | Some (Simulating job) => [job]
  | None => []
  end.

(** The packets passed to [send], in call order. *)
Definition sends (trace : list Event) : list (list Z) :=
  flat_map (fun e => match e with Send data => [data] | _ => [] end) trace.

(** Queue bookkeeping: the jobs taken off the queue followed by the queue are
    the jobs pushed, the settled jobs followed by the job being written are
    the jobs taken off, and [processing] is set exactly while a write is
    awaited. *)
Definition fifo_inv (s : State) : Prop :=
  started s ++ commandQueue s = enqueued s
  /\ map fst (settled s) ++ in_flight s = started s
  /\ processing s = match pending s with Some _ => true | None => false end.

(** Without port errors and outside simulation mode: the line carries the
    data of the started jobs, less what is still unwritten, and every
    settled promise was resolved. *)
Definition stream_inv (s : State) : Prop :=
  simulationMode s = false
  /\ (forall job, pending s <> Some (Simulating job))
  /\ device s ++ unwritten s = List.concat (map job_data (started s))
  /\ Forall (fun j => snd j = true) (settled s).

End Serial.

(** ** The apartment and session routes *)

Module Routes.
Import JsNum Database Protocol.

(** *** parseInt and truthiness *)

Definition is_space (c : ascii) : bool :=
  let n := nat_of_ascii c in
  orb (Nat.eqb n 32) (orb (Nat.leb 9 n && Nat.leb n 13) false).

Fixpoint skip_spaces (s : string) : string :=
  match s with
  | String c s' => if is_space c then skip_spaces s' else s
  | EmptyString => s
  end.

Definition digit_of (c : ascii) : option Z :=
  let n := nat_of_ascii c in
  if (Nat.leb 48 n && Nat.leb n 57)%bool then Some (Z.of_nat n - 48) else None.

Fixpoint leading_digits (s : string) (acc : option Z) : option Z :=
  match s with
  | String c s' =>
      match digit_of c with
      | Some d => leading_digits s' (Some (10 * match acc with Some a => a | None => 0 end + d))
      | None => acc
      end
  | EmptyString => acc
  end.

(** [parseInt(s, 10)]: leading white space, an optional sign, then digits;
    NaN when there is no digit. *)
Definition parseInt (s : string) : jsint :=
  let s := skip_spaces s in
  let '(negative, s) :=
    match s with
    | String "-"%char s' => (true, s')
    | String "+"%char s' => (false, s')
    | _ => (false, s)
    end in
  match leading_digits s None with
  | Some n => Finite (if negative then - n else n)
  | None => NotANumber
  end.

(** [value || fallback] on a string that may be null. *)
Definition or_string (value : option string) (fallback : string) : string :=
  match value with
  | Some v => if String.eqb v "" then fallback else v
  | None => fallback
  end.

(** [parseInt(database.settings.get(key) || fallback, 10)]. *)
Definition int_setting (db : DB) (key fallback : string) : number :=
  of_jsint (parseInt (or_string (settings_get db key) fallback)).

(** *** The world the handlers act on *)

Inductive Effect : Type :=
| Enqueued (packet : list Z)      (* await serial.send(packet) *)
| Slept (ms : number)             (* await on a setTimeout *)
| Emitted (event : string)        (* io.emit / engine.emit *)
| Responded (success : bool).     (* res.json *)

(** The animation engine as the session routes see it. *)
Record Engine : Type := { running : bool; sequenceTimer : bool; stepIndex : Z }.

Record World : Type :=
  { db : DB;
    effects : list Effect;            (* in the order they happened *)
    animationEngine : option Engine }.

(** A handler: it may throw, and leaves the world as it was at that point. *)
Definition M (A : Type) : Type := World -> result A * World.

Definition ret {A} (a : A) : M A := fun w => (Ok a, w).
Definition throw {A} (message : string) : M A := fun w => (Throw message, w).
Definition bindM {A B} (m : M A) (k : A -> M B) : M B :=
  fun w => match m w with
           | (Ok a, w') => k a w'
           | (Throw e, w') => (Throw e, w')
           end.
Definition lift {A} (r : result A) : M A := fun w => (r, w).

Declare Scope handler_scope.
Delimit Scope handler_scope with handler.
Notation "x <- m ;; k" := (bindM m (fun x => k))
  (at level 61, m at next level, right associativity) : handler_scope.
Notation "m ;; k" := (bindM m (fun _ => k))
  (at level 61, right associativity) : handler_scope.
Open Scope handler_scope.

Definition effect (e : Effect) : M unit :=
  fun w => (Ok tt, {| db := db w; effects := effects w ++ [e];
                      animationEngine := animationEngine w |}).

Definition modify_db (f : DB -> DB) : M unit :=
  fun w => (Ok tt, {| db := f (db w); effects := effects w;
                      animationEngine := animationEngine w |}).

Definition read_db : M DB := fun w => (Ok (db w), w).

(** [await serial.send(packet)]: the packet is handed to the transport, which
    is taken to complete every job (its queue is the subject of [Serial]). *)
Definition serial_send (packet : list Z) : M unit := effect (Enqueued packet).

Fixpoint for_each {A} (l : list A) (body : A -> M unit) : M unit :=
  match l with
  | [] => ret tt
  | x :: l' => body x ;; for_each l' body
  end.

(** *** Apartments *)

(** A colour object; [color_intensity] is absent on a custom colour and on
    the fallback white. *)
Record Color : Type :=
  { color_r : number; color_g : number; color_b : number;
    color_intensity : option number }.

(** The [rgb] object of a request; [rgb_r] is [None] when the property is
    undefined, and an undefined [g] or [b] is NaN (what it becomes as soon
    as it is multiplied). *)
Record CustomRgb : Type :=
  { rgb_r : option number; rgb_g : number; rgb_b : number;
    rgb_intensity : option number }.

Definition getStateColor (db : DB) (state : string) (customRgb : option CustomRgb)
  : Color :=
  match customRgb with
  | Some {| rgb_r := Some r; rgb_g := g; rgb_b := b; rgb_intensity := i |} =>
      {| color_r := r; color_g := g; color_b := b; color_intensity := i |}
  | _ =>
      match stateColors_get db state with
      | None => {| color_r := num 255; color_g := num 255; color_b := num 255;
                   color_intensity := None |}
      | Some stateColor =>
          {| color_r := num (sc_red stateColor); color_g := num (sc_green stateColor);
             color_b := num (sc_blue stateColor);
             color_intensity := Some (num (sc_intensity stateColor)) |}
      end
  end.

Definition getApartmentAddresses (db : DB) (apartmentId : string) (primaryAddress : sql Z)
  : list Z :=
  match apartmentLights_getByApartment db apartmentId with
  | (_ :: _) as lights => map al_lightswarm_address lights
  | [] =>
      match primaryAddress with
      | Some a => if a =? 0 then [] else [a]
      | None => []
      end
  end.

Record Options : Type :=
  { intensity : option number; fadeTimeMs : option number; rgb : option CustomRgb }.

Record Lit : Type :=
  { lit_id : string; lit_addresses : list Z; lit_state : string;
    lit_color : jsint * jsint * jsint; lit_fadeTime : number; lit_lightCount : nat }.

(** [Math.round((channel * intensity) / 255)]. *)
Definition scale (channel intensity : number) : jsint :=
  Math_round (js_div (js_mul channel intensity) (num 255)).

Definition lightApartment (apartment : Apartment) (state : string) (options : Options)
  : M Lit :=
  db <- read_db ;;
  let defaultFadeTime := int_setting db "default_fade_time_ms" "500" in
  let defaultIntensity := int_setting db "default_intensity" "200" in
  let actualFadeTime :=
    match fadeTimeMs options with Some t => t | None => defaultFadeTime end in
  let color := getStateColor db state (rgb options) in
  let actualIntensity :=
    match intensity options with
    | Some i => i
    | None => match color_intensity color with Some i => i | None => defaultIntensity end
    end in
  let scaledR := scale (color_r color) actualIntensity in
  let scaledG := scale (color_g color) actualIntensity in
  let scaledB := scale (color_b color) actualIntensity in
  let addresses := getApartmentAddresses db (apt_id apartment) (apt_lightswarm_address apartment) in
  (match addresses with
   | [] => throw ("No light addresses assigned to apartment " ++ apt_id apartment)
   | _ => ret tt
   end) ;;
  for_each addresses (fun address =>
    packet <- lift (if js_ltb (num 0) actualFadeTime
                    then packetRgbFadeToColor address scaledR scaledG scaledB
                           actualFadeTime None
                    else packetRgbLevel address (of_jsint scaledR) (of_jsint scaledG)
                           (of_jsint scaledB)) ;;
    serial_send packet) ;;
  modify_db (fun db => apartments_updateState db (apt_id apartment) state) ;;
  ret {| lit_id := apt_id apartment; lit_addresses := addresses; lit_state := state;
         lit_color := (scaledR, scaledG, scaledB); lit_fadeTime := actualFadeTime;
         lit_lightCount := List.length addresses |}.

(** *** Session *)

(** [animationEngine.stopAmbient()]. *)
Definition stopAmbient : M unit :=
  fun w =>
    match animationEngine w with
    | None => (Ok tt, w)
    | Some _ =>
        (Ok tt, {| db := db w; effects := effects w ++ [Emitted "stopped"];
                   animationEngine :=
                     Some {| running := false; sequenceTimer := false; stepIndex := 0 |} |})
    end.

(** An address column used as an address: NULL behaves as 0 under [<], [>],
    [>>] and [&]. *)
Definition address_of (a : sql Z) : Z := match a with Some z => z | None => 0 end.

(** The body of the floor loop of the login handler. *)
Definition login_floor (fadeTimeMs fadeDelayMs : number) (floor min_floor : sql Z) : M unit :=
  db <- read_db ;;
  let apartments := apartments_getByFloor db None floor in
  for_each apartments (fun apt =>
    let fadeParams := calculateFadeParams (Finite 255) (Finite 0) fadeTimeMs in
    packet <- lift (packetFade (address_of (apt_lightswarm_address apt)) (num 0)
                      (of_jsint (fp_interval fadeParams)) (of_jsint (fp_step fadeParams))) ;;
    serial_send packet) ;;
  let amenities := amenities_getByFloor db None floor in
  for_each amenities (fun amenity =>
    let fadeParams := calculateFadeParams (Finite 255) (Finite 0) fadeTimeMs in
    packet <- lift (packetFade (am_lightswarm_address amenity) (num 0)
                      (of_jsint (fp_interval fadeParams)) (of_jsint (fp_step fadeParams))) ;;
    serial_send packet) ;;
  match floor, min_floor with
  | Some f, Some m => if m <? f then effect (Slept fadeDelayMs) else ret tt
  | _, _ => ret tt
  end.

(** [for (let floor = max_floor; floor >= min_floor; floor--)], with
    [count] the number of floors still to visit. *)
Fixpoint login_floors (count : nat) (fadeTimeMs fadeDelayMs : number) (floor min_floor : Z)
  : M unit :=
  match count with
  | O => ret tt
  | S count' =>
      login_floor fadeTimeMs fadeDelayMs (Some floor) (Some min_floor) ;;
      login_floors count' fadeTimeMs fadeDelayMs (floor - 1) min_floor
  end.

(** [router.post('/login')]; a thrown error goes to [next(err)]. *)
Definition login (agentId : sql string) : M unit :=
  modify_db (fun db => sessionLog_add db "login" agentId) ;;
  stopAmbient ;;
  db <- read_db ;;
  let fadeDelayMs := int_setting db "login_fade_delay_ms" "100" in
  let fadeTimeMs := int_setting db "default_fade_time_ms" "500" in
  (match apartments_getFloorRange db with
   | (Some min_floor, Some max_floor) =>
       login_floors (Z.to_nat (max_floor - min_floor + 1)) fadeTimeMs fadeDelayMs
         max_floor min_floor
   | _ =>
       (* an empty table: floor and both bounds are null, null >= null holds
          once, and floor-- leaves -1 *)
       login_floor fadeTimeMs fadeDelayMs None None
   end) ;;
  effect (Emitted "session_event") ;;
  effect (Responded true).

(** The packets handed to the transport, in order. *)
Definition enqueued_packets (w : World) : list (list Z) :=
  flat_map (fun e => match e with Enqueued p => [p] | _ => [] end) (effects w).

(** What the login handler is specified to enqueue for one floor: a FADE to
    level 0 for every fixture of the floor, apartments then amenities. *)
Definition floor_fixtures (db : DB) (floor : Z) : list Z :=
  map (fun a => address_of (apt_lightswarm_address a))
      (filter (fun a => apt_floor a =? floor) (apartments db))
  ++ map am_lightswarm_address
      (filter (fun a => match am_floor a with Some f => f =? floor | None => false end)
              (amenities db)).

(** Example installations. *)
Definition demo_apartment (id : string) (address floor : Z) : Apartment :=
  {| apt_id := id; apt_name := id; apt_lightswarm_address := Some address;
     apt_tower_id := "T1"; apt_floor := floor; apt_current_state := Some "AVAILABLE"%string;
     apt_unit_position := Some address |}.

(** Two floors, 9 and 10, two apartments on each and an amenity on floor 9. *)
Definition two_floor_db : DB :=
  {| apartments := [demo_apartment "9A" 90 9; demo_apartment "9B" 91 9;
                    demo_apartment "10A" 110 10; demo_apartment "10B" 111 10];
     apartment_lights := [];
     amenities := [{| am_id := "GYM"; am_name := "Gym"; am_lightswarm_address := 95;
                      am_tower_id := Some "T1"%string; am_floor := Some 9 |}];
     state_colors := [{| sc_state_name := "AVAILABLE"; sc_red := 0; sc_green := 255;
                         sc_blue := 0; sc_intensity := 200 |}];
     settings := [("default_fade_time_ms", "500"); ("login_fade_delay_ms", "100")]%string;
     session_log := [] |}.

Definition two_floor_world : World :=
  {| db := two_floor_db; effects := [];
     animationEngine := Some {| running := true; sequenceTimer := false; stepIndex := 0 |} |}.

(** A request for the colour (200, 0, 0) at intensity 200 with no fade. *)
Definition red_200 : Options :=
  {| intensity := Some (num 200); fadeTimeMs := Some (num 0);
     rgb := Some {| rgb_r := Some (num 200); rgb_g := num 0; rgb_b := num 0;
                    rgb_intensity := None |} |}.




Definition with_effects (w : World) (es : list Effect) : World :=
  {| db := db w; effects := effects w ++ es; animationEngine := animationEngine w |}.

End Routes.

(** ** More of the protocol (src/mdp/commands.js, src/mdp/protocol.js) *)

Module ProtocolMore.
Import JsNum Commands Protocol.
Open Scope result_scope.

Definition PADDSET : Z := 0x25.
Definition PADDERASE : Z := 0x26.

(** [[...addressToBytes(physicalAddress), PADDSET, ...addressToBytes(pseudoAddress)]]:
    the elements are evaluated from left to right. *)
Definition buildPseudoAddressSetCommand (physicalAddress pseudoAddress : Z)
  : result (list jsint) :=
  let* a := addressToBytes physicalAddress in
  let* p := addressToBytes pseudoAddress in
  Ok (a ++ [Finite PADDSET] ++ p).

Definition buildPseudoAddressEraseCommand (address : Z) : result (list jsint) :=
  let* a := addressToBytes address in Ok (a ++ [Finite PADDERASE]).

(** [packetBroadcast(commandType, level = 255)]. *)
Definition packetBroadcast (commandType : string) (level : option number)
  : result (list Z) :=
  let level := match level with Some l => l | None => num 255 end in
  let address := BROADCAST_ADDRESS in
  if String.eqb commandType "on" then packetOn address
  else if String.eqb commandType "off" then packetOff address
  else if String.eqb commandType "level" then packetLevel address level
  else Throw ("Unknown broadcast command type: " ++ commandType).


End ProtocolMore.

(** ** Queries of the simulator (src/simulator/index.js) *)

Module SimulatorQueries.
Import Simulator.

(** [getAllStates]: [{ address, ...light }] for every entry, in the order of
    the table; the spread of [light] comes last, so [address] is the
    light's own. *)
Definition getAllStates (s : Sim) : list Light := map snd (lights s).

(** [getState]: [this.lights.get(address) || null]. *)
Definition getState (address : option Z) (s : Sim) : option Light :=
  lights_get address (lights s).

(** [getLightsByFloor]: the lights whose [floor === floor]. *)
Definition getLightsByFloor (floor : option Z) (s : Sim) : list Light :=
  filter (fun light => key_eqb (Simulator.floor light) floor) (map snd (lights s)).

Record Stats : Type :=
  { totalLights : Z; lightsOn : Z; lightsOff : Z;
    apartments : Z; amenities : Z; stats_enabled : bool }.

(** Body of the loop of [getStats] on the four counters. *)
Definition count_light (acc : Z * Z * Z * Z) (entry : option Z * Light) : Z * Z * Z * Z :=
  let '(totalLights, lightsOn, apartments, amenities) := acc in
  let light := snd entry in
  (totalLights + 1,
   (if on (state light) then lightsOn + 1 else lightsOn),
   (match type light with apartment => apartments + 1 | amenity => apartments end),
   (match type light with amenity => amenities + 1 | apartment => amenities end)).

Definition getStats (s : Sim) : Stats :=
  let '(totalLights, lightsOn, apartments, amenities) :=
    fold_left count_light (lights s) (0, 0, 0, 0) in
  {| totalLights := totalLights; lightsOn := lightsOn;
     lightsOff := totalLights - lightsOn;
     apartments := apartments; amenities := amenities;
     stats_enabled := enabled s |}.

(** What identifies a fixture: everything but its state and time stamp. *)
Definition identity (l : Light) : string * LightType * string * option Z * option Z :=
  (id l, type l, name l, address l, floor l).

(** The keys of a table with the identities stored under them, in order. *)
Definition fixtures (m : Lights) : list (option Z * (string * LightType * string * option Z * option Z)) :=
  map (fun entry => (fst entry, identity (snd entry))) m.

(** Every operation but loading the tables from the database. *)
Definition is_command (o : Op) : Prop :=
  match o with
  | OpInitialize _ _ => False
  | _ => True
  end.

(** The light a command leaves behind. *)
Definition commanded (now : string) (command : Z) (data : list Z) (l : Light) : Light :=
  with_state l (fst (apply_command command data (state l))) now.

End SimulatorQueries.

(** ** More of the serial transport (src/mdp/serial.js) *)

Module SerialMore.
Import Serial.

(** The job whose simulated write is being awaited. *)
Definition simulating (s : State) : list Job :=
  match pending s with
  | Some (Simulating job) => [job]
  | _ => []
  end.

(** The jobs whose promise was resolved, and those whose promise was
    rejected, in the order they were settled. *)
Definition resolved (s : State) : list Job := map fst (filter snd (settled s)).
Definition rejected (s : State) : list Job :=
  map fst (filter (fun j => negb (snd j)) (settled s)).

(** Every 'sent' event stands for a resolved promise or for the simulated
    write being awaited, in the same order. *)
Definition emit_inv (s : State) : Prop :=
  map ev_data (sent_events s) = map job_data (resolved s ++ simulating s).

(** The events that call [processQueue] on a connection that awaits nothing:
    [send], and the port's 'open' event. *)
Definition wakes (e : Event) : bool :=
  match e with
  | Send _ | PortOpened => true
  | _ => false
  end.

(** Nothing is awaited and no [delay(10)] is running. *)
Definition idle (s : State) : Prop :=
  processing s = false /\ pending s = None /\ gap_timers s = O.

(** A port that serves one write: it puts every byte of the packet on the
    line, calls back without error, and the following [delay(10)] ends. *)
Definition service (data : list Z) : list Event :=
  repeat PortByte (List.length data) ++ [Drained; GapElapsed].

(** An open connection outside simulation mode that awaits the write of
    [job], with [remaining] still to go out and no [delay(10)] running. *)
Definition writing (job : Job) (remaining : list Z) (queue : list Job) (line : list Z)
  (events : list SentEvent) (done : list (Job * bool)) (pushed shifted : list Job) : State :=
  {| isOpen := true; simulationMode := false; commandQueue := queue; processing := true;
     pending := Some (Writing job remaining); gap_timers := 0; device := line;
     sent_events := events; settled := done; enqueued := pushed; started := shifted |}.

(** The same connection when it awaits nothing and its queue is empty. *)
Definition at_rest (line : list Z) (events : list SentEvent) (done : list (Job * bool))
  (pushed shifted : list Job) : State :=
  {| isOpen := true; simulationMode := false; commandQueue := []; processing := false;
     pending := None; gap_timers := 0; device := line;
     sent_events := events; settled := done; enqueued := pushed; started := shifted |}.

(** The jobs [send] makes of packets when [n] jobs were pushed before. *)
Fixpoint jobs_from (n : nat) (packets : list (list Z)) : list Job :=
  match packets with
  | [] => []
  | data :: rest => {| job_id := n; job_data := data |} :: jobs_from (S n) rest
  end.

Definition sent_event (job : Job) : SentEvent :=
  {| ev_data := job_data job; ev_simulated := false |}.

(** [getStatus().queueLength]. *)
Definition queueLength (s : State) : nat := List.length (commandQueue s).

End SerialMore.

(** ** Reconnection after a lost port ([attemptReconnect], src/mdp/serial.js) *)

Module Reconnect.

Definition maxReconnectAttempts : nat := 10.
Definition reconnectDelay : Z := 2000.

Record State : Type :=
  { reconnectAttempts : nat;
    timers : list Z;          (* delays of the setTimeout callbacks not yet run *)
    scheduled : list Z;       (* history: the delay of every setTimeout call *)
    gave_up : nat }.          (* history: 'Max reconnection attempts reached' logs *)

Definition initial : State :=
  {| reconnectAttempts := 0; timers := []; scheduled := []; gave_up := 0 |}.

Definition attemptReconnect (s : State) : State :=
  if (maxReconnectAttempts <=? reconnectAttempts s)%nat then
    {| reconnectAttempts := reconnectAttempts s; timers := timers s;
       scheduled := scheduled s; gave_up := S (gave_up s) |}
  else
    {| reconnectAttempts := S (reconnectAttempts s);
       timers := timers s ++ [reconnectDelay];
       scheduled := scheduled s ++ [reconnectDelay];
       gave_up := gave_up s |}.

(** The 'open' handler of the port. *)
Definition opened (s : State) : State :=
  {| reconnectAttempts := 0; timers := timers s; scheduled := scheduled s;
     gave_up := gave_up s |}.

Inductive Event : Type :=
| Closed                          (* 'close' event of the port *)
| TimerFired (connected : bool)   (* a setTimeout callback runs; connect() opens the port or throws *)
| Opened.                         (* the port opens after a connect() of the application *)

Definition step (e : Event) (s : State) : State :=
  match e with
  | Closed => attemptReconnect s
  | TimerFired connected =>
      match timers s with
      | [] => s
      | _ :: rest =>
          let s' := {| reconnectAttempts := reconnectAttempts s; timers := rest;
                       scheduled := scheduled s; gave_up := gave_up s |} in
          if connected then opened s' else attemptReconnect s'
      end
  | Opened => opened s
  end.

Definition run (trace : list Event) (s : State) : State :=
  fold_left (fun s e => step e s) trace s.

(** No successful open on the trace. *)
Definition never_opens (trace : list Event) : Prop :=
  Forall (fun e => match e with
                   | TimerFired true | Opened => False
                   | _ => True
                   end) trace.

End Reconnect.

(** ** More queries and updates of the storage *)

Module DatabaseMore.
Import Database.

(** apartments.get: [SELECT * FROM apartments WHERE id = ?], first row.  An
    undefined parameter is dropped by [queryAll], the placeholder stays
    unbound and compares as NULL: no row. *)
Definition apartments_get (db : DB) (id : option string) : option Apartment :=
  match id with
  | None => None
  | Some id =>
      match filter (fun a => String.eqb (apt_id a) id) (apartments db) with
      | row :: _ => Some row
      | [] => None
      end
  end.

Definition with_apartment_lights (db : DB) (rows : list ApartmentLight) : DB :=
  {| apartments := apartments db;
     apartment_lights := rows;
     amenities := amenities db;
     state_colors := state_colors db;
     settings := settings db;
     session_log := session_log db |}.

(** The loop of [setLights] from index [i]: a row for every address that is
    not null, with [light_index = i + 1]. *)
Fixpoint inserted_lights (apartmentId : string) (i : Z) (addresses : list (sql Z))
  : list ApartmentLight :=
  match addresses with
  | [] => []
  | Some a :: rest =>
      {| al_apartment_id := apartmentId; al_light_index := i + 1;
         al_lightswarm_address := a |} :: inserted_lights apartmentId (i + 1) rest
  | None :: rest => inserted_lights apartmentId (i + 1) rest
  end.

(** apartmentLights.setLights: [DELETE FROM apartment_lights WHERE
    apartment_id = ?], then one [INSERT] per address; new rows come last. *)
Definition apartmentLights_setLights (db : DB) (apartmentId : string)
  (addresses : list (sql Z)) : DB :=
  with_apartment_lights db
    (filter (fun l => negb (String.eqb (al_apartment_id l) apartmentId)) (apartment_lights db)
     ++ inserted_lights apartmentId 0 addresses).

(** apartmentLights.getAddressesForApartment: [SELECT lightswarm_address FROM
    apartment_lights WHERE apartment_id = ? ORDER BY light_index]. *)
Definition apartmentLights_getAddressesForApartment (db : DB) (apartmentId : string)
  : list Z :=
  map al_lightswarm_address (apartmentLights_getByApartment db apartmentId).

(** The addresses of a request that are not null, in order. *)
Definition present (addresses : list (sql Z)) : list Z :=
  flat_map (fun a => match a with Some z => [z] | None => [] end) addresses.

End DatabaseMore.

(** ** The other apartment routes *)

Module ApartmentRoutes.
Import JsNum Database DatabaseMore Protocol ProtocolMore Routes.
Open Scope handler_scope.

(** What a handler answers with. *)
Inductive Reply : Type :=
| NotFound                                             (* 404, 'Apartment not found' *)
| TurnedOff (id : string) (addresses : list Z) (lightCount : nat)
| AllOff
| AllOn (intensity : number)
| BatchDone (success : bool) (updated : list Lit)
            (errors : list (option string * string)) (count : nat)
| NoRoute.


(** [router.post('/:id/off')]. *)
Definition apartment_off (id : string) : M Reply :=
  db <- read_db ;;
  match apartments_get db (Some id) with
  | None => ret NotFound
  | Some apartment =>
      let fadeTimeMs := int_setting db "default_fade_time_ms" "500" in
      let fadeParams := calculateFadeParams (Finite 255) (Finite 0) fadeTimeMs in
      let addresses :=
        getApartmentAddresses db (apt_id apartment) (apt_lightswarm_address apartment) in
      for_each addresses (fun address =>
        packet <- lift (packetFade address (num 0) (of_jsint (fp_interval fadeParams))
                          (of_jsint (fp_step fadeParams))) ;;
        serial_send packet) ;;
      modify_db (fun db => apartments_updateState db (apt_id apartment) "OFF") ;;
      ret (TurnedOff (apt_id apartment) addresses (List.length addresses))
  end.

(** [router.post('/all/off')]. *)
Definition all_off : M Reply :=
  packet <- lift (packetBroadcast "off" None) ;;
  serial_send packet ;;
  ret AllOff.

(** [router.post('/all/on')]; [intensity] is the body's property, 200 when
    it is undefined. *)
Definition all_on (intensity : option number) : M Reply :=
  let intensity := match intensity with Some i => i | None => num 200 end in
  packet <- lift (packetBroadcast "level" (Some intensity)) ;;
  serial_send packet ;;
  ret (AllOn intensity).









(** The POST routes of the apartments router in the order they are
    registered.  A request goes to the first route whose path matches; a
    [:name] segment matches any one segment. *)
Inductive Segment : Type :=
| Literal (text : string)
| Named (name : string).

Inductive PostRoute : Type := RouteApartmentOff | RouteAllOff | RouteAllOn.

Definition post_routes : list (list Segment * PostRoute) :=
  [([Named "id"; Literal "off"], RouteApartmentOff);
   ([Literal "all"; Literal "off"], RouteAllOff);
   ([Literal "all"; Literal "on"], RouteAllOn)].

Fixpoint match_path (pattern : list Segment) (path : list string)
  : option (list (string * string)) :=
  match pattern, path with
  | [], [] => Some []
  | Literal text :: pattern', segment :: path' =>
      if String.eqb text segment then match_path pattern' path' else None
  | Named name :: pattern', segment :: path' =>
      if String.eqb segment "" then None
      else option_map (cons (name, segment)) (match_path pattern' path')
  | _, _ => None
  end.

Fixpoint route_of (routes : list (list Segment * PostRoute)) (path : list string)
  : option (PostRoute * list (string * string)) :=
  match routes with
  | [] => None
  | (pattern, route) :: rest =>
      match match_path pattern path with
      | Some params => Some (route, params)
      | None => route_of rest path
      end
  end.

Definition param (name : string) (params : list (string * string)) : string :=
  match filter (fun p => String.eqb (fst p) name) params with
  | p :: _ => snd p
  | [] => ""
  end.

(** A POST request to the apartments router. *)
Definition post (path : list string) (intensity : option number) : M Reply :=
  match route_of post_routes path with
  | Some (RouteApartmentOff, params) => apartment_off (param "id" params)
  | Some (RouteAllOff, _) => all_off
  | Some (RouteAllOn, _) => all_on intensity
  | None => ret NoRoute
  end.



End ApartmentRoutes.

(** * Properties *)

Module SlipFacts.
Import JsNum Slip.

Lemma land_byte (b : Z) : is_byte b -> Z.land b 0xFF = b.
Proof.
  intros Hb. change 0xFF with (Z.ones 8).
  rewrite Z.land_ones by lia. apply Z.mod_small. unfold is_byte in Hb. lia.
Qed.

Lemma Buffer_from_bytes (a : list Z) : Forall is_byte a -> Buffer_from (bytes a) = a.
Proof.
  unfold Buffer_from, bytes. induction 1 as [|b a Hb _ IH]; simpl; [reflexivity|].
  now rewrite land_byte, IH.
Qed.

Lemma stuffed_bytes (b : Z) : is_byte b -> Forall is_byte (stuffed b).
Proof.
  intros Hb. unfold stuffed.
  destruct (b =? 0xC0); [|destruct (b =? 0xDB)];
    repeat constructor; unfold is_byte in *; lia.
Qed.

Lemma encode_loop (data : list Z) (acc : list jsint) :
  fold_left encode_step (bytes data) acc = acc ++ bytes (flat_map stuffed data).
Proof.
  revert acc. induction data as [|b data IH]; intros acc; simpl.
  - now rewrite app_nil_r.
  - unfold bytes in *. rewrite IH, map_app.
    unfold encode_step, stuffed, SLIP_END, SLIP_ESC, SLIP_ESC_END, SLIP_ESC_ESC.
    cbn [jsint_eqb].
    destruct (b =? 0xC0); [|destruct (b =? 0xDB)]; now rewrite <- app_assoc.
Qed.

Lemma decode_stuffed (b : Z) (rest acc : list Z) :
  is_byte b ->
  fold_left decode_step (stuffed b ++ rest) (acc, false)
  = fold_left decode_step rest (acc ++ [b], false).
Proof.
  intros Hb. unfold stuffed.
  destruct (b =? 0xC0) eqn:E1; [|destruct (b =? 0xDB) eqn:E2].
  - apply Z.eqb_eq in E1. subst b. reflexivity.
  - apply Z.eqb_eq in E2. subst b. reflexivity.
  - cbn [app fold_left decode_step]. unfold SLIP_END, SLIP_ESC.
    now rewrite E1, E2.
Qed.

Lemma decode_loop (data acc : list Z) :
  Forall is_byte data ->
  fold_left decode_step (flat_map stuffed data) (acc, false) = (acc ++ data, false).
Proof.
  intros H. revert acc. induction H as [|b data Hb _ IH]; intros acc.
  - simpl. now rewrite app_nil_r.
  - cbn [flat_map]. rewrite decode_stuffed by assumption.
    rewrite IH, <- app_assoc. reflexivity.
Qed.

Lemma encode_shape (P : list Z) :
  Forall is_byte P -> encode (bytes P) = [0xC0] ++ flat_map stuffed P ++ [0xC0].
Proof.
  intros H. unfold encode. rewrite encode_loop.
  change [Finite SLIP_END] with (bytes [SLIP_END]).
  unfold bytes. rewrite <- !map_app.
  change (map Finite) with bytes.
  rewrite Buffer_from_bytes.
  - now rewrite <- app_assoc.
  - apply Forall_app; split; [apply Forall_app; split|].
    + repeat constructor; unfold is_byte, SLIP_END; lia.
    + apply Forall_flat_map. eapply Forall_impl; [|exact H]. apply stuffed_bytes.
    + repeat constructor; unfold is_byte, SLIP_END; lia.
Qed.

Lemma decode_encode (P : list Z) :
  Forall is_byte P -> decode (encode (bytes P)) = P.
Proof.
  intros H. rewrite (encode_shape P H). unfold decode. simpl.
  rewrite fold_left_app, decode_loop by assumption. reflexivity.
Qed.

(** C1. For every list of bytes [P], decoding the encoding of [P] gives [P]
    back; the encoding is the delimiter 0xC0, the stuffed payload and the
    delimiter 0xC0 again (so it begins and ends with 0xC0); a payload byte
    0xC0 goes out as DB DC and a payload byte 0xDB as DB DD, and [decode]
    undoes both. *)
Theorem slip_round_trip (P : list Z) :
  Forall is_byte P ->
  decode (encode (bytes P)) = P
  /\ hd_error (encode (bytes P)) = Some 0xC0
  /\ last (encode (bytes P)) 0 = 0xC0
  /\ encode (bytes P) = [0xC0] ++ flat_map stuffed P ++ [0xC0]
  /\ stuffed 0xC0 = [0xDB; 0xDC]
  /\ stuffed 0xDB = [0xDB; 0xDD]
  /\ encode (bytes [0xC0]) = [0xC0; 0xDB; 0xDC; 0xC0]
  /\ encode (bytes [0xDB]) = [0xC0; 0xDB; 0xDD; 0xC0]
  /\ decode [0xC0; 0xDB; 0xDC; 0xC0] = [0xC0]
  /\ decode [0xC0; 0xDB; 0xDD; 0xC0] = [0xDB].
Proof.
  intros H. pose proof (encode_shape P H) as Hs.
  repeat split; try reflexivity.
  - now apply decode_encode.
  - now rewrite Hs.
  - rewrite Hs, app_assoc. apply last_last.
  - exact Hs.
Qed.

Lemma slip_round_trip_witness :
  Forall is_byte [0x00; 0xC0; 0xDB; 0x41]
  /\ decode (encode (bytes [0x00; 0xC0; 0xDB; 0x41])) = [0x00; 0xC0; 0xDB; 0x41].
Proof.
  assert (H : Forall is_byte [0x00; 0xC0; 0xDB; 0x41])
    by (repeat constructor; unfold is_byte; lia).
  split; [exact H | apply (slip_round_trip _ H)].
Defined.

End SlipFacts.

Module CommandFacts.
Import JsNum Commands Protocol.

Lemma Math_round_not_nan (x : number) :
  x <> S754_nan -> Math_round x <> NotANumber.
Proof. destruct x as [s|[|]| |s m e]; simpl; congruence. Qed.

Lemma clamp_within (x : number) (lo hi : Z) :
  x <> S754_nan -> lo <= hi -> within lo hi (clamp x lo hi).
Proof.
  intros Hx Hle. unfold clamp, within.
  pose proof (Math_round_not_nan x Hx) as Hr.
  destruct (Math_round x) as [z| | |]; try congruence; cbn.
  - destruct (z <? hi) eqn:E1; cbn.
    + destruct (lo <? z) eqn:E2; eexists; split; try reflexivity; lia.
    + destruct (lo <? hi) eqn:E2; eexists; split; try reflexivity; lia.
  - destruct (lo <? hi) eqn:E2; eexists; split; try reflexivity; lia.
  - eexists; split; try reflexivity; lia.
Qed.

Lemma addressToBytes_ok (address : Z) :
  0 <= address <= 65535 ->
  addressToBytes address = Ok [Finite (address / 256); Finite (address mod 256)].
Proof.
  intros H. unfold addressToBytes.
  replace ((address <? 0) || (65535 <? address)) with false
    by (symmetry; apply orb_false_iff; split; apply Z.ltb_ge; lia).
  rewrite Z.shiftr_div_pow2 by lia.
  change 255 with (Z.ones 8). rewrite !Z.land_ones by lia.
  change (2 ^ 8) with 256.
  rewrite (Z.mod_small (address / 256)); [reflexivity|].
  split; [apply Z.div_pos; lia | apply Z.div_lt_upper_bound; lia].
Qed.

Lemma addressToBytes_throws (address : Z) :
  ~ 0 <= address <= 65535 ->
  addressToBytes address
  = Throw ("Invalid address: " ++ show address ++ ". Must be 0-65535.").
Proof.
  intros H. unfold addressToBytes.
  replace ((address <? 0) || (65535 <? address)) with true; [reflexivity|].
  symmetry. apply orb_true_iff.
  destruct (Z.ltb_spec address 0); [now left|right; apply Z.ltb_lt; lia].
Qed.

(** The two bytes of a clamped 16-bit field are its big-endian halves. *)
Lemma hi8_lo8 (v : jsint) (lo : Z) :
  0 <= lo -> within lo 65535 v ->
  exists z, lo <= z <= 65535 /\ hi8 v = Finite (z / 256) /\ lo8 v = Finite (z mod 256).
Proof.
  intros Hlo (z & -> & Hz). exists z. split; [exact Hz|].
  unfold hi8, lo8, ToInt32.
  replace ((z + 2 ^ 31) mod 2 ^ 32 - 2 ^ 31) with z
    by (rewrite Z.mod_small; lia).
  rewrite Z.shiftr_div_pow2 by lia.
  change 255 with (Z.ones 8). rewrite !Z.land_ones by lia.
  change (2 ^ 8) with 256.
  rewrite (Z.mod_small (z / 256)); [split; reflexivity|].
  split; [apply Z.div_pos; lia | apply Z.div_lt_upper_bound; lia].
Qed.

(** C3 as stated does not hold: the packet built for address 100 and colour
    (255, 128, 64) is not C0 00 64 2C FF 80 40 17 C0. *)
Lemma packetRgbLevel_checksum_is_not_17 :
  packetRgbLevel 100 (num 255) (num 128) (num 64)
  <> Ok [0xC0; 0x00; 0x64; 0x2C; 0xFF; 0x80; 0x40; 0x17; 0xC0].
Proof. vm_compute. discriminate. Qed.

(** C3, amended. The RGB_LEVEL command for address 100 and colour
    (255, 128, 64) is 00 64 2C FF 80 40; its XOR checksum is 0x77, and the
    framed packet is C0 00 64 2C FF 80 40 77 C0. *)
Theorem packetRgbLevel_example :
  buildRgbLevelCommand 100 (num 255) (num 128) (num 64)
  = Ok (map Finite [0x00; 0x64; 0x2C; 0xFF; 0x80; 0x40])
  /\ calculateChecksum (map Finite [0x00; 0x64; 0x2C; 0xFF; 0x80; 0x40]) = 0x77
  /\ Z.lxor 0x00 (Z.lxor 0x64 (Z.lxor 0x2C (Z.lxor 0xFF (Z.lxor 0x80 0x40)))) = 0x77
  /\ packetRgbLevel 100 (num 255) (num 128) (num 64)
     = Ok [0xC0; 0x00; 0x64; 0x2C; 0xFF; 0x80; 0x40; 0x77; 0xC0].
Proof. repeat split; vm_compute; reflexivity. Qed.

(** C4 as stated does not hold: an address outside 0..65535 makes an encoder
    throw. *)
Lemma buildLevelCommand_rejects_address :
  buildLevelCommand 65536 (num 0)
  = Throw "Invalid address: 65536. Must be 0-65535."
  /\ buildRgbFadeCommand (-1)
       {| level := num 0; interval := num 1; step := num 1 |}
       {| level := num 0; interval := num 1; step := num 1 |}
       {| level := num 0; interval := num 1; step := num 1 |}
     = Throw "Invalid address: -1. Must be 0-65535.".
Proof. split; vm_compute; reflexivity. Qed.

Lemma channel_bytes_within (c : Channel) :
  channel_ok c ->
  exists l i s, channel_bytes c = [Finite l; Finite i; Finite s]
                /\ 0 <= l <= 255 /\ 1 <= i <= 255 /\ 1 <= s <= 127.
Proof.
  intros (Hl & Hi & Hs). unfold channel_bytes.
  destruct (clamp_within (level c) 0 255 Hl ltac:(lia)) as (l & -> & ?).
  destruct (clamp_within (interval c) 1 255 Hi ltac:(lia)) as (i & -> & ?).
  destruct (clamp_within (step c) 1 127 Hs ltac:(lia)) as (s & -> & ?).
  now exists l, i, s.
Qed.

(** C4, amended. For every address and all numeric (non-NaN) field values:
    when the address is within 0..65535 each encoder returns its bytes, with
    the address packed big-endian, every level byte within 0..255, every
    fade interval within 1..255, every fade step within 1..127, and the
    flash step count and intervals within 2..65535 and 1..65535 as two
    big-endian bytes; when the address is outside 0..65535 each encoder
    throws "Invalid address". *)
Theorem encoders_clamp_and_reject (address : Z)
  (lvl itv stp cr cg cb lvlA lvlB flashSteps itvA itvB : number)
  (red green blue : Channel) :
  not_nan lvl -> not_nan itv -> not_nan stp ->
  not_nan cr -> not_nan cg -> not_nan cb ->
  not_nan lvlA -> not_nan lvlB -> not_nan flashSteps -> not_nan itvA -> not_nan itvB ->
  channel_ok red -> channel_ok green -> channel_ok blue ->
  (0 <= address <= 65535 ->
   let hi := Finite (address / 256) in
   let lo := Finite (address mod 256) in
   (exists l, buildLevelCommand address lvl = Ok [hi; lo; Finite 0x22; Finite l]
              /\ 0 <= l <= 255)
   /\ (exists l i s,
         buildFadeCommand address lvl itv stp
         = Ok [hi; lo; Finite 0x23; Finite l; Finite i; Finite s]
         /\ 0 <= l <= 255 /\ 1 <= i <= 255 /\ 1 <= s <= 127)
   /\ (exists r g b,
         buildRgbLevelCommand address cr cg cb
         = Ok [hi; lo; Finite 0x2C; Finite r; Finite g; Finite b]
         /\ 0 <= r <= 255 /\ 0 <= g <= 255 /\ 0 <= b <= 255)
   /\ (exists rl ri rs gl gi gs bl bi bs,
         buildRgbFadeCommand address red green blue
         = Ok [hi; lo; Finite 0x31; Finite rl; Finite ri; Finite rs;
               Finite gl; Finite gi; Finite gs; Finite bl; Finite bi; Finite bs]
         /\ (0 <= rl <= 255 /\ 1 <= ri <= 255 /\ 1 <= rs <= 127)
         /\ (0 <= gl <= 255 /\ 1 <= gi <= 255 /\ 1 <= gs <= 127)
         /\ (0 <= bl <= 255 /\ 1 <= bi <= 255 /\ 1 <= bs <= 127))
   /\ (exists n a b la lb,
         buildFlashCommand address lvlA lvlB flashSteps itvA itvB
         = Ok [hi; lo; Finite 0x2E; Finite (n / 256); Finite (n mod 256);
               Finite (a / 256); Finite (a mod 256);
               Finite (b / 256); Finite (b mod 256); Finite la; Finite lb]
         /\ 2 <= n <= 65535 /\ 1 <= a <= 65535 /\ 1 <= b <= 65535
         /\ 0 <= la <= 255 /\ 0 <= lb <= 255))
  /\ (~ 0 <= address <= 65535 ->
      let error := Throw ("Invalid address: " ++ show address ++ ". Must be 0-65535.") in
      buildLevelCommand address lvl = error
      /\ buildFadeCommand address lvl itv stp = error
      /\ buildRgbLevelCommand address cr cg cb = error
      /\ buildRgbFadeCommand address red green blue = error
      /\ buildFlashCommand address lvlA lvlB flashSteps itvA itvB = error).
Proof.
  intros Hlvl Hitv Hstp Hcr Hcg Hcb HlvlA HlvlB Hfs HitvA HitvB Hred Hgreen Hblue.
  split.
  - intros Ha hi lo.
    unfold buildLevelCommand, buildFadeCommand, buildRgbLevelCommand,
      buildRgbFadeCommand, buildFlashCommand.
    rewrite (addressToBytes_ok address Ha). cbn [bind app].
    fold hi lo.
    destruct (clamp_within lvl 0 255 Hlvl ltac:(lia)) as (l & El & ?).
    destruct (clamp_within itv 1 255 Hitv ltac:(lia)) as (i & Ei & ?).
    destruct (clamp_within stp 1 127 Hstp ltac:(lia)) as (s & Es & ?).
    destruct (clamp_within cr 0 255 Hcr ltac:(lia)) as (r & Er0 & ?).
    destruct (clamp_within cg 0 255 Hcg ltac:(lia)) as (g & Eg & ?).
    destruct (clamp_within cb 0 255 Hcb ltac:(lia)) as (b & Eb & ?).
    destruct (clamp_within lvlA 0 255 HlvlA ltac:(lia)) as (la & Ela & ?).
    destruct (clamp_within lvlB 0 255 HlvlB ltac:(lia)) as (lb & Elb & ?).
    destruct (hi8_lo8 _ 2 ltac:(lia) (clamp_within flashSteps 2 65535 Hfs ltac:(lia)))
      as (n & ? & En1 & En2).
    destruct (hi8_lo8 _ 1 ltac:(lia) (clamp_within itvA 1 65535 HitvA ltac:(lia)))
      as (a & ? & Ea1 & Ea2).
    destruct (hi8_lo8 _ 1 ltac:(lia) (clamp_within itvB 1 65535 HitvB ltac:(lia)))
      as (b' & ? & Eb1 & Eb2).
    destruct (channel_bytes_within red Hred) as (rl & ri & rs & Er & ? & ? & ?).
    destruct (channel_bytes_within green Hgreen) as (gl & gi & gs & Egr & ? & ? & ?).
    destruct (channel_bytes_within blue Hblue) as (bl & bi & bs & Ebl & ? & ? & ?).
    unfold channel_bytes in Er, Egr, Ebl.
    injection Er as Er1 Er2 Er3. injection Egr as Eg1 Eg2 Eg3. injection Ebl as Eb1' Eb2' Eb3'.
    repeat split.
    + exists l. now rewrite El.
    + exists l, i, s. now rewrite El, Ei, Es.
    + exists r, g, b. now rewrite Er0, Eg, Eb.
    + exists rl, ri, rs, gl, gi, gs, bl, bi, bs.
      rewrite Er1, Er2, Er3, Eg1, Eg2, Eg3, Eb1', Eb2', Eb3'. repeat split; assumption || lia.
    + exists n, a, b', la, lb.
      rewrite En1, En2, Ea1, Ea2, Eb1, Eb2, Ela, Elb. repeat split; assumption || lia.
  - intros Ha error.
    unfold buildLevelCommand, buildFadeCommand, buildRgbLevelCommand,
      buildRgbFadeCommand, buildFlashCommand.
    rewrite (addressToBytes_throws address Ha). repeat split; reflexivity.
Qed.

Lemma encoders_clamp_and_reject_witness :
  (exists l i s,
     buildFadeCommand 100 (num 300) (num 0) (num 1000)
     = Ok [Finite 0; Finite 100; Finite 0x23; Finite l; Finite i; Finite s]
     /\ 0 <= l <= 255 /\ 1 <= i <= 255 /\ 1 <= s <= 127)
  /\ buildLevelCommand 70000 (num 300)
     = Throw "Invalid address: 70000. Must be 0-65535.".
Proof.
  assert (Hn : forall z, In z [0; 1; 2; 5; 300; 1000] -> not_nan (num z)).
  { intros z Hz. simpl in Hz.
    repeat (destruct Hz as [<-|Hz]; [vm_compute; discriminate|]). destruct Hz. }
  assert (Hc : channel_ok {| level := num 0; interval := num 2; step := num 5 |}).
  { repeat split; vm_compute; discriminate. }
  pose proof (fun address =>
                encoders_clamp_and_reject address (num 300) (num 0) (num 1000)
                  (num 0) (num 0) (num 0) (num 0) (num 0) (num 2) (num 1) (num 1) _ _ _
                  (Hn 300 ltac:(simpl; tauto)) (Hn 0 ltac:(simpl; tauto))
                  (Hn 1000 ltac:(simpl; tauto)) (Hn 0 ltac:(simpl; tauto))
                  (Hn 0 ltac:(simpl; tauto)) (Hn 0 ltac:(simpl; tauto))
                  (Hn 0 ltac:(simpl; tauto)) (Hn 0 ltac:(simpl; tauto))
                  (Hn 2 ltac:(simpl; tauto)) (Hn 1 ltac:(simpl; tauto))
                  (Hn 1 ltac:(simpl; tauto)) Hc Hc Hc) as H.
  split.
  - destruct (H 100) as [H1 _]. apply H1. lia.
  - destruct (H 70000) as [_ H2]. apply H2. lia.
Defined.

End CommandFacts.

Module SimulatorFacts.
Import JsNum Simulator.

Lemma any_positive (x y z : Z) :
  (0 <? x) || (0 <? y) || (0 <? z) = (0 <? Z.max x (Z.max y z)).
Proof.
  destruct (Z.ltb_spec 0 x), (Z.ltb_spec 0 y), (Z.ltb_spec 0 z),
    (Z.ltb_spec 0 (Z.max x (Z.max y z))); simpl; try reflexivity; lia.
Qed.

Lemma apply_command_ok (command : Z) (data : list Z) (st : LightState) :
  state_ok st -> state_ok (fst (apply_command command data st)).
Proof.
  intros Hst. unfold apply_command.
  repeat match goal with
         | |- context [if ?c then _ else _] => destruct c
         end; cbn [fst]; try exact Hst; unfold state_ok; cbn [level r g b on];
    try (split; [lia | reflexivity]).
  - split; [reflexivity | apply any_positive].
  - split; [reflexivity | apply any_positive].
Qed.

Lemma lights_set_ok (k : option Z) (l : Light) (m : Lights) :
  state_ok (state l) ->
  Forall (fun entry => state_ok (state (snd entry))) m ->
  Forall (fun entry => state_ok (state (snd entry))) (lights_set k l m).
Proof.
  intros Hl. induction 1 as [|[k' l'] m Hx Hm IH]; cbn [lights_set].
  - constructor; [exact Hl | constructor].
  - destruct (key_eqb k k'); constructor; assumption.
Qed.

Lemma lights_get_ok (k : option Z) (l : Light) (m : Lights) :
  Forall (fun entry => state_ok (state (snd entry))) m ->
  lights_get k m = Some l -> state_ok (state l).
Proof.
  induction 1 as [|[k' l'] m Hx Hm IH]; cbn [lights_get]; [discriminate|].
  destruct (key_eqb k k'); [intros [= <-]; exact Hx | exact IH].
Qed.

Lemma executeCommand_ok (depth : nat) (now : string) (address : option Z)
  (command : Z) (data : list Z) (m : Lights) :
  Forall (fun entry => state_ok (state (snd entry))) m ->
  Forall (fun entry => state_ok (state (snd entry)))
         (snd (executeCommand depth now address command data m)).
Proof.
  revert address m. induction depth as [|depth IH]; intros address m Hm;
    cbn [executeCommand]; [exact Hm|].
  destruct (key_eqb address (Some 65535)).
  - match goal with
    | |- context [fold_left ?f ?l ?a] =>
        assert (Hloop : forall entries acc,
                   Forall (fun entry => state_ok (state (snd entry))) (snd acc) ->
                   Forall (fun entry => state_ok (state (snd entry)))
                          (snd (fold_left f entries acc)))
    end.
    { induction entries as [|entry entries IHe]; intros [res m0] H0; cbn [fold_left]; [exact H0|].
      apply IHe. destruct res as [results|e]; [|exact H0].
      specialize (IH (fst entry) m0 H0).
      destruct (executeCommand depth now (fst entry) command data m0) as [[[| |]|] m1];
        exact IH. }
    specialize (Hloop m (Ok O, m) Hm).
    destruct (fold_left _ m (Ok O, m)) as [[results|e] m']; exact Hloop.
  - destruct (lights_get address m) as [light|] eqn:Hg; [|exact Hm].
    pose proof (apply_command_ok command data (state light) (lights_get_ok _ _ _ Hm Hg)) as Hs.
    destruct (apply_command command data (state light)) as [st change].
    cbn [snd]. apply lights_set_ok; [exact Hs | exact Hm].
Qed.

Lemma executeCommand_S (depth : nat) (now : string) (address : option Z)
  (command : Z) (data : list Z) (m : Lights) :
  executeCommand (S depth) now address command data m
  = if key_eqb address (Some 0xFFFF) then
      match
        fold_left
          (fun (acc : result nat * Lights) (entry : option Z * Light) =>
             match acc with
             | (Throw e, m) => (Throw e, m)
             | (Ok results, m) =>
                 match executeCommand depth now (fst entry) command data m with
                 | (Throw e, m') => (Throw e, m')
                 | (Ok (AddressNotFound _), m') => (Ok results, m')
                 | (Ok _, m') => (Ok (S results), m')
                 end
             end)
          m (Ok O, m)
      with
      | (Throw e, m') => (Throw e, m')
      | (Ok results, m') => (Ok (Broadcast command results), m')
      end
    else
      match lights_get address m with
      | None => (Ok (AddressNotFound address), m)
      | Some light =>
          let (st, change) := apply_command command data (state light) in
          let light' := with_state light st now in
          (Ok (LightUpdated address light' change), lights_set address light' m)
      end.
Proof. reflexivity. Qed.

(** The call depth is enough: on a table without a fixture at the broadcast
    address, a depth of 2 suffices for every command to return. *)
Lemma executeCommand_returns (depth : nat) (now : string) (address : option Z)
  (command : Z) (data : list Z) (m : Lights) :
  Forall (fun entry => fst entry <> Some 0xFFFF) m ->
  exists o, fst (executeCommand (S (S depth)) now address command data m) = Ok o.
Proof.
  intros Hkeys.
  assert (Hone : forall k m0, k <> Some 0xFFFF ->
             exists o, fst (executeCommand (S depth) now k command data m0) = Ok o).
  { intros k m0 Hk. rewrite executeCommand_S.
    destruct (key_eqb k (Some 65535)) eqn:E.
    - exfalso. apply Hk. destruct k as [z|]; [|discriminate].
      cbn in E. apply Z.eqb_eq in E. now subst.
    - destruct (lights_get k m0); [|eexists; reflexivity].
      destruct (apply_command command data (state l)). eexists; reflexivity. }
  rewrite executeCommand_S.
  destruct (key_eqb address (Some 65535)).
  - match goal with
    | |- context [fold_left ?f m ?a] =>
        assert (Hloop : forall entries acc,
                   Forall (fun entry => fst entry <> Some 0xFFFF) entries ->
                   (exists n, fst acc = Ok n) ->
                   exists n, fst (fold_left f entries acc) = Ok n)
    end.
    { induction entries as [|entry entries IHe]; intros [res m0] Hent [n Hn];
        cbn [fold_left]; [exists n; exact Hn|].
      inversion Hent as [|? ? Hk Hrest]; subst.
      apply IHe; [exact Hrest|]. cbn [fst] in Hn. subst res.
      destruct (Hone (fst entry) m0 Hk) as [o Ho].
      destruct (executeCommand (S depth) now (fst entry) command data m0) as [[o'|e] m1];
        [|discriminate].
      destruct o'; eexists; reflexivity. }
    destruct (Hloop m (Ok O, m) Hkeys ltac:(exists O; reflexivity)) as [n Hn].
    destruct (fold_left _ m (Ok O, m)) as [[results|e] m']; [eexists; reflexivity | discriminate].
  - destruct (lights_get address m); [|eexists; reflexivity].
    destruct (apply_command command data (state l)). eexists; reflexivity.
Qed.

Lemma processPacket_ok (depth : nat) (now : string) (packet : list Z) (s : Sim) :
  table_ok s -> table_ok (snd (processPacket depth now packet s)).
Proof.
  intros Hs. unfold processPacket.
  destruct (negb (enabled s)); [exact Hs|].
  destruct (frame_of_packet packet) as [[[address command] data]|]; [|exact Hs].
  pose proof (executeCommand_ok depth now (Some address) command data (lights s) Hs) as H.
  destruct (executeCommand depth now (Some address) command data (lights s)) as [[o|e] m];
    exact H.
Qed.

Lemma off_state_ok : state_ok off_state.
Proof. split; reflexivity. Qed.

Lemma initializeFromDatabase_ok apartments amenities (s : Sim) :
  table_ok s -> table_ok (initializeFromDatabase apartments amenities s).
Proof.
  intros Hs. unfold table_ok, initializeFromDatabase. cbn [lights].
  assert (H1 : forall rows m,
             Forall (fun entry => state_ok (state (snd entry))) m ->
             Forall (fun entry => state_ok (state (snd entry)))
               (fold_left (fun m apt => lights_set (Database.apt_lightswarm_address apt)
                                                   (apartment_light apt) m) rows m)).
  { induction rows as [|row rows IH]; intros m Hm; cbn [fold_left]; [exact Hm|].
    apply IH. apply lights_set_ok; [apply off_state_ok | exact Hm]. }
  assert (H2 : forall rows m,
             Forall (fun entry => state_ok (state (snd entry))) m ->
             Forall (fun entry => state_ok (state (snd entry)))
               (fold_left (fun m a => lights_set (Some (Database.am_lightswarm_address a))
                                                 (amenity_light a) m) rows m)).
  { induction rows as [|row rows IH]; intros m Hm; cbn [fold_left]; [exact Hm|].
    apply IH. apply lights_set_ok; [apply off_state_ok | exact Hm]. }
  apply H2, H1, Hs.
Qed.

Lemma resetAll_ok (now : string) (s : Sim) : table_ok (resetAll now s).
Proof.
  unfold table_ok, resetAll. cbn [lights].
  apply Forall_map. apply Forall_forall. intros entry _. apply off_state_ok.
Qed.

Lemma apply_op_ok (o : Op) (s : Sim) : table_ok s -> table_ok (apply_op o s).
Proof.
  intros Hs. destruct o; cbn [apply_op].
  - exact Hs.
  - now apply initializeFromDatabase_ok.
  - now apply processPacket_ok.
  - unfold table_ok. cbn [lights]. now apply executeCommand_ok.
  - apply resetAll_ok.
Qed.

(** C10. Every simulator operation (enabling, initialising from the
    database, processing a packet or executing a command for any opcode and
    any address, broadcast included, and resetting) keeps, for every
    fixture of the table, level = max(r, g, b) and on = (level > 0); hence
    the table reached from a new simulator by any sequence of operations
    satisfies it. *)
Theorem simulator_invariant :
  (forall (o : Op) (s : Sim), table_ok s -> table_ok (apply_op o s))
  /\ (forall ops : list Op, table_ok (run ops new_simulator)).
Proof.
  split; [exact apply_op_ok|].
  intros ops. unfold run.
  assert (H : forall s, table_ok s -> table_ok (fold_left (fun s o => apply_op o s) ops s)).
  { induction ops as [|o ops IH]; intros s Hs; cbn [fold_left]; [exact Hs|].
    apply IH, apply_op_ok, Hs. }
  apply H. constructor.
Qed.

Lemma simulator_invariant_witness :
  table_ok demo_simulator
  /\ table_ok (apply_op (OpProcessPacket 4 "now" [0xC0; 0xFF; 0xFF; 0x22; 0x80; 0xA2; 0xC0])
                        demo_simulator).
Proof.
  assert (H : table_ok demo_simulator) by (repeat constructor).
  split; [exact H | apply (proj1 simulator_invariant), H].
Defined.

Lemma land_shift_low (hi lo : Z) : 0 <= lo < 256 -> Z.land (Z.shiftl hi 8) lo = 0.
Proof.
  intros Hlo. apply Z.bits_inj'. intros n Hn.
  rewrite Z.land_spec, Z.bits_0.
  destruct (Z.ltb_spec n 8).
  - rewrite Z.shiftl_spec_low by lia. reflexivity.
  - destruct (Z.eq_dec lo 0) as [->|Hnz]; [rewrite Z.bits_0; apply andb_false_r|].
    rewrite (Z.bits_above_log2 lo n); [apply andb_false_r | lia |].
    assert (Z.log2 lo < 8) by (apply Z.log2_lt_pow2; lia). lia.
Qed.

Lemma lor_shift_add (hi lo : Z) :
  0 <= lo < 256 -> Z.lor (Z.shiftl hi 8) lo = hi * 256 + lo.
Proof.
  intros Hlo. pose proof (land_shift_low hi lo Hlo) as H0.
  rewrite <- Z.lxor_lor by exact H0.
  rewrite <- Z.add_nocarry_lxor by exact H0.
  rewrite Z.shiftl_mul_pow2 by lia. reflexivity.
Qed.

Lemma stuffed_plain (X : list Z) :
  Forall (fun b => b <> 0xC0 /\ b <> 0xDB) X -> flat_map Slip.stuffed X = X.
Proof.
  induction 1 as [|b X [H1 H2] _ IH]; cbn [flat_map]; [reflexivity|].
  unfold Slip.stuffed at 1.
  destruct (Z.eqb_spec b 0xC0); [contradiction|].
  destruct (Z.eqb_spec b 0xDB); [contradiction|].
  cbn [app]. now rewrite IH.
Qed.

(** Where the two readings agree: a frame that needs no escaping. *)
Lemma frame_of_packet_plain (frame : list Z) (checksum : Z) :
  Forall Slip.is_byte (frame ++ [checksum]) ->
  Forall (fun b => b <> 0xC0 /\ b <> 0xDB) (frame ++ [checksum]) ->
  frame_of_packet (Slip.encode (Slip.bytes (frame ++ [checksum])))
  = spec_frame_of_packet (Slip.encode (Slip.bytes (frame ++ [checksum]))).
Proof.
  intros Hb Hp.
  unfold spec_frame_of_packet.
  rewrite (SlipFacts.decode_encode _ Hb), (SlipFacts.encode_shape _ Hb).
  rewrite (stuffed_plain _ Hp), removelast_last.
  unfold frame_of_packet. cbn [app]. change (192 =? 192) with true. cbv iota.
  assert (Hne : (frame ++ [checksum]) ++ [192] <> [])
    by (intros E; apply app_eq_nil in E; destruct E; discriminate).
  destruct ((frame ++ [checksum]) ++ [192]) as [|x xs] eqn:E; [congruence|].
  rewrite <- E. rewrite last_last. change (192 =? 192) with true. cbv iota.
  rewrite !removelast_last.
  destruct frame as [|hi [|lo [|command data]]]; try reflexivity.
  rewrite lor_shift_add; [reflexivity|].
  inversion Hb as [|? ? _ Hb']. inversion Hb' as [|? ? Hlo _].
  unfold Slip.is_byte in Hlo. lia.
Qed.

(** C8 fails on the code at a frame that contains an escaped byte: for the
    RGB_LEVEL packet of address 100 and colour (192, 0, 0) the decoder of
    sections 4.1 and 4.2 (and [parsePacket]) recovers payload C0 00 00,
    while the simulator reads payload DB DC 00 00 and records the colour
    (219, 220, 0); and the ON packet of address 192 is read as a command
    for address 219, so that fixture 192 stays off. *)
Theorem simulator_reads_escaped_frame_raw :
  let packet := [0xC0; 0x00; 0x64; 0x2C; 0xDB; 0xDC; 0x00; 0x00; 0x88; 0xC0] in
  Protocol.packetRgbLevel 100 (num 192) (num 0) (num 0) = Ok packet
  /\ spec_frame_of_packet packet = Some (100, 0x2C, [0xC0; 0x00; 0x00])
  /\ Protocol.parsePacket packet = Some (100, 0x2C, [0xC0; 0x00; 0x00])
  /\ frame_of_packet packet = Some (100, 0x2C, [0xDB; 0xDC; 0x00; 0x00])
  /\ state_at 100 (snd (processPacket 4 "now" packet demo_simulator))
     = Some {| on := true; level := 220; r := 219; g := 220; b := 0 |}
  /\ Protocol.packetOn 192 = Ok [0xC0; 0x00; 0xDB; 0xDC; 0x20; 0xE0; 0xC0]
  /\ spec_frame_of_packet [0xC0; 0x00; 0xDB; 0xDC; 0x20; 0xE0; 0xC0] = Some (192, 0x20, [])
  /\ frame_of_packet [0xC0; 0x00; 0xDB; 0xDC; 0x20; 0xE0; 0xC0] = Some (219, 0xDC, [0x20])
  /\ state_at 192 (snd (processPacket 4 "now" [0xC0; 0x00; 0xDB; 0xDC; 0x20; 0xE0; 0xC0]
                                      demo_simulator))
     = Some off_state.
Proof. repeat split; vm_compute; reflexivity. Qed.

End SimulatorFacts.

Module SerialFacts.
Import Serial.

Lemma processQueue_fifo (s : State) : fifo_inv s -> fifo_inv (processQueue s).
Proof.
  intros H. pose proof H as (H1 & H2 & H3). unfold processQueue.
  destruct (processing s) eqn:Hp; [exact H|].
  destruct (commandQueue s) as [|job rest] eqn:Hq; [exact H|].
  destruct (negb (isOpen s)); [exact H|].
  assert (Hnone : in_flight s = []).
  { unfold in_flight. destruct (pending s); [discriminate | reflexivity]. }
  rewrite Hnone, app_nil_r in H2.
  destruct (simulationMode s); unfold fifo_inv, in_flight; cbn;
    (repeat split; [now rewrite <- app_assoc | now rewrite H2]).
Qed.

Lemma finish_fifo (job : Job) (resolved : bool) (events : list SentEvent) (s : State) :
  in_flight s = [job] -> fifo_inv s -> fifo_inv (finish job resolved events s).
Proof.
  intros Hj (H1 & H2 & H3). unfold fifo_inv, finish, in_flight. cbn.
  rewrite Hj in H2. repeat split; [assumption|].
  now rewrite map_app, app_nil_r.
Qed.

Lemma step_fifo (e : Event) (s : State) : fifo_inv s -> fifo_inv (step e s).
Proof.
  intros H. pose proof H as (H1 & H2 & H3).
  destruct e; cbn [step].
  - apply processQueue_fifo. unfold fifo_inv, in_flight in *. cbn.
    repeat split; [now rewrite app_assoc, H1 | assumption | assumption].
  - destruct (pending s) as [[job [|byte remaining]|job]|] eqn:Hp; try exact H.
    unfold fifo_inv, in_flight in *. cbn. rewrite Hp in *. now repeat split.
  - destruct (pending s) as [[job [|byte remaining]|job]|] eqn:Hp; try exact H.
    apply finish_fifo; [unfold in_flight; now rewrite Hp | exact H].
  - destruct (pending s) as [[job remaining|job]|] eqn:Hp; try exact H.
    apply finish_fifo; [unfold in_flight; now rewrite Hp | exact H].
  - destruct (pending s) as [[job remaining|job]|] eqn:Hp; try exact H.
    apply finish_fifo; [unfold in_flight; now rewrite Hp | exact H].
  - destruct (gap_timers s) as [|n]; [exact H|].
    apply processQueue_fifo. unfold fifo_inv, in_flight in *. cbn. now repeat split.
  - apply processQueue_fifo. unfold fifo_inv, in_flight, set_isOpen in *. cbn. now repeat split.
  - destruct (simulationMode s); [|exact H].
    unfold fifo_inv, in_flight, set_isOpen in *. cbn. now repeat split.
  - unfold fifo_inv, in_flight, set_isOpen in *. cbn. now repeat split.
  - unfold fifo_inv, in_flight in *. cbn. now repeat split.
Qed.

Lemma processQueue_stream (s : State) :
  fifo_inv s -> stream_inv s -> stream_inv (processQueue s).
Proof.
  intros (_ & _ & H3) Hs. pose proof Hs as (S1 & S2 & S3 & S4). unfold processQueue.
  destruct (processing s) eqn:Hp; [exact Hs|].
  destruct (commandQueue s) as [|job rest] eqn:Hq; [exact Hs|].
  destruct (negb (isOpen s)); [exact Hs|].
  rewrite S1.
  assert (Hu : unwritten s = []).
  { unfold unwritten. destruct (pending s); [discriminate | reflexivity]. }
  rewrite Hu, app_nil_r in S3.
  unfold stream_inv, unwritten. cbn. repeat split; try assumption.
  - intros j; discriminate.
  - rewrite map_app, concat_app, S3. cbn. now rewrite app_nil_r.
Qed.

Lemma step_stream (e : Event) (s : State) :
  clean [e] = true -> fifo_inv s -> stream_inv s -> stream_inv (step e s).
Proof.
  intros Hc Hf Hs. pose proof Hs as (S1 & S2 & S3 & S4).
  destruct e; cbn [step].
  - apply processQueue_stream.
    + pose proof (step_fifo (Send data) s Hf) as H. cbn [step] in H.
      destruct Hf as (H1 & H2 & H3).
      unfold fifo_inv, in_flight in *. cbn.
      repeat split; [now rewrite app_assoc, H1 | assumption | assumption].
    + unfold stream_inv, unwritten in *. cbn. now repeat split.
  - destruct (pending s) as [[job [|byte remaining]|job]|] eqn:Hp; try exact Hs.
    unfold stream_inv, unwritten in *. cbn. rewrite Hp in *.
    repeat split; try assumption; [intros j; discriminate|].
    now rewrite <- app_assoc.
  - destruct (pending s) as [[job [|byte remaining]|job]|] eqn:Hp; try exact Hs.
    unfold stream_inv, unwritten, finish in *. cbn. rewrite Hp in *.
    repeat split; try assumption; [intros j; discriminate|].
    apply Forall_app; split; [assumption | now repeat constructor].
  - discriminate.
  - destruct (pending s) as [[job remaining|job]|] eqn:Hp; try exact Hs.
    exfalso. now apply (S2 job).
  - destruct (gap_timers s) as [|n]; [exact Hs|].
    apply processQueue_stream.
    + destruct Hf as (H1 & H2 & H3). unfold fifo_inv, in_flight in *. cbn. now repeat split.
    + unfold stream_inv, unwritten in *. cbn. now repeat split.
  - apply processQueue_stream.
    + destruct Hf as (H1 & H2 & H3). unfold fifo_inv, in_flight, set_isOpen in *. cbn.
      now repeat split.
    + unfold stream_inv, unwritten, set_isOpen in *. cbn. now repeat split.
  - rewrite S1. exact Hs.
  - unfold stream_inv, unwritten, set_isOpen in *. cbn. now repeat split.
  - destruct enabled; [discriminate|].
    unfold stream_inv, unwritten in *. cbn. now repeat split.
Qed.

Lemma step_sends (e : Event) (s : State) :
  map job_data (enqueued (step e s)) = map job_data (enqueued s) ++ sends [e].
Proof.
  assert (Hpq : forall s, enqueued (processQueue s) = enqueued s).
  { intros s0. unfold processQueue.
    destruct (processing s0); [reflexivity|].
    destruct (commandQueue s0); [reflexivity|].
    destruct (negb (isOpen s0)); [reflexivity|].
    destruct (simulationMode s0); reflexivity. }
  destruct e; cbn [step sends flat_map app]; rewrite ?app_nil_r; try reflexivity.
  - rewrite Hpq. cbn. now rewrite map_app.
  - destruct (pending s) as [[job [|byte remaining]|job]|]; reflexivity.
  - destruct (pending s) as [[job [|byte remaining]|job]|]; reflexivity.
  - destruct (pending s) as [[job remaining|job]|]; reflexivity.
  - destruct (pending s) as [[job remaining|job]|]; reflexivity.
  - destruct (gap_timers s); [reflexivity|]. now rewrite Hpq.
  - now rewrite Hpq.
  - destruct (simulationMode s); reflexivity.
Qed.

Lemma run_snoc (trace : list Event) (e : Event) (s : State) :
  run (trace ++ [e]) s = step e (run trace s).
Proof. unfold run. now rewrite fold_left_app. Qed.

Lemma clean_snoc (trace : list Event) (e : Event) :
  clean (trace ++ [e]) = true -> clean trace = true /\ clean [e] = true.
Proof. unfold clean. rewrite forallb_app. apply andb_prop. Qed.

Lemma sends_snoc (trace : list Event) (e : Event) :
  sends (trace ++ [e]) = sends trace ++ sends [e].
Proof. unfold sends. now rewrite flat_map_app. Qed.

Lemma run_invariants (simulation : bool) (trace : list Event) :
  let s := run trace (new_connection simulation) in
  fifo_inv s
  /\ map job_data (enqueued s) = sends trace
  /\ (simulation = false -> clean trace = true -> stream_inv s).
Proof.
  induction trace as [|e trace IH] using rev_ind.
  - cbn zeta. split; [|split].
    + repeat split.
    + reflexivity.
    + intros -> _. unfold stream_inv. cbn.
      repeat split; [intros j; discriminate | constructor].
  - rewrite run_snoc. cbn zeta in *. destruct IH as (Hf & He & Hs).
    split; [now apply step_fifo|]. split.
    + now rewrite step_sends, He, sends_snoc.
    + intros Hsim Hc. apply clean_snoc in Hc as [Hc1 Hc2].
      apply step_stream; auto.
Qed.




End SerialFacts.

Module RoutesFacts.
Import JsNum Database Protocol Routes.





(** C6. Lighting an apartment that has no rows in apartment_lights and no
    primary address fails with the "No light addresses" error; the world is
    left as it was: nothing was handed to the transport and the stored
    state of the apartment is unchanged. *)
Theorem lightApartment_no_addresses (w : World) (apartment : Apartment)
  (state : string) (options : Options) :
  apartmentLights_getByApartment (db w) (apt_id apartment) = [] ->
  apt_lightswarm_address apartment = None ->
  exists w',
    lightApartment apartment state options w
    = (Throw ("No light addresses assigned to apartment " ++ apt_id apartment), w')
    /\ w' = w
    /\ enqueued_packets w' = enqueued_packets w
    /\ apartments (db w') = apartments (db w).
Proof.
  intros Hl Hp. exists w. split; [|now repeat split].
  unfold lightApartment, bindM, read_db, getApartmentAddresses.
  rewrite Hl, Hp. reflexivity.
Qed.

Lemma lightApartment_no_addresses_witness :
  let w := {| db := two_floor_db; effects := [Enqueued [0xC0]]; animationEngine := None |} in
  let apartment := {| apt_id := "PH1"; apt_name := "Penthouse";
                      apt_lightswarm_address := None; apt_tower_id := "T1";
                      apt_floor := 11; apt_current_state := Some "AVAILABLE"%string;
                      apt_unit_position := None |} in
  apartmentLights_getByApartment (db w) (apt_id apartment) = []
  /\ apt_lightswarm_address apartment = None
  /\ lightApartment apartment "SOLD" red_200 w
     = (Throw "No light addresses assigned to apartment PH1", w).
Proof.
  intros w apartment.
  split; [reflexivity|]. split; [reflexivity|].
  destruct (lightApartment_no_addresses w apartment "SOLD" red_200 eq_refl eq_refl)
    as (w' & H & -> & _).
  exact H.
Defined.





Lemma filter_none {A} (f : A -> bool) (l : list A) :
  (forall x, f x = false) -> filter f l = [].
Proof.
  intros H. induction l as [|x l IH]; cbn; [reflexivity|]. now rewrite H.
Qed.

(** With a NULL tower the floor queries select no row. *)
Lemma apartments_getByFloor_null (db : DB) (floor : sql Z) :
  apartments_getByFloor db None floor = [].
Proof.
  unfold apartments_getByFloor. rewrite filter_none; [reflexivity|].
  intros a. change (sql_eq String.eqb (Some (apt_tower_id a)) None) with (@None bool).
  now destruct (sql_eq Z.eqb (Some (apt_floor a)) floor) as [[|]|].
Qed.

Lemma amenities_getByFloor_null (db : DB) (floor : sql Z) :
  amenities_getByFloor db None floor = [].
Proof.
  unfold amenities_getByFloor. apply filter_none.
  intros a.
  replace (sql_eq String.eqb (am_tower_id a) None) with (@None bool)
    by (now destruct (am_tower_id a)).
  now destruct (sql_eq Z.eqb (am_floor a) floor) as [[|]|].
Qed.

Lemma login_floor_sends_nothing (fadeTimeMs fadeDelayMs : number) (floor min_floor : sql Z)
  (w : World) :
  exists w',
    login_floor fadeTimeMs fadeDelayMs floor min_floor w = (Ok tt, w')
    /\ enqueued_packets w' = enqueued_packets w.
Proof.
  unfold login_floor, bindM, read_db.
  rewrite apartments_getByFloor_null, amenities_getByFloor_null. cbn [for_each ret].
  destruct floor as [f|], min_floor as [m|]; try (exists w; now split).
  destruct (m <? f); [|exists w; now split].
  eexists. split; [reflexivity|].
  unfold enqueued_packets. cbn. rewrite flat_map_app. cbn. now rewrite app_nil_r.
Qed.

Lemma login_floors_sends_nothing (count : nat) (fadeTimeMs fadeDelayMs : number)
  (floor min_floor : Z) (w : World) :
  exists w',
    login_floors count fadeTimeMs fadeDelayMs floor min_floor w = (Ok tt, w')
    /\ enqueued_packets w' = enqueued_packets w.
Proof.
  revert floor w. induction count as [|count IH]; intros floor w; cbn [login_floors].
  - exists w. now split.
  - destruct (login_floor_sends_nothing fadeTimeMs fadeDelayMs (Some floor) (Some min_floor) w)
      as (w1 & H1 & E1).
    destruct (IH (floor - 1) w1) as (w2 & H2 & E2).
    exists w2. unfold bindM. rewrite H1, H2. split; [reflexivity | congruence].
Qed.

(** C7 fails on the code: the login handler asks for the fixtures of each
    floor with a NULL tower, a query that selects no row, so it hands no
    packet at all to the transport, whatever the installation.  At the
    installation with floors 9 and 10 (fixtures 110 and 111 on floor 10;
    90, 91 and 95 on floor 9) it stops the animation, sleeps once and
    reports success; the query by floor alone would have found the
    fixtures. *)
Theorem login_enqueues_no_packet :
  (forall agentId w,
     exists w', login agentId w = (Ok tt, w')
                /\ enqueued_packets w' = enqueued_packets w)
  /\ floor_fixtures two_floor_db 10 = [110; 111]
  /\ floor_fixtures two_floor_db 9 = [90; 91; 95]
  /\ map apt_id (apartments_getByFloorOnly two_floor_db (Some 10)) = ["10A"; "10B"]%string
  /\ apartments_getByFloor two_floor_db None (Some 10) = []
  /\ effects (snd (login (Some "agent"%string) two_floor_world))
     = [Emitted "stopped"; Slept (num 100); Emitted "session_event"; Responded true]
  /\ enqueued_packets (snd (login (Some "agent"%string) two_floor_world)) = [].
Proof.
  split; [|repeat split; vm_compute; reflexivity].
  intros agentId w. unfold login.
  unfold bindM at 1. unfold modify_db at 1.
  set (w0 := {| db := sessionLog_add (db w) "login" agentId; effects := effects w;
                animationEngine := animationEngine w |}).
  assert (E0 : enqueued_packets w0 = enqueued_packets w) by reflexivity.
  unfold bindM at 1.
  assert (Hstop : exists w1, stopAmbient w0 = (Ok tt, w1)
                             /\ enqueued_packets w1 = enqueued_packets w0).
  { unfold stopAmbient. destruct (animationEngine w0); [|exists w0; now split].
    eexists. split; [reflexivity|].
    unfold enqueued_packets. cbn. rewrite flat_map_app. cbn. now rewrite app_nil_r. }
  destruct Hstop as (w1 & -> & E1).
  unfold bindM at 1. unfold read_db at 1.
  unfold bindM at 1.
  assert (Hloop : exists w2,
             (match apartments_getFloorRange (db w1) with
              | (Some min_floor, Some max_floor) =>
                  login_floors (Z.to_nat (max_floor - min_floor + 1))
                    (int_setting (db w1) "default_fade_time_ms" "500")
                    (int_setting (db w1) "login_fade_delay_ms" "100") max_floor min_floor
              | _ => login_floor (int_setting (db w1) "default_fade_time_ms" "500")
                       (int_setting (db w1) "login_fade_delay_ms" "100") None None
              end) w1 = (Ok tt, w2)
             /\ enqueued_packets w2 = enqueued_packets w1).
  { destruct (apartments_getFloorRange (db w1)) as [[mn|] [mx|]];
      try apply login_floor_sends_nothing. apply login_floors_sends_nothing. }
  destruct Hloop as (w2 & -> & E2).
  eexists. split; [reflexivity|].
  unfold enqueued_packets in *. cbn. rewrite !flat_map_app. cbn.
  rewrite !app_nil_r. congruence.
Qed.

End RoutesFacts.

Module FloatFacts.
Import JsNum.

Lemma digits2_pos_bounds (p : positive) :
  2 ^ (Zpos (digits2_pos p) - 1) <= Zpos p < 2 ^ Zpos (digits2_pos p).
Proof.
  induction p as [p IH|p IH|]; cbn [digits2_pos].
  - rewrite Pos2Z.inj_succ. replace (Z.succ (Zpos (digits2_pos p)) - 1) with (Z.succ (Zpos (digits2_pos p) - 1)) by lia.
    rewrite !Z.pow_succ_r by lia. lia.
  - rewrite Pos2Z.inj_succ. replace (Z.succ (Zpos (digits2_pos p)) - 1) with (Z.succ (Zpos (digits2_pos p) - 1)) by lia.
    rewrite !Z.pow_succ_r by lia. lia.
  - cbn. lia.
Qed.

Lemma Zdigits2_bounds (m : Z) :
  0 < m -> 0 < Zdigits2 m /\ 2 ^ (Zdigits2 m - 1) <= m < 2 ^ Zdigits2 m.
Proof.
  destruct m as [|p|p]; try lia. intros _. cbn [Zdigits2].
  split; [lia | apply digits2_pos_bounds].
Qed.

Lemma shr_1_m (r : shr_record) : 0 <= shr_m r -> shr_m (shr_1 r) = shr_m r / 2.
Proof.
  destruct r as [m rb sb]. cbn [shr_m]. intros Hm.
  destruct m as [|[p|p|]|p]; cbn [shr_1 shr_m]; try lia.
  - reflexivity.
  - rewrite Pos2Z.inj_xI. apply Z.div_unique with 1; lia.
  - rewrite Pos2Z.inj_xO. apply Z.div_unique with 0; lia.
  - reflexivity.
Qed.

Lemma pow2_xO (p : positive) : 2 ^ Zpos p~0 = 2 ^ Zpos p * 2 ^ Zpos p.
Proof. rewrite Pos2Z.inj_xO, <- Z.pow_add_r by lia. f_equal. lia. Qed.

Lemma pow2_xI (p : positive) : 2 ^ Zpos p~1 = 2 * (2 ^ Zpos p * 2 ^ Zpos p).
Proof.
  rewrite Pos2Z.inj_xI, <- Z.pow_add_r by lia.
  replace (2 * Zpos p + 1) with (Z.succ (Zpos p + Zpos p)) by lia.
  now rewrite Z.pow_succ_r by lia.
Qed.

Lemma iter_pos_shr (p : positive) (r : shr_record) :
  0 <= shr_m r -> shr_m (iter_pos shr_1 p r) = shr_m r / 2 ^ Zpos p.
Proof.
  revert r. induction p as [p IH|p IH|]; intros r Hr; cbn [iter_pos].
  - assert (H1 : 0 <= shr_m (shr_1 r)) by (rewrite shr_1_m by lia; apply Z.div_pos; lia).
    assert (H2 : 0 <= shr_m (iter_pos shr_1 p (shr_1 r)))
      by (rewrite IH by lia; apply Z.div_pos; [lia | apply Z.pow_pos_nonneg; lia]).
    rewrite IH, IH, shr_1_m by lia.
    assert (0 < 2 ^ Zpos p) by (apply Z.pow_pos_nonneg; lia).
    rewrite !Z.div_div by lia. now rewrite pow2_xI.
  - assert (H2 : 0 <= shr_m (iter_pos shr_1 p r))
      by (rewrite IH by lia; apply Z.div_pos; [lia | apply Z.pow_pos_nonneg; lia]).
    rewrite IH, IH by lia.
    assert (0 < 2 ^ Zpos p) by (apply Z.pow_pos_nonneg; lia).
    rewrite !Z.div_div by lia. now rewrite pow2_xO.
  - now rewrite shr_1_m.
Qed.

Lemma shr_record_of_loc_m (m : Z) (l : location) : shr_m (shr_record_of_loc m l) = m.
Proof. destruct l as [|[| |]]; reflexivity. Qed.

(** What [shr_fexp] does to the mantissa and the exponent. *)
Lemma shr_fexp_spec (m e : Z) (l : location) :
  0 <= m ->
  let n := fexp prec emax (Zdigits2 m + e) - e in
  shr_m (fst (shr_fexp prec emax m e l)) = (if 0 <? n then m / 2 ^ n else m)
  /\ snd (shr_fexp prec emax m e l) = (if 0 <? n then e + n else e).
Proof.
  intros Hm n. unfold shr_fexp, shr. fold n.
  destruct n as [|p|p]; cbn [fst snd Z.ltb Z.compare].
  - now rewrite shr_record_of_loc_m.
  - rewrite iter_pos_shr by (rewrite shr_record_of_loc_m; lia).
    now rewrite shr_record_of_loc_m.
  - now rewrite shr_record_of_loc_m.
Qed.

Ltac case_ltb :=
  match goal with
  | |- context [0 <? ?n] => destruct (Z.ltb_spec 0 n)
  end.

Lemma round_nearest_even_bounds (m : Z) (l : location) :
  m <= round_nearest_even m l <= m + 1.
Proof. destruct l as [|[| |]]; cbn; try lia. destruct (Z.even m); lia. Qed.

Lemma fexp_eq (z : Z) : fexp prec emax z = Z.max (z - 53) (-1074).
Proof. reflexivity. Qed.

Lemma div_pow2_pos (m n : Z) :
  0 < m -> 0 <= n < Zdigits2 m -> 0 < m / 2 ^ n.
Proof.
  intros Hm Hn. destruct (Zdigits2_bounds m Hm) as (_ & Hlo & _).
  apply Z.div_str_pos. split; [apply Z.pow_pos_nonneg; lia|].
  eapply Z.le_trans; [|exact Hlo]. apply Z.pow_le_mono_r; lia.
Qed.

Lemma div_pow2_small (m n : Z) :
  0 <= m -> 0 <= n -> Zdigits2 m - 53 <= n -> m / 2 ^ n < 2 ^ 53.
Proof.
  intros Hm Hn Hd.
  apply Z.div_lt_upper_bound; [apply Z.pow_pos_nonneg; lia|].
  rewrite <- Z.pow_add_r by lia.
  destruct (Z.eq_dec m 0) as [->|Hnz]; [apply Z.pow_pos_nonneg; lia|].
  destruct (Zdigits2_bounds m ltac:(lia)) as (Hpos & _ & Hhi).
  eapply Z.lt_le_trans; [exact Hhi|]. apply Z.pow_le_mono_r; lia.
Qed.

Lemma binary_round_aux_stage (sx : bool) (m e : Z) (l : location) :
  binary_round_aux prec emax sx m e l
  = match fst (stage m e l) with
    | Z0 => S754_zero sx
    | Zpos p => if snd (stage m e l) <=? emax - prec
                then S754_finite sx p (snd (stage m e l)) else S754_infinity sx
    | Zneg _ => S754_nan
    end.
Proof.
  unfold binary_round_aux, stage.
  destruct (shr_fexp prec emax m e l) as [mrs' e'].
  destruct (shr_fexp prec emax _ e' loc_Exact) as [mrs'' e'']. reflexivity.
Qed.

Lemma stage_spec (m e : Z) (l : location) :
  0 <= m ->
  0 <= fst (stage m e l) < 2 ^ 53
  /\ (0 < m -> -1074 < Zdigits2 m + e -> 0 < fst (stage m e l)).
Proof.
  intros Hm. unfold stage.
  pose proof (shr_fexp_spec m e l Hm) as [Hs1 He1]. cbv zeta in Hs1, He1.
  destruct (shr_fexp prec emax m e l) as [mrs' e']. cbn [fst snd] in Hs1, He1.
  set (m1 := round_nearest_even (shr_m mrs') (loc_of_shr_record mrs')).
  pose proof (round_nearest_even_bounds (shr_m mrs') (loc_of_shr_record mrs')) as Hr.
  fold m1 in Hr.
  assert (Hm' : 0 <= shr_m mrs').
  { rewrite Hs1. case_ltb; [apply Z.div_pos; [lia | apply Z.pow_pos_nonneg; lia] | lia]. }
  assert (Hm1 : 0 <= m1) by lia.
  pose proof (shr_fexp_spec m1 e' loc_Exact Hm1) as [Hs2 He2]. cbv zeta in Hs2, He2.
  destruct (shr_fexp prec emax m1 e' loc_Exact) as [mrs'' e'']. cbn [fst snd] in *.
  rewrite fexp_eq in *.
  split; [split|].
  - rewrite Hs2. case_ltb; [apply Z.div_pos; [lia | apply Z.pow_pos_nonneg; lia] | lia].
  - rewrite Hs2. destruct (Z.ltb_spec 0 (Z.max (Zdigits2 m1 + e' - 53) (-1074) - e')).
    + apply div_pow2_small; lia.
    + destruct (Z.eq_dec m1 0) as [->|Hnz]; [reflexivity|].
      destruct (Zdigits2_bounds m1 ltac:(lia)) as (_ & _ & Hhi).
      eapply Z.lt_le_trans; [exact Hhi|]. apply Z.pow_le_mono_r; lia.
  - intros Hpos Hbig.
    destruct (Zdigits2_bounds m Hpos) as (Hd & _).
    assert (Hm'pos : 0 < shr_m mrs' /\ -1074 <= e').
    { rewrite Hs1, He1.
      destruct (Z.ltb_spec 0 (Z.max (Zdigits2 m + e - 53) (-1074) - e)).
      - split; [apply div_pow2_pos; lia | lia].
      - split; lia. }
    destruct Hm'pos as [Hm'pos He'].
    assert (Hm1pos : 0 < m1) by lia.
    destruct (Zdigits2_bounds m1 Hm1pos) as (Hd1 & _).
    rewrite Hs2.
    destruct (Z.ltb_spec 0 (Z.max (Zdigits2 m1 + e' - 53) (-1074) - e')).
    + apply div_pow2_pos; lia.
    + lia.
Qed.

(** [binary_round_aux] on a non-negative mantissa: a zero, an infinity or a
    finite value of the given sign, the finite value within the format. *)
Lemma binary_round_aux_cases (sx : bool) (m e : Z) (l : location) :
  0 <= m ->
  binary_round_aux prec emax sx m e l = S754_zero sx
  \/ binary_round_aux prec emax sx m e l = S754_infinity sx
  \/ exists m' e', binary_round_aux prec emax sx m e l = S754_finite sx m' e'
                   /\ Zpos (digits2_pos m') + e' <= 1024.
Proof.
  intros Hm. rewrite binary_round_aux_stage.
  destruct (stage_spec m e l Hm) as [[Hlo Hhi] _].
  destruct (fst (stage m e l)) as [|p|p]; [now left | | lia].
  destruct (Z.leb_spec (snd (stage m e l)) (emax - prec)); [|now right; left].
  right; right. exists p, (snd (stage m e l)). split; [reflexivity|].
  pose proof (digits2_pos_bounds p) as [Hd _].
  assert (Zpos (digits2_pos p) - 1 < 53).
  { apply (Z.pow_lt_mono_r_iff 2); lia. }
  unfold emax, prec in *. lia.
Qed.

Lemma binary_round_aux_nonzero (sx s : bool) (m e : Z) (l : location) :
  0 < m -> -1074 < Zdigits2 m + e ->
  binary_round_aux prec emax sx m e l <> S754_zero s.
Proof.
  intros Hm Hbig. rewrite binary_round_aux_stage.
  destruct (stage_spec m e l ltac:(lia)) as [_ Hpos]. specialize (Hpos Hm Hbig).
  destruct (fst (stage m e l)) as [|p|p]; try lia.
  destruct (_ <=? _); discriminate.
Qed.

Lemma div_core_nonneg (m1 m2 : positive) (e1 e2 : Z) :
  0 <= fst (fst (SFdiv_core_binary prec emax (Zpos m1) e1 (Zpos m2) e2)).
Proof.
  unfold SFdiv_core_binary.
  set (e' := Z.min _ _). set (s := e1 - e2 - e').
  set (m' := match s with Z.pos _ => Z.shiftl (Zpos m1) s | Z0 => Zpos m1 | Z.neg _ => 0 end).
  assert (Hm' : 0 <= m').
  { subst m'. destruct s; try lia. apply Z.shiftl_nonneg. lia. }
  pose proof (Z.div_pos m' (Zpos m2) Hm' ltac:(lia)) as Hq.
  unfold Z.div in Hq. destruct (Z.div_eucl m' (Zpos m2)) as [q r]. exact Hq.
Qed.

Lemma div_core_big (m1 m2 : positive) (e1 e2 : Z) :
  -1073 <= Zpos (digits2_pos m1) + e1 - (Zpos (digits2_pos m2) + e2) ->
  let '(q, e', _) := SFdiv_core_binary prec emax (Zpos m1) e1 (Zpos m2) e2 in
  0 < q /\ -1074 < Zdigits2 q + e'.
Proof.
  intros HD. unfold SFdiv_core_binary. cbn [Zdigits2]. rewrite fexp_eq.
  set (d1 := Zpos (digits2_pos m1)) in *. set (d2 := Zpos (digits2_pos m2)) in *.
  set (e' := Z.min _ _). set (s := e1 - e2 - e').
  assert (Hs : 0 <= s) by (subst s e'; lia).
  set (m' := match s with Z.pos _ => Z.shiftl (Zpos m1) s | Z0 => Zpos m1 | Z.neg _ => 0 end).
  assert (Hm' : m' = Zpos m1 * 2 ^ s).
  { subst m'. destruct s eqn:Es; try lia. now rewrite Z.shiftl_mul_pow2 by lia. }
  pose proof (digits2_pos_bounds m1) as [Hlo1 _]. fold d1 in Hlo1.
  pose proof (digits2_pos_bounds m2) as [_ Hhi2]. fold d2 in Hhi2.
  set (k := d1 - 1 + s - d2).
  assert (Hk : 0 <= k) by (subst k s e'; lia).
  assert (Hq : 2 ^ k <= m' / Zpos m2).
  { apply Z.div_le_lower_bound; [lia|].
    rewrite Hm'.
    assert (H2 : Zpos m2 * 2 ^ k <= 2 ^ d2 * 2 ^ k)
      by (apply Z.mul_le_mono_nonneg_r; [apply Z.pow_nonneg|]; lia).
    rewrite <- Z.pow_add_r in H2 by lia.
    replace (d2 + k) with (d1 - 1 + s) in H2 by (subst k; lia).
    rewrite Z.pow_add_r in H2 by lia.
    assert (H3 : 2 ^ (d1 - 1) * 2 ^ s <= Zpos m1 * 2 ^ s)
      by (apply Z.mul_le_mono_nonneg_r; [apply Z.pow_nonneg|]; lia).
    lia. }
  unfold Z.div in Hq. destruct (Z.div_eucl m' (Zpos m2)) as [q r]. cbv beta iota in Hq.
  assert (Hqpos : 0 < q) by (pose proof (Z.pow_pos_nonneg 2 k); lia).
  split; [exact Hqpos|].
  destruct (Zdigits2_bounds q Hqpos) as (Hdq & _ & Hhi).
  assert (k < Zdigits2 q) by (apply (Z.pow_lt_mono_r_iff 2); lia).
  subst k s. lia.
Qed.

(** The quotient of two positive finite numbers. *)
Lemma js_div_finite (m1 m2 : positive) (e1 e2 : Z) :
  nonneg_class (js_div (S754_finite false m1 e1) (S754_finite false m2 e2))
  /\ (-1073 <= Zpos (digits2_pos m1) + e1 - (Zpos (digits2_pos m2) + e2) ->
      js_div (S754_finite false m1 e1) (S754_finite false m2 e2) <> S754_zero false).
Proof.
  unfold js_div, SFdiv. cbn [xorb].
  pose proof (div_core_nonneg m1 m2 e1 e2) as Hq.
  pose proof (div_core_big m1 m2 e1 e2) as Hbig.
  destruct (SFdiv_core_binary prec emax (Zpos m1) e1 (Zpos m2) e2) as [[q e'] l].
  cbn [fst] in Hq. split.
  - apply binary_round_aux_cases, Hq.
  - intros HD. destruct (Hbig HD) as [H1 H2]. now apply binary_round_aux_nonzero.
Qed.

Lemma num_class (d : Z) : 0 <= d -> nonneg_class (num d).
Proof.
  intros Hd. unfold num, binary_normalize.
  destruct d as [|p|p]; [now left | | lia].
  unfold binary_round. destruct (shl_align _ _ _) as [mz ez].
  apply binary_round_aux_cases. lia.
Qed.

Lemma Math_round_class (x : number) :
  nonneg_class x ->
  Math_round x = PlusInfinity \/ exists n, Math_round x = Finite n /\ 0 <= n.
Proof.
  intros [->|[->|(m & e & -> & _)]]; [right; exists 0; now split | now left |].
  right. cbn [Math_round signed]. eexists. split; [reflexivity|].
  destruct (Z.leb_spec 0 e).
  - apply Z.mul_nonneg_nonneg; [lia | apply Z.pow_nonneg; lia].
  - apply Z.div_pos; [|apply Z.pow_pos_nonneg; lia].
    pose proof (Z.pow_pos_nonneg 2 (- e)). lia.
Qed.

Lemma Math_ceil_positive (x : number) :
  nonneg_class x -> x <> S754_zero false ->
  Math_ceil x = PlusInfinity \/ exists c, Math_ceil x = Finite c /\ 1 <= c.
Proof.
  intros [->|[->|(m & e & -> & _)]] Hnz; [congruence | now left |].
  right. cbn [Math_ceil signed]. eexists. split; [reflexivity|].
  destruct (Z.leb_spec 0 e).
  - pose proof (Z.pow_pos_nonneg 2 e). nia.
  - assert ((- Zpos m) / 2 ^ (- e) < 0); [|lia].
    apply Z.div_lt_upper_bound; [apply Z.pow_pos_nonneg; lia | lia].
Qed.

Lemma num_level (delta : Z) :
  1 <= delta <= 255 ->
  exists m e, num delta = S754_finite false m e /\ 1 <= Zpos (digits2_pos m) + e <= 8.
Proof.
  intros H.
  assert (Hall : forallb level_number_ok (map Z.of_nat (seq 1 255)) = true)
    by (vm_compute; reflexivity).
  rewrite forallb_forall in Hall.
  assert (Hin : In delta (map Z.of_nat (seq 1 255))).
  { apply in_map_iff. exists (Z.to_nat delta). split; [lia | apply in_seq; lia]. }
  specialize (Hall delta Hin). unfold level_number_ok in Hall.
  destruct (num delta) as [| | |[|] m e]; try discriminate.
  exists m, e. split; [reflexivity|].
  apply andb_prop in Hall as [H1 H2]. apply Z.leb_le in H1, H2. lia.
Qed.

Lemma js_div_class (x : number) (m : positive) (e : Z) :
  nonneg_class x -> nonneg_class (js_div x (S754_finite false m e)).
Proof.
  intros [->|[->|(mx & ex & -> & _)]].
  - now left.
  - right; now left.
  - apply js_div_finite.
Qed.

Import Protocol.

Lemma clamp_id (lo hi n : Z) :
  lo <= n <= hi -> Math_max (Finite lo) (Math_min (Finite hi) (Finite n)) = Finite n.
Proof.
  intros H. cbn [Math_min jsint_ltb].
  destruct (Z.ltb_spec n hi); cbn [Math_max jsint_ltb].
  - destruct (Z.ltb_spec lo n); [reflexivity | f_equal; lia].
  - destruct (Z.ltb_spec lo hi); f_equal; lia.
Qed.

Lemma Math_min_finite (a b : Z) : Math_min (Finite a) (Finite b) = Finite (Z.min a b).
Proof. cbn [Math_min jsint_ltb]. destruct (Z.ltb_spec b a); f_equal; lia. Qed.

Lemma Math_max_finite (a b : Z) : Math_max (Finite a) (Finite b) = Finite (Z.max a b).
Proof. cbn [Math_max jsint_ltb]. destruct (Z.ltb_spec a b); f_equal; lia. Qed.

Lemma plan_unfold (s t : Z) (ms : number) :
  Z.abs (t - s) <> 0 ->
  let D := num (Z.abs (t - s)) in
  let u := js_div ms (num 10) in
  let iv := Math_round (js_div u D) in
  calculateFadeParams (Finite s) (Finite t) ms
  = if jsint_ltb (Finite 255) iv then {| fp_interval := Finite 255; fp_step := Finite 1 |}
    else if jsint_ltb iv (Finite 1) then
      {| fp_interval := Finite 1;
         fp_step := Math_max (Finite 1)
                      (Math_min (Finite 127) (Math_min (Finite 127) (Math_ceil (js_div D u)))) |}
    else {| fp_interval := Math_max (Finite 1) (Math_min (Finite 255) iv);
            fp_step := Finite 1 |}.
Proof.
  intros Hne D u iv. unfold calculateFadeParams.
  cbn [jsint_sub jsint_abs jsint_eqb of_jsint].
  destruct (Z.eqb_spec (Z.abs (t - s)) 0) as [E|_]; [contradiction|].
  fold D u iv.
  destruct (jsint_ltb (Finite 255) iv); [reflexivity|].
  destruct (jsint_ltb iv (Finite 1)); reflexivity.
Qed.

(** C2. For all levels s, t in 0..255 and every duration d >= 0 (in ms; the
    divisions are those of IEEE doubles): calculateFadeParams(s, t, d)
    returns (interval 1, step 1) when |t - s| = 0; otherwise, with
    u = d / 10 and i = Math.round(u / |t - s|) (an integer >= 0 or
    +Infinity), it returns (i, 1) when i lies in 1..255, (255, 1) when i
    exceeds 255, and (1, min(127, ceil(|t - s| / u))) when i is below 1; the
    result always has 1 <= interval <= 255 and 1 <= step <= 127.  For s = 0,
    t = 255, d = 500 the result is (1, 6), and the FADE command for address
    100 to level 255 with these parameters is 00 64 23 FF 01 06. *)
Theorem fade_planner (s t d : Z) :
  0 <= s <= 255 -> 0 <= t <= 255 -> 0 <= d ->
  let p := calculateFadeParams (Finite s) (Finite t) (num d) in
  let delta := Z.abs (t - s) in
  let u := js_div (num d) (num 10) in
  let iv := Math_round (js_div u (num delta)) in
  (delta = 0 -> p = {| fp_interval := Finite 1; fp_step := Finite 1 |})
  /\ (delta <> 0 ->
      (iv = PlusInfinity \/ exists n, iv = Finite n /\ 0 <= n)
      /\ (forall n, iv = Finite n -> 1 <= n <= 255 ->
          p = {| fp_interval := Finite n; fp_step := Finite 1 |})
      /\ (iv = PlusInfinity \/ (exists n, iv = Finite n /\ 255 < n) ->
          p = {| fp_interval := Finite 255; fp_step := Finite 1 |})
      /\ (forall n, iv = Finite n -> n < 1 ->
          p = {| fp_interval := Finite 1;
                 fp_step := Math_min (Finite 127) (Math_ceil (js_div (num delta) u)) |}))
  /\ (exists i st, p = {| fp_interval := Finite i; fp_step := Finite st |}
                   /\ 1 <= i <= 255 /\ 1 <= st <= 127)
  /\ calculateFadeParams (Finite 0) (Finite 255) (num 500)
     = {| fp_interval := Finite 1; fp_step := Finite 6 |}
  /\ Commands.buildFadeCommand 100 (num 255) (of_jsint (Finite 1)) (of_jsint (Finite 6))
     = Ok (map Finite [0x00; 0x64; 0x23; 0xFF; 0x01; 0x06]).
Proof.
  intros Hs Ht Hd p delta u iv.
  assert (Hzero : delta = 0 -> p = {| fp_interval := Finite 1; fp_step := Finite 1 |}).
  { intros H0. subst p. unfold calculateFadeParams.
    cbn [jsint_sub jsint_abs jsint_eqb]. fold delta. now rewrite H0. }
  assert (Hcases : delta <> 0 ->
            (iv = PlusInfinity \/ exists n, iv = Finite n /\ 0 <= n)
            /\ (forall n, iv = Finite n -> 1 <= n <= 255 ->
                p = {| fp_interval := Finite n; fp_step := Finite 1 |})
            /\ (iv = PlusInfinity \/ (exists n, iv = Finite n /\ 255 < n) ->
                p = {| fp_interval := Finite 255; fp_step := Finite 1 |})
            /\ (forall n, iv = Finite n -> n < 1 ->
                exists k, Math_min (Finite 127) (Math_ceil (js_div (num delta) u)) = Finite k
                          /\ 1 <= k <= 127
                          /\ p = {| fp_interval := Finite 1; fp_step := Finite k |})).
  { intros Hne.
    pose proof (plan_unfold s t (num d) Hne) as Hp. cbv zeta in Hp.
    fold delta in Hp. fold u in Hp. fold iv in Hp. fold p in Hp.
    destruct (num_level delta ltac:(subst delta; lia)) as (mD & eD & HD & HDbig).
    assert (Hu : nonneg_class u).
    { subst u. change (num 10) with (S754_finite false 5629499534213120 (-49)).
      apply js_div_class, num_class, Hd. }
    assert (Hx : nonneg_class (js_div u (num delta))).
    { rewrite HD. now apply js_div_class. }
    pose proof (Math_round_class _ Hx) as Hiv. fold iv in Hiv.
    split; [exact Hiv|]. split; [|split].
    - intros n En Hn. rewrite Hp, En. cbn [jsint_ltb].
      destruct (Z.ltb_spec 255 n); [lia|]. destruct (Z.ltb_spec n 1); [lia|].
      now rewrite clamp_id.
    - intros [En|(n & En & Hn)]; rewrite Hp, En; cbn [jsint_ltb]; [reflexivity|].
      destruct (Z.ltb_spec 255 n); [reflexivity | lia].
    - intros n En Hn. rewrite Hp, En. cbn [jsint_ltb].
      destruct (Z.ltb_spec 255 n); [lia|]. destruct (Z.ltb_spec n 1); [|lia].
      assert (Hy : nonneg_class (js_div (num delta) u)
                   /\ js_div (num delta) u <> S754_zero false).
      { rewrite HD. destruct Hu as [Eu|[Eu|(mu & eu & Eu & Hubig)]].
        - rewrite Eu. split; [right; now left | discriminate].
        - exfalso. subst iv. rewrite Eu, HD in En. discriminate.
        - rewrite Eu. destruct (js_div_finite mD mu eD eu) as [Hc Hnz].
          split; [exact Hc | apply Hnz; lia]. }
      destruct Hy as [Hyc Hynz].
      destruct (Math_ceil_positive _ Hyc Hynz) as [Ec|(c & Ec & Hc)]; rewrite Ec.
      + exists 127. repeat split; try lia.
      + rewrite !Math_min_finite, Math_max_finite.
        exists (Z.min 127 c). repeat split; try lia. f_equal. f_equal. lia. }
  split; [exact Hzero|]. split; [|split; [|split; vm_compute; reflexivity]].
  - intros Hne. destruct (Hcases Hne) as (H1 & H2 & H3 & H4).
    repeat split; try assumption.
    intros n En Hn. destruct (H4 n En Hn) as (k & Ek & _ & Hp). now rewrite Ek.
  - destruct (Z.eq_dec delta 0) as [H0|Hne].
    + exists 1, 1. rewrite (Hzero H0). repeat split; lia.
    + destruct (Hcases Hne) as (H1 & H2 & H3 & H4).
      destruct H1 as [En|(n & En & Hn)].
      * exists 255, 1. rewrite H3 by now left. repeat split; lia.
      * destruct (Z.lt_ge_cases n 1).
        -- destruct (H4 n En ltac:(lia)) as (k & _ & Hk & Hp).
           exists 1, k. rewrite Hp. repeat split; lia.
        -- destruct (Z.le_gt_cases n 255).
           ++ exists n, 1. rewrite (H2 n En) by lia. repeat split; lia.
           ++ exists 255, 1. rewrite H3 by (right; exists n; split; [exact En | lia]).
              repeat split; lia.
Qed.

(** The quotients are those of doubles: 7 / 10 is a little below 0.7, so
    21 / (7 / 10) is a little above 30 and its ceiling is 31. *)
Lemma fade_planner_in_doubles :
  calculateFadeParams (Finite 0) (Finite 21) (num 7)
  = {| fp_interval := Finite 1; fp_step := Finite 31 |}.
Proof. vm_compute. reflexivity. Qed.

Lemma fade_planner_witness :
  0 <= 0 <= 255 /\ 0 <= 21 <= 255 /\ 0 <= 7
  /\ exists i st,
       calculateFadeParams (Finite 0) (Finite 21) (num 7)
       = {| fp_interval := Finite i; fp_step := Finite st |}
       /\ 1 <= i <= 255 /\ 1 <= st <= 127.
Proof.
  assert (H0 : 0 <= 0 <= 255) by lia.
  assert (H1 : 0 <= 21 <= 255) by lia.
  assert (H2 : 0 <= 7) by lia.
  repeat (split; [assumption|]).
  apply (fade_planner 0 21 7 H0 H1 H2).
Defined.

End FloatFacts.

(** ** Framing and checksums *)

Module CodecFacts.
Import JsNum Slip Commands Protocol ProtocolMore.

Lemma stuffed_no_delimiter (b : Z) : Forall (fun x => x <> 0xC0) (stuffed b).
Proof.
  unfold stuffed. destruct (Z.eqb_spec b 0xC0); [|destruct (Z.eqb_spec b 0xDB)];
    repeat constructor; lia.
Qed.

Lemma stuffed_length (b : Z) : (1 <= List.length (stuffed b) <= 2)%nat.
Proof.
  unfold stuffed. destruct (b =? 0xC0); [|destruct (b =? 0xDB)]; cbn; lia.
Qed.

(** X1. A frame produced by [encode] from a list of bytes is one 0xC0,
    a body, and one 0xC0; the body holds no 0xC0 at all, and is at least as
    long as the payload and at most twice as long.  A receiver can therefore
    cut a byte stream into frames at the delimiters. *)
Theorem encode_delimits_payload (P : list Z) :
  Forall is_byte P ->
  exists body,
    encode (bytes P) = 0xC0 :: body ++ [0xC0]
    /\ Forall (fun x => x <> 0xC0) body
    /\ (List.length P <= List.length body <= 2 * List.length P)%nat.
Proof.
  intros H. exists (flat_map stuffed P). split; [|split].
  - now rewrite (SlipFacts.encode_shape P H).
  - apply Forall_flat_map, Forall_forall. intros b _. apply stuffed_no_delimiter.
  - clear H. induction P as [|b P IH]; cbn [flat_map List.length]; [lia|].
    rewrite length_app. pose proof (stuffed_length b). lia.
Qed.

Lemma encode_delimits_payload_witness :
  Forall is_byte [0xC0; 0x01; 0xDB]
  /\ exists body,
       encode (bytes [0xC0; 0x01; 0xDB]) = 0xC0 :: body ++ [0xC0]
       /\ Forall (fun x => x <> 0xC0) body
       /\ (3 <= List.length body <= 6)%nat.
Proof.
  assert (H : Forall is_byte [0xC0; 0x01; 0xDB])
    by (repeat constructor; unfold is_byte; lia).
  split; [exact H | exact (encode_delimits_payload _ H)].
Defined.

Lemma decode_frame (P rest acc : list Z) :
  Forall is_byte P ->
  fold_left decode_step (encode (bytes P) ++ rest) (acc, false)
  = fold_left decode_step rest (acc ++ P, false).
Proof.
  intros H. rewrite (SlipFacts.encode_shape P H).
  rewrite <- !app_assoc. cbn [app fold_left decode_step].
  change (192 =? SLIP_END) with true. cbv iota.
  rewrite fold_left_app, (SlipFacts.decode_loop P acc H).
  reflexivity.
Qed.

(** X2. [decode] applied to the frames of several payloads sent back to
    back returns the payloads joined together: the delimiters are dropped
    and every escape is undone, and no boundary between the payloads is
    kept. *)
Theorem decode_joins_frames (Ps : list (list Z)) :
  Forall (Forall is_byte) Ps ->
  decode (List.concat (map (fun P => encode (bytes P)) Ps)) = List.concat Ps.
Proof.
  intros H. unfold decode.
  assert (G : forall acc,
             fold_left decode_step (List.concat (map (fun P => encode (bytes P)) Ps)) (acc, false)
             = (acc ++ List.concat Ps, false)).
  { induction H as [|P Ps HP _ IH]; intros acc; cbn [map List.concat fold_left].
    - now rewrite app_nil_r.
    - rewrite decode_frame by exact HP. rewrite IH, <- app_assoc. reflexivity. }
  now rewrite G.
Qed.

Lemma decode_joins_frames_witness :
  Forall (Forall is_byte) [[0x01; 0xC0]; []; [0xDB]]
  /\ decode (encode (bytes [0x01; 0xC0]) ++ encode (bytes []) ++ encode (bytes [0xDB]) ++ [])
     = [0x01; 0xC0; 0xDB].
Proof.
  assert (H : Forall (Forall is_byte) [[0x01; 0xC0]; []; [0xDB]])
    by (repeat constructor; unfold is_byte; lia).
  split; [exact H | exact (decode_joins_frames _ H)].
Defined.

Lemma decode_step_bounds (st : list Z * bool) (b : Z) :
  is_byte b -> Forall is_byte (fst st) ->
  Forall is_byte (fst (decode_step st b))
  /\ (List.length (fst (decode_step st b)) <= S (List.length (fst st)))%nat.
Proof.
  intros Hb Hst. destruct st as [decoded escaping]. cbn [fst] in *.
  assert (Hpush : forall x, is_byte x -> Forall is_byte (decoded ++ [x]))
    by (intros x Hx; apply Forall_app; split; [assumption | now constructor]).
  unfold decode_step, SLIP_END, SLIP_ESC, SLIP_ESC_END, SLIP_ESC_ESC.
  destruct escaping.
  - destruct (b =? 220); [|destruct (b =? 221)]; cbn [fst];
      rewrite length_app; cbn [List.length];
      (split; [apply Hpush; unfold is_byte in *; lia | lia]).
  - destruct (b =? 192); [|destruct (b =? 219)]; cbn [fst];
      rewrite ?length_app; cbn [List.length]; (split; [auto | lia]).
Qed.

(** X3. On any buffer of bytes, well formed or not, [decode] returns
    bytes, and never more of them than the buffer holds. *)
Theorem decode_bytes_no_longer (buffer : list Z) :
  Forall is_byte buffer ->
  Forall is_byte (decode buffer)
  /\ (List.length (decode buffer) <= List.length buffer)%nat.
Proof.
  intros H. unfold decode.
  assert (G : forall st, Forall is_byte (fst st) ->
             Forall is_byte (fst (fold_left decode_step buffer st))
             /\ (List.length (fst (fold_left decode_step buffer st))
                 <= List.length buffer + List.length (fst st))%nat).
  { induction H as [|b buffer Hb _ IH]; intros st Hst; cbn [fold_left List.length].
    - split; [exact Hst | lia].
    - destruct (decode_step_bounds st b Hb Hst) as [H1 H2].
      destruct (IH _ H1) as [H3 H4]. split; [exact H3 | lia]. }
  destruct (G ([], false) (Forall_nil _)) as [G1 G2]. cbn in G2. split; [exact G1 | lia].
Qed.

Lemma decode_bytes_no_longer_witness :
  Forall is_byte [0xDB; 0x07; 0xC0; 0xDB]
  /\ Forall is_byte (decode [0xDB; 0x07; 0xC0; 0xDB])
  /\ (List.length (decode [0xDB; 0x07; 0xC0; 0xDB]%Z) <= 4)%nat.
Proof.
  assert (H : Forall is_byte [0xDB; 0x07; 0xC0; 0xDB])
    by (repeat constructor; unfold is_byte; lia).
  split; [exact H | exact (decode_bytes_no_longer _ H)].
Defined.

Lemma ToUint8_byte (v : jsint) : is_byte (ToUint8 v).
Proof.
  unfold is_byte. destruct v as [z| | |]; cbn [ToUint8]; try lia.
  change (Z.land z 255) with (Z.land z (Z.ones 8)). rewrite Z.land_ones by lia.
  pose proof (Z.mod_pos_bound z (2 ^ 8) ltac:(lia)). lia.
Qed.

(** X4. Whatever the command array holds -- fields out of range,
    infinities or NaN included -- [buildPacket] returns a buffer of bytes
    that starts and ends with 0xC0 and is at least three bytes longer than
    the command. *)
Theorem packets_are_bytes (commandBytes : list jsint) :
  Forall is_byte (buildPacket commandBytes)
  /\ hd_error (buildPacket commandBytes) = Some 0xC0
  /\ last (buildPacket commandBytes) 0 = 0xC0
  /\ (List.length commandBytes + 3 <= List.length (buildPacket commandBytes))%nat.
Proof.
  unfold buildPacket, encode, Buffer_from.
  set (data := commandBytes ++ [Finite (calculateChecksum commandBytes)]).
  assert (Hshape : forall d acc,
             exists tail, fold_left encode_step d (Finite SLIP_END :: acc)
                          = Finite SLIP_END :: tail
                          /\ (List.length acc + List.length d <= List.length tail)%nat).
  { induction d as [|x d IH]; intros acc; cbn [fold_left].
    - exists acc. split; [reflexivity | cbn; lia].
    - unfold encode_step at 2.
      destruct (jsint_eqb x (Finite SLIP_END)); [|destruct (jsint_eqb x (Finite SLIP_ESC))];
        cbn [app]; match goal with
                   | |- context [fold_left encode_step d (_ :: ?a)] =>
                       destruct (IH a) as (tail & -> & Hlen)
                   end; exists tail; (split; [reflexivity|]);
        rewrite length_app in Hlen; cbn [List.length] in *; lia. }
  destruct (Hshape data []) as (tail & -> & Hlen).
  assert (Hd : List.length data = S (List.length commandBytes))
    by (subst data; rewrite length_app; cbn; lia).
  repeat split.
  - apply Forall_map, Forall_forall. intros v _. apply ToUint8_byte.
  - rewrite map_app. cbn [map app]. rewrite app_comm_cons. apply last_last.
  - rewrite length_map, length_app. cbn [List.length] in *. lia.
Qed.

Lemma ToInt32_byte (b : Z) : is_byte b -> ToInt32 (Finite b) = b.
Proof.
  unfold is_byte, ToInt32. intros H. rewrite Z.mod_small; lia.
Qed.

Lemma land_255_byte (x : Z) : is_byte (Z.land x 0xFF).
Proof. exact (ToUint8_byte (Finite x)). Qed.

Lemma lxor_byte (a b : Z) : is_byte a -> is_byte b -> is_byte (Z.lxor a b).
Proof.
  intros Ha Hb.
  assert (E : Z.land (Z.lxor a b) 0xFF = Z.lxor a b).
  { apply Z.bits_inj'. intros n _.
    rewrite <- (SlipFacts.land_byte a Ha), <- (SlipFacts.land_byte b Hb).
    rewrite !Z.land_spec, !Z.lxor_spec, !Z.land_spec.
    destruct (Z.testbit a n), (Z.testbit b n), (Z.testbit 255 n); reflexivity. }
  rewrite <- E. apply land_255_byte.
Qed.

(** The XOR the checksum loop accumulates over a byte list. *)
Lemma checksum_fold (F : list Z) (c : Z) :
  Forall is_byte F -> is_byte c ->
  is_byte (fold_left (fun checksum byte => Z.lxor checksum (ToInt32 byte)) (bytes F) c)
  /\ fold_left (fun checksum byte => Z.lxor checksum (ToInt32 byte)) (bytes F) c
     = Z.lxor c (fold_left (fun checksum byte => Z.lxor checksum (ToInt32 byte)) (bytes F) 0).
Proof.
  intros H. revert c. induction H as [|b F Hb _ IH]; intros c Hc; cbn [bytes map fold_left].
  - split; [exact Hc | now rewrite Z.lxor_0_r].
  - rewrite ToInt32_byte by exact Hb. fold (bytes F).
    destruct (IH (Z.lxor c b) (lxor_byte _ _ Hc Hb)) as [H1 H2].
    destruct (IH (Z.lxor 0 b) (lxor_byte 0 b ltac:(unfold is_byte; lia) Hb)) as [_ H3].
    split; [exact H1|]. rewrite H2, H3. rewrite Z.lxor_0_l. now rewrite Z.lxor_assoc.
Qed.

Lemma checksum_is_byte (F : list Z) :
  Forall is_byte F -> is_byte (calculateChecksum (bytes F)).
Proof. intros _. apply land_255_byte. Qed.

Lemma checksum_unfold (F : list Z) :
  Forall is_byte F ->
  calculateChecksum (bytes F)
  = fold_left (fun checksum byte => Z.lxor checksum (ToInt32 byte)) (bytes F) 0.
Proof.
  intros H. unfold calculateChecksum. apply SlipFacts.land_byte.
  apply checksum_fold; [exact H | unfold is_byte; lia].
Qed.

Lemma checksum_app (F : list Z) (c : Z) :
  Forall is_byte F -> is_byte c ->
  calculateChecksum (bytes (F ++ [c])) = Z.lxor (calculateChecksum (bytes F)) c.
Proof.
  intros H Hc.
  rewrite (checksum_unfold (F ++ [c])) by (apply Forall_app; split; [assumption | now constructor]).
  unfold bytes. rewrite map_app, fold_left_app. cbn [map fold_left].
  rewrite ToInt32_byte by exact Hc. fold (bytes F). now rewrite <- checksum_unfold.
Qed.

(** X6. The checksum of a list of bytes is a byte; appending it makes the
    checksum of the whole 0, and it is the only byte that does. *)
Theorem checksum_cancels (F : list Z) :
  Forall is_byte F ->
  is_byte (calculateChecksum (bytes F))
  /\ calculateChecksum (bytes (F ++ [calculateChecksum (bytes F)])) = 0
  /\ (forall c, is_byte c ->
        calculateChecksum (bytes (F ++ [c])) = 0 <-> c = calculateChecksum (bytes F)).
Proof.
  intros H. pose proof (checksum_is_byte F H) as Hc.
  split; [exact Hc|]. split.
  - rewrite checksum_app by assumption. apply Z.lxor_nilpotent.
  - intros c Hcb. rewrite checksum_app by assumption. rewrite Z.lxor_eq_0_iff.
    split; intros E; now rewrite E.
Qed.

Lemma checksum_cancels_witness :
  Forall is_byte [0x00; 0x64; 0x2C; 0xFF; 0x80; 0x40]
  /\ calculateChecksum (bytes ([0x00; 0x64; 0x2C; 0xFF; 0x80; 0x40] ++ [0x77])) = 0.
Proof.
  assert (H : Forall is_byte [0x00; 0x64; 0x2C; 0xFF; 0x80; 0x40])
    by (repeat constructor; unfold is_byte; lia).
  split; [exact H|].
  exact (proj1 (proj2 (checksum_cancels _ H))).
Defined.

End CodecFacts.

(** ** Packets and their parser *)

Module ProtocolFacts.
Import JsNum Slip Commands Protocol ProtocolMore.

Lemma bytesToAddress_bytes (hi lo : Z) :
  is_byte lo -> bytesToAddress hi lo = hi * 256 + lo.
Proof.
  intros Hlo. unfold bytesToAddress. apply SimulatorFacts.lor_shift_add.
  unfold is_byte in Hlo. lia.
Qed.

Lemma addressToBytes_bytesToAddress (hi lo : Z) :
  is_byte hi -> is_byte lo ->
  addressToBytes (bytesToAddress hi lo) = Ok [Finite hi; Finite lo].
Proof.
  intros Hhi Hlo. rewrite bytesToAddress_bytes by exact Hlo.
  unfold is_byte in *. rewrite CommandFacts.addressToBytes_ok by lia.
  rewrite Z.div_add_l by lia. rewrite (Z.div_small lo) by lia.
  rewrite (Z.add_comm (hi * 256) lo), Z.mod_add by lia. rewrite Z.mod_small by lia.
  now rewrite Z.add_0_r.
Qed.

(** X5. An address within 0..65535 is split by [addressToBytes] into two
    bytes from which [bytesToAddress] gives the address back. *)
Theorem address_round_trip (address : Z) :
  0 <= address <= 65535 ->
  exists hi lo,
    addressToBytes address = Ok [Finite hi; Finite lo]
    /\ is_byte hi /\ is_byte lo
    /\ bytesToAddress hi lo = address.
Proof.
  intros H. exists (address / 256), (address mod 256).
  assert (Hhi : is_byte (address / 256)).
  { unfold is_byte. split; [apply Z.div_pos; lia|].
    apply Z.lt_succ_r. apply Z.div_lt_upper_bound; lia. }
  assert (Hlo : is_byte (address mod 256)).
  { unfold is_byte. pose proof (Z.mod_pos_bound address 256 ltac:(lia)). lia. }
  assert (E : bytesToAddress (address / 256) (address mod 256) = address).
  { rewrite bytesToAddress_bytes by exact Hlo.
    rewrite (Z.div_mod address 256) at 3 by lia. lia. }
  repeat split; try apply Hhi; try apply Hlo.
  - now apply CommandFacts.addressToBytes_ok.
  - exact E.
Qed.

Lemma address_round_trip_witness :
  0 <= 0x1234 <= 65535
  /\ exists hi lo,
       addressToBytes 0x1234 = Ok [Finite hi; Finite lo]
       /\ is_byte hi /\ is_byte lo
       /\ bytesToAddress hi lo = 0x1234.
Proof.
  assert (H : 0 <= 0x1234 <= 65535) by lia.
  split; [exact H | exact (address_round_trip _ H)].
Defined.



(** What [parsePacket] makes of the SLIP encoding of a frame followed by
    one more byte. *)
Lemma parsePacket_frame (hi lo cmd : Z) (data : list Z) (c : Z) :
  Forall is_byte (hi :: lo :: cmd :: data) -> is_byte c ->
  parsePacket (encode (bytes ((hi :: lo :: cmd :: data) ++ [c])))
  = if c =? calculateChecksum (bytes (hi :: lo :: cmd :: data))
    then Some (hi * 256 + lo, cmd, data) else None.
Proof.
  intros HF Hc. unfold parsePacket.
  rewrite SlipFacts.decode_encode by (apply Forall_app; split; [exact HF | now constructor]).
  rewrite last_last, removelast_last.
  replace (Z.of_nat (List.length ((hi :: lo :: cmd :: data) ++ [c])) <? 4) with false.
  2:{ symmetry. apply Z.ltb_ge. rewrite length_app. cbn [List.length]. lia. }
  fold (bytes (hi :: lo :: cmd :: data)).
  destruct (c =? calculateChecksum (bytes (hi :: lo :: cmd :: data))); cbn [negb]; [|reflexivity].
  rewrite bytesToAddress_bytes; [reflexivity|].
  now inversion HF as [|? ? _ HF']; inversion HF'.
Qed.

Lemma buildPacket_bytes (F : list Z) :
  buildPacket (bytes F) = encode (bytes (F ++ [calculateChecksum (bytes F)])).
Proof. unfold buildPacket, bytes. now rewrite map_app. Qed.

(** X7. [parsePacket] reads back what [buildPacket] framed: for a command
    of bytes hi, lo, opcode and payload it returns the address hi * 256 + lo,
    the opcode and the payload, whatever escaping the frame needed. *)
Theorem parsePacket_buildPacket (hi lo cmd : Z) (data : list Z) :
  Forall is_byte (hi :: lo :: cmd :: data) ->
  parsePacket (buildPacket (bytes (hi :: lo :: cmd :: data)))
  = Some (bytesToAddress hi lo, cmd, data)
  /\ bytesToAddress hi lo = hi * 256 + lo.
Proof.
  intros HF.
  assert (Hlo : is_byte lo) by (now inversion HF as [|? ? _ HF']; inversion HF').
  rewrite bytesToAddress_bytes by exact Hlo. split; [|reflexivity].
  rewrite buildPacket_bytes.
  rewrite parsePacket_frame by (try exact HF; now apply CodecFacts.checksum_is_byte).
  now rewrite Z.eqb_refl.
Qed.

Lemma parsePacket_buildPacket_witness :
  Forall is_byte [0x00; 0xC0; 0x23; 0xDB; 0x05; 0x01]
  /\ parsePacket (buildPacket (bytes [0x00; 0xC0; 0x23; 0xDB; 0x05; 0x01]))
     = Some (bytesToAddress 0x00 0xC0, 0x23, [0xDB; 0x05; 0x01])
  /\ bytesToAddress 0x00 0xC0 = 0x00 * 256 + 0xC0.
Proof.
  assert (H : Forall is_byte [0x00; 0xC0; 0x23; 0xDB; 0x05; 0x01])
    by (repeat constructor; unfold is_byte; lia).
  split; [exact H | exact (parsePacket_buildPacket _ _ _ _ H)].
Defined.






Ltac byte_list := repeat first [assumption | apply Forall_cons | apply Forall_nil].

Lemma abs_sub_sym (a b : jsint) :
  jsint_abs (jsint_sub a b) = jsint_abs (jsint_sub b a).
Proof.
  destruct a as [x| | |], b as [y| | |]; cbn [jsint_sub jsint_abs]; try reflexivity.
  f_equal. lia.
Qed.

(** X9. The fade plan depends on the two levels only through their
    distance: fading from a to b is planned with the same interval and step
    as fading from b to a, for all levels, infinities and NaN included. *)
Theorem calculateFadeParams_symmetric (a b : jsint) (fadeTimeMs : number) :
  calculateFadeParams a b fadeTimeMs = calculateFadeParams b a fadeTimeMs.
Proof.
  unfold calculateFadeParams. now rewrite (abs_sub_sym b a).
Qed.

(** The packet of a command on a valid address with byte fields parses
    back to the address, the opcode and the fields. *)
Lemma parse_command (address cmd : Z) (data : list Z) :
  0 <= address <= 65535 -> is_byte cmd -> Forall is_byte data ->
  parsePacket
    (buildPacket (Finite (address / 256) :: Finite (address mod 256) :: Finite cmd :: bytes data))
  = Some (address, cmd, data).
Proof.
  intros Ha Hc Hd.
  change (Finite (address / 256) :: Finite (address mod 256) :: Finite cmd :: bytes data)
    with (bytes (address / 256 :: address mod 256 :: cmd :: data)).
  assert (Hhi : is_byte (address / 256)).
  { unfold is_byte. split; [apply Z.div_pos; lia|].
    apply Z.lt_succ_r. apply Z.div_lt_upper_bound; lia. }
  assert (Hlo : is_byte (address mod 256)).
  { unfold is_byte. pose proof (Z.mod_pos_bound address 256 ltac:(lia)). lia. }
  assert (HF : Forall is_byte (address / 256 :: address mod 256 :: cmd :: data))
    by byte_list.
  rewrite buildPacket_bytes.
  rewrite parsePacket_frame by (try exact HF; now apply CodecFacts.checksum_is_byte).
  rewrite Z.eqb_refl. do 2 f_equal. f_equal.
  rewrite (Z.div_mod address 256) at 3 by lia. lia.
Qed.

Lemma within_byte (lo hi : Z) (v : jsint) :
  0 <= lo -> hi <= 255 -> within lo hi v -> exists z, v = Finite z /\ lo <= z <= hi /\ is_byte z.
Proof.
  intros Hlo Hhi (z & -> & Hz). exists z. unfold is_byte. repeat split; lia.
Qed.



(** X11. [packetBroadcast] either returns a packet that parses to the
    broadcast address 0xFFFF with the opcode of the requested command ('on',
    'off', or 'level' with one level byte, 255 when no level is given), or
    throws 'Unknown broadcast command type: ...' for every other command
    type. *)
Theorem packetBroadcast_addresses_all (commandType : string) (level : option number) :
  (forall l, level = Some l -> not_nan l) ->
  match packetBroadcast commandType level with
  | Ok packet =>
      exists command data,
        parsePacket packet = Some (BROADCAST_ADDRESS, command, data)
        /\ ((commandType = "on"%string /\ command = ON /\ data = [])
            \/ (commandType = "off"%string /\ command = OFF /\ data = [])
            \/ (commandType = "level"%string /\ command = LEVEL
                /\ exists v, data = [v] /\ 0 <= v <= 255
                             /\ (level = None -> v = 255)))
  | Throw message =>
      message = ("Unknown broadcast command type: " ++ commandType)%string
      /\ commandType <> "on"%string /\ commandType <> "off"%string
      /\ commandType <> "level"%string
  end.
Proof.
  intros Hlevel. unfold packetBroadcast.
  assert (Hb : 0 <= BROADCAST_ADDRESS <= 65535) by (unfold BROADCAST_ADDRESS; lia).
  destruct (String.eqb_spec commandType "on") as [->|Hon].
  { unfold packetOn, buildOnCommand.
    rewrite (CommandFacts.addressToBytes_ok _ Hb). cbn [bind app].
    exists ON, []. split; [|left; now repeat split].
    apply (parse_command BROADCAST_ADDRESS ON []);
      [exact Hb | unfold is_byte, ON; lia | constructor]. }
  destruct (String.eqb_spec commandType "off") as [->|Hoff].
  { unfold packetOff, buildOffCommand.
    rewrite (CommandFacts.addressToBytes_ok _ Hb). cbn [bind app].
    exists OFF, []. split; [|right; left; now repeat split].
    apply (parse_command BROADCAST_ADDRESS OFF []);
      [exact Hb | unfold is_byte, OFF; lia | constructor]. }
  destruct (String.eqb_spec commandType "level") as [->|Hlev].
  { set (lv := match level with Some l => l | None => num 255 end).
    assert (Hlv : not_nan lv).
    { subst lv. destruct level as [l|]; [now apply Hlevel | unfold not_nan; discriminate]. }
    destruct (within_byte 0 255 _ ltac:(lia) ltac:(lia)
                (CommandFacts.clamp_within lv 0 255 Hlv ltac:(lia))) as (v & Ev & Hv & Bv).
    unfold packetLevel, buildLevelCommand.
    rewrite (CommandFacts.addressToBytes_ok _ Hb), Ev. cbn [bind app].
    exists LEVEL, [v]. split.
    - apply (parse_command BROADCAST_ADDRESS LEVEL [v]);
        [exact Hb | unfold is_byte, LEVEL; lia | byte_list].
    - right; right. repeat split. exists v. repeat split; try lia.
      intros ->. subst lv. vm_compute in Ev. now inversion Ev. }
  now repeat split.
Qed.

Lemma packetBroadcast_addresses_all_witness :
  packetBroadcast "dim" (Some (num 10)) = Throw "Unknown broadcast command type: dim".
Proof.
  pose proof (packetBroadcast_addresses_all "dim" (Some (num 10))) as H.
  destruct (packetBroadcast "dim" (Some (num 10))) as [p|m] eqn:E; [discriminate E|].
  destruct H as [-> _]; [intros l [= <-]; unfold not_nan; discriminate | reflexivity].
Defined.

(** X12. The pseudo-address commands: with both addresses in range the
    set command is the physical address, 0x25 and the pseudo address, five
    bytes; an invalid physical address is reported first, an invalid pseudo
    address otherwise; the erase command is the address and 0x26, and its
    packet parses back to them. *)
Theorem pseudo_address_commands (physicalAddress pseudoAddress : Z) :
  let valid a := 0 <= a <= 65535 in
  let invalid a := Throw ("Invalid address: " ++ show a ++ ". Must be 0-65535.")%string in
  (valid physicalAddress -> valid pseudoAddress ->
   buildPseudoAddressSetCommand physicalAddress pseudoAddress
   = Ok (bytes [physicalAddress / 256; physicalAddress mod 256; PADDSET;
                pseudoAddress / 256; pseudoAddress mod 256]))
  /\ (~ valid physicalAddress ->
      buildPseudoAddressSetCommand physicalAddress pseudoAddress = invalid physicalAddress)
  /\ (valid physicalAddress -> ~ valid pseudoAddress ->
      buildPseudoAddressSetCommand physicalAddress pseudoAddress = invalid pseudoAddress)
  /\ (valid physicalAddress ->
      parsePacket (buildPacket (bytes [physicalAddress / 256; physicalAddress mod 256; PADDERASE]))
      = Some (physicalAddress, PADDERASE, [])
      /\ buildPseudoAddressEraseCommand physicalAddress
         = Ok (bytes [physicalAddress / 256; physicalAddress mod 256; PADDERASE]))
  /\ (~ valid physicalAddress ->
      buildPseudoAddressEraseCommand physicalAddress = invalid physicalAddress).
Proof.
  intros valid invalid. subst valid invalid. cbv beta.
  unfold buildPseudoAddressSetCommand, buildPseudoAddressEraseCommand.
  repeat split.
  - intros H1 H2. now rewrite !CommandFacts.addressToBytes_ok by assumption.
  - intros H1. now rewrite (CommandFacts.addressToBytes_throws _ H1).
  - intros H1 H2. rewrite (CommandFacts.addressToBytes_ok _ H1).
    now rewrite (CommandFacts.addressToBytes_throws _ H2).
  - apply (parse_command physicalAddress PADDERASE []);
      [assumption | unfold is_byte, PADDERASE; lia | constructor].
  - now rewrite CommandFacts.addressToBytes_ok by assumption.
  - intros H1. now rewrite (CommandFacts.addressToBytes_throws _ H1).
Qed.

Lemma pseudo_address_commands_witness :
  buildPseudoAddressSetCommand 0x0102 70000
  = Throw "Invalid address: 70000. Must be 0-65535.".
Proof.
  refine (proj1 (proj2 (proj2 (pseudo_address_commands 0x0102 70000))) _ _); lia.
Defined.

End ProtocolFacts.

(** ** The table of the simulator *)

Module TableFacts.
Import Simulator SimulatorQueries.

Lemma key_eqb_eq (x y : option Z) : key_eqb x y = true <-> x = y.
Proof.
  destruct x as [a|], y as [b|]; cbn [key_eqb]; try (split; [discriminate | discriminate]);
    try (split; reflexivity).
  rewrite Z.eqb_eq. split; [now intros -> | now intros [= ->]].
Qed.

Lemma key_eqb_neq (x y : option Z) : key_eqb x y = false <-> x <> y.
Proof.
  rewrite <- key_eqb_eq. destruct (key_eqb x y); split; congruence.
Qed.

Lemma lights_set_fixtures (k : option Z) (l l' : Light) (m : Lights) :
  lights_get k m = Some l -> identity l' = identity l ->
  fixtures (lights_set k l' m) = fixtures m.
Proof.
  intros Hg Hid. induction m as [|[k' l0] m IH]; cbn [lights_get lights_set] in *; [discriminate|].
  destruct (key_eqb k k') eqn:E.
  - apply key_eqb_eq in E. subst k'. injection Hg as ->.
    cbn [fixtures map fst snd]. now rewrite Hid.
  - cbn [fixtures map fst snd]. f_equal. apply IH, Hg.
Qed.

Lemma executeCommand_fixtures (depth : nat) (now : string) (address : option Z)
  (command : Z) (data : list Z) (m : Lights) :
  fixtures (snd (executeCommand depth now address command data m)) = fixtures m.
Proof.
  revert address m. induction depth as [|depth IH]; intros address m; [reflexivity|].
  rewrite SimulatorFacts.executeCommand_S.
  destruct (key_eqb address (Some 65535)).
  - match goal with
    | |- context [fold_left ?f ?l ?a] =>
        assert (Hloop : forall entries acc,
                   fixtures (snd (fold_left f entries acc)) = fixtures (snd acc))
    end.
    { induction entries as [|entry entries IHe]; intros [res m0]; cbn [fold_left]; [reflexivity|].
      rewrite IHe. destruct res as [results|e]; [|reflexivity].
      specialize (IH (fst entry) m0).
      destruct (executeCommand depth now (fst entry) command data m0) as [[[| |]|] m1];
        exact IH. }
    specialize (Hloop m (Ok O, m)).
    destruct (fold_left _ m (Ok O, m)) as [[results|e] m']; exact Hloop.
  - destruct (lights_get address m) as [light|] eqn:Hg; [|reflexivity].
    destruct (apply_command command data (state light)) as [st change].
    cbn [snd]. now apply (lights_set_fixtures address light).
Qed.

Lemma apply_op_fixtures (o : Op) (s : Sim) :
  is_command o -> fixtures (lights (apply_op o s)) = fixtures (lights s).
Proof.
  destruct o; cbn [is_command apply_op]; intros H; try contradiction.
  - reflexivity.
  - unfold processPacket. destruct (negb (enabled s)); [reflexivity|].
    destruct (frame_of_packet packet) as [[[a c] d]|]; [|reflexivity].
    pose proof (executeCommand_fixtures depth now (Some a) c d (lights s)) as E.
    destruct (executeCommand depth now (Some a) c d (lights s)) as [[o|e] m]; exact E.
  - apply executeCommand_fixtures.
  - unfold resetAll, fixtures. cbn [lights]. rewrite map_map. reflexivity.
Qed.

(** X13. No command, packet, reset or enable switch adds, removes,
    reorders or renames a fixture of the simulator: after any sequence of
    operations other than loading the database the table has the same keys
    with the same id, type, name, address and floor, also when a command
    ends in an error. *)
Theorem commands_keep_fixtures (ops : list Op) (s : Sim) :
  Forall is_command ops ->
  fixtures (lights (run ops s)) = fixtures (lights s)
  /\ List.length (getAllStates (run ops s)) = List.length (getAllStates s).
Proof.
  intros H.
  assert (E : fixtures (lights (run ops s)) = fixtures (lights s)).
  { unfold run. revert s. induction H as [|o ops Ho _ IH]; intros s; cbn [fold_left]; [reflexivity|].
    rewrite IH. now apply apply_op_fixtures. }
  split; [exact E|].
  unfold getAllStates. rewrite !length_map.
  apply (f_equal (@List.length _)) in E. unfold fixtures in E. now rewrite !length_map in E.
Qed.

Lemma commands_keep_fixtures_witness :
  Forall is_command [OpProcessPacket 0 "t" [0xC0; 0xFF; 0xFF; 0x20; 0x20; 0xC0];
                     OpExecuteCommand 3 "t" (Some 192) 0x2C [1; 2; 3]; OpResetAll "t"]
  /\ fixtures (lights (run [OpProcessPacket 0 "t" [0xC0; 0xFF; 0xFF; 0x20; 0x20; 0xC0];
                            OpExecuteCommand 3 "t" (Some 192) 0x2C [1; 2; 3]; OpResetAll "t"]
                           demo_simulator))
     = fixtures (lights demo_simulator)
  /\ List.length (getAllStates
                    (run [OpProcessPacket 0 "t" [0xC0; 0xFF; 0xFF; 0x20; 0x20; 0xC0];
                          OpExecuteCommand 3 "t" (Some 192) 0x2C [1; 2; 3]; OpResetAll "t"]
                         demo_simulator))
     = List.length (getAllStates demo_simulator).
Proof.
  assert (H : Forall is_command
                [OpProcessPacket 0 "t" [0xC0; 0xFF; 0xFF; 0x20; 0x20; 0xC0];
                 OpExecuteCommand 3 "t" (Some 192) 0x2C [1; 2; 3]; OpResetAll "t"])
    by (repeat constructor).
  split; [exact H | exact (commands_keep_fixtures _ demo_simulator H)].
Defined.

Lemma lights_get_set_same (k : option Z) (l : Light) (m : Lights) :
  lights_get k (lights_set k l m) = Some l.
Proof.
  induction m as [|[k' l'] m IH]; cbn [lights_set lights_get].
  - now rewrite (proj2 (key_eqb_eq k k) eq_refl).
  - destruct (key_eqb k k') eqn:E; cbn [lights_get].
    + now rewrite (proj2 (key_eqb_eq k k) eq_refl).
    + now rewrite E.
Qed.

Lemma lights_get_set_other (k k0 : option Z) (l : Light) (m : Lights) :
  k0 <> k -> lights_get k0 (lights_set k l m) = lights_get k0 m.
Proof.
  intros Hne. induction m as [|[k' l'] m IH]; cbn [lights_set lights_get].
  - now rewrite (proj2 (key_eqb_neq k0 k) Hne).
  - destruct (key_eqb k k') eqn:E; cbn [lights_get].
    + apply key_eqb_eq in E. subst k'. now rewrite (proj2 (key_eqb_neq k0 k) Hne).
    + now rewrite IH.
Qed.

Lemma executeCommand_unicast_get (depth : nat) (now : string) (address : option Z)
  (command : Z) (data : list Z) (m : Lights) :
  address <> Some 0xFFFF ->
  lights_get address (snd (executeCommand (S depth) now address command data m))
  = option_map (commanded now command data) (lights_get address m).
Proof.
  intros Ha. rewrite SimulatorFacts.executeCommand_S.
  rewrite (proj2 (key_eqb_neq address (Some 65535)) Ha).
  destruct (lights_get address m) as [light|] eqn:Hg; [|exact Hg].
  cbn [option_map]. unfold commanded.
  destruct (apply_command command data (state light)) as [st change].
  cbn [snd fst]. apply lights_get_set_same.
Qed.

(** X14. A command to an address other than 0xFFFF changes the fixture at
    that address and no other; when no fixture has the address, the table is
    returned as it was and the outcome is 'Address not found'. *)
Theorem unicast_touches_one_fixture (depth : nat) (now : string) (address : option Z)
  (command : Z) (data : list Z) (m : Lights) :
  address <> Some 0xFFFF ->
  let after := snd (executeCommand (S depth) now address command data m) in
  (forall k, k <> address -> lights_get k after = lights_get k m)
  /\ lights_get address after = option_map (commanded now command data) (lights_get address m)
  /\ (lights_get address m = None ->
      executeCommand (S depth) now address command data m = (Ok (AddressNotFound address), m)).
Proof.
  intros Ha after. subst after. rewrite SimulatorFacts.executeCommand_S.
  rewrite (proj2 (key_eqb_neq address (Some 65535)) Ha).
  destruct (lights_get address m) as [light|] eqn:Hg.
  - cbn [option_map]. unfold commanded.
    destruct (apply_command command data (state light)) as [st change].
    cbn [snd fst]. repeat split.
    + intros k Hk. now apply lights_get_set_other.
    + apply lights_get_set_same.
    + discriminate.
  - cbn [snd option_map]. repeat split. exact Hg.
Qed.

Lemma unicast_touches_one_fixture_witness :
  lights_get (Some 192)
    (snd (executeCommand 1 "t" (Some 100) 0x20 [] (lights demo_simulator)))
  = lights_get (Some 192) (lights demo_simulator).
Proof.
  refine (proj1 (unicast_touches_one_fixture 0 "t" (Some 100) 0x20 [] (lights demo_simulator) _)
            (Some 192) _); discriminate.
Defined.

Lemma lights_get_app_notin (k : option Z) (pre rest : Lights) :
  ~ In k (map fst pre) -> lights_get k (pre ++ rest) = lights_get k rest.
Proof.
  induction pre as [|[k' l'] pre IH]; cbn [app map fst In lights_get]; intros H; [reflexivity|].
  destruct (key_eqb k k') eqn:E.
  - apply key_eqb_eq in E. exfalso. apply H. now left.
  - apply IH. intros Hin. apply H. now right.
Qed.

Lemma lights_set_app_notin (k : option Z) (l : Light) (pre rest : Lights) :
  ~ In k (map fst pre) -> lights_set k l (pre ++ rest) = pre ++ lights_set k l rest.
Proof.
  induction pre as [|[k' l'] pre IH]; cbn [app map fst In lights_set]; intros H; [reflexivity|].
  destruct (key_eqb k k') eqn:E.
  - apply key_eqb_eq in E. exfalso. apply H. now left.
  - f_equal. apply IH. intros Hin. apply H. now right.
Qed.

(** One call of the loop of [executeBroadcast] on an entry whose key occurs
    nowhere before it. *)
Lemma executeCommand_entry (depth : nat) (now : string) (command : Z) (data : list Z)
  (pre rest : Lights) (k : option Z) (l : Light) :
  k <> Some 0xFFFF -> ~ In k (map fst pre) ->
  exists change,
    executeCommand (S depth) now k command data (pre ++ (k, l) :: rest)
    = (Ok (LightUpdated k (commanded now command data l) change),
       pre ++ (k, commanded now command data l) :: rest).
Proof.
  intros Hk Hpre. rewrite SimulatorFacts.executeCommand_S.
  rewrite (proj2 (key_eqb_neq k (Some 65535)) Hk).
  rewrite lights_get_app_notin by exact Hpre. cbn [lights_get].
  rewrite (proj2 (key_eqb_eq k k) eq_refl).
  unfold commanded. destruct (apply_command command data (state l)) as [st change].
  cbv zeta. cbn [fst].
  rewrite lights_set_app_notin by exact Hpre. cbn [lights_set].
  rewrite (proj2 (key_eqb_eq k k) eq_refl).
  exists change. reflexivity.
Qed.

(** X15. On a table whose keys are distinct and none of which is 0xFFFF,
    a command to the broadcast address applies the command to every fixture
    and reports as many affected lights as the table holds. *)
Theorem broadcast_updates_every_fixture (depth : nat) (now : string)
  (command : Z) (data : list Z) (m : Lights) :
  NoDup (map fst m) ->
  Forall (fun entry => fst entry <> Some 0xFFFF) m ->
  executeCommand (S (S depth)) now (Some 0xFFFF) command data m
  = (Ok (Broadcast command (List.length m)),
     map (fun entry => (fst entry, commanded now command data (snd entry))) m).
Proof.
  intros Hnd Hkeys. rewrite SimulatorFacts.executeCommand_S.
  change (key_eqb (Some 65535) (Some 65535)) with (65535 =? 65535). rewrite Z.eqb_refl.
  set (upd := fun entry : option Z * Light => (fst entry, commanded now command data (snd entry))).
  match goal with
  | |- context [fold_left ?f m ?a] =>
      assert (Hloop : forall entries pre n,
                 NoDup (map fst (pre ++ entries)) ->
                 Forall (fun entry => fst entry <> Some 0xFFFF) entries ->
                 fold_left f entries (Ok n, map upd pre ++ entries)
                 = (Ok (n + List.length entries)%nat, map upd (pre ++ entries)))
  end.
  { induction entries as [|[k l] entries IHe]; intros pre n Hn Hent; cbn [fold_left].
    - now rewrite Nat.add_0_r, !app_nil_r.
    - inversion Hent as [|? ? Hk Hrest]; subst. cbn [fst] in Hk.
      assert (Hpre : ~ In k (map fst (map upd pre))).
      { rewrite map_map. cbn [upd fst].
        rewrite map_app in Hn. cbn [map fst] in Hn.
        apply NoDup_remove_2 in Hn. intros Hin. apply Hn. apply in_or_app. now left. }
      destruct (executeCommand_entry depth now command data (map upd pre) entries k l Hk Hpre)
        as [change Hstep].
      cbv beta iota. cbn [fst]. rewrite Hstep.
      replace (map upd pre ++ (k, commanded now command data l) :: entries)
        with (map upd (pre ++ [(k, l)]) ++ entries)
        by (rewrite map_app, <- app_assoc; reflexivity).
      rewrite IHe.
      + rewrite <- app_assoc. cbn [app List.length]. f_equal. f_equal. lia.
      + now rewrite <- app_assoc.
      + exact Hrest. }
  specialize (Hloop m [] O Hnd Hkeys).
  change (map upd [] ++ m) with m in Hloop. change ([] ++ m) with m in Hloop.
  match goal with
  | |- (let (_, _) := ?X in _) = _ =>
      replace X with (Ok (0 + List.length m)%nat, map upd m) by (symmetry; exact Hloop)
  end.
  reflexivity.
Qed.

Lemma broadcast_updates_every_fixture_witness :
  state_at 100 {| lights := snd (executeCommand 2 "t" (Some 0xFFFF) 0x22 [7]
                                   (lights demo_simulator));
                  enabled := true |}
  = Some {| on := true; level := 7; r := 7; g := 7; b := 7 |}.
Proof.
  rewrite (broadcast_updates_every_fixture 0 "t" 0x22 [7] (lights demo_simulator)).
  - reflexivity.
  - repeat constructor; cbn; intuition discriminate.
  - repeat constructor; discriminate.
Defined.

Lemma executeCommand_throws (depth : nat) (now : string) (address : option Z)
  (command : Z) (data : list Z) (m : Lights) (e : string) :
  fst (executeCommand depth now address command data m) = Throw e ->
  e = "Maximum call stack size exceeded"%string.
Proof.
  revert address m e. induction depth as [|depth IH]; intros address m e.
  - cbn. now intros [= <-].
  - rewrite SimulatorFacts.executeCommand_S.
    destruct (key_eqb address (Some 65535)).
    + match goal with
      | |- context [fold_left ?f m ?a] =>
          assert (Hloop : forall entries acc,
                     (forall e', fst acc = Throw e' -> e' = "Maximum call stack size exceeded"%string) ->
                     forall e', fst (fold_left f entries acc) = Throw e' ->
                                e' = "Maximum call stack size exceeded"%string)
      end.
      { induction entries as [|entry entries IHe]; intros [res m0] Hacc; cbn [fold_left];
          [exact Hacc|].
        apply IHe. destruct res as [n|e0]; [|exact Hacc].
        pose proof (IH (fst entry) m0) as IH0.
        destruct (executeCommand depth now (fst entry) command data m0) as [[[| |]|e1] m1];
          cbn [fst] in *; try discriminate.
        intros e' [= <-]. now apply IH0. }
      specialize (Hloop m (Ok O, m) ltac:(discriminate) e).
      destruct (fold_left _ m (Ok O, m)) as [[n|e1] m1]; cbn [fst] in *; [discriminate|].
      intros [= <-]. now apply Hloop.
    + destruct (lights_get address m); [|discriminate].
      destruct (apply_command command data (state l)); discriminate.
Qed.

(** X16. When a fixture is stored at address 0xFFFF, a command to the
    broadcast address never returns a result: at every call depth it ends
    with 'Maximum call stack size exceeded', since the loop of
    [executeBroadcast] calls [executeCommand] for that fixture, which
    broadcasts again. *)
Theorem broadcast_overflows_on_fixture_65535 (depth : nat) (now : string)
  (command : Z) (data : list Z) (m : Lights) :
  In (Some 0xFFFF) (map fst m) ->
  fst (executeCommand depth now (Some 0xFFFF) command data m)
  = Throw "Maximum call stack size exceeded"
  /\ fixtures (snd (executeCommand depth now (Some 0xFFFF) command data m)) = fixtures m.
Proof.
  intros Hin. split; [|apply executeCommand_fixtures].
  revert m Hin. induction depth as [|depth IH]; intros m Hin; [reflexivity|].
  rewrite SimulatorFacts.executeCommand_S.
  change (key_eqb (Some 65535) (Some 65535)) with (65535 =? 65535). rewrite Z.eqb_refl.
  match goal with
  | |- context [fold_left ?f m ?a] =>
      assert (Hthrown : forall entries m0 e,
                 fst (fold_left f entries (Throw e, m0)) = Throw e);
      [|assert (Hloop : forall entries n m0,
                   In (Some 0xFFFF) (map fst entries) ->
                   In (Some 0xFFFF) (map fst m0) ->
                   fst (fold_left f entries (Ok n, m0))
                   = Throw "Maximum call stack size exceeded")]
  end.
  { induction entries as [|entry entries IHe]; intros m0 e; cbn [fold_left]; [reflexivity|].
    apply IHe. }
  { induction entries as [|[k l] entries IHe]; intros n m0 Hent Hm0; cbn [fold_left map fst In] in *;
      [contradiction|].
    destruct Hent as [->|Hent].
    - rewrite (surjective_pairing (executeCommand depth now (Some 65535) command data m0)).
      rewrite (IH m0 Hm0). apply Hthrown.
    - pose proof (executeCommand_throws depth now k command data m0) as Hmsg.
      pose proof (executeCommand_fixtures depth now k command data m0) as Hfix.
      destruct (executeCommand depth now k command data m0) as [[o|e1] m1]; cbn [fst snd] in *.
      + assert (Hm1 : In (Some 65535) (map fst m1)).
        { apply (f_equal (map fst)) in Hfix. unfold fixtures in Hfix.
          rewrite !map_map in Hfix. cbn [fst] in Hfix.
          change (map (fun x => fst x) m1) with (map fst m1) in Hfix.
          change (map (fun x => fst x) m0) with (map fst m0) in Hfix.
          now rewrite Hfix. }
        destruct o; now apply IHe.
      + rewrite (Hmsg e1 eq_refl). apply Hthrown. }
  specialize (Hloop m O m Hin Hin).
  match goal with
  | |- fst (let (_, _) := ?X in _) = _ =>
      change (fst X = Throw "Maximum call stack size exceeded") in Hloop;
      destruct X as [[n|e1] m1]
  end; cbn [fst] in *; [discriminate | now injection Hloop as ->].
Qed.

Lemma broadcast_overflows_on_fixture_65535_witness :
  fst (executeCommand 50 "t" (Some 0xFFFF) 0x20 []
         [(Some 100, demo_light 100); (Some 0xFFFF, demo_light 0xFFFF)])
  = Throw "Maximum call stack size exceeded".
Proof.
  refine (proj1 (broadcast_overflows_on_fixture_65535 50 "t" 0x20 []
                   [(Some 100, demo_light 100); (Some 0xFFFF, demo_light 0xFFFF)] _)).
  cbn. now right; left.
Defined.

Lemma count_light_fold (m : Lights) (t o ap am : Z) :
  fold_left count_light m (t, o, ap, am)
  = (t + Z.of_nat (List.length m),
     o + Z.of_nat (List.length (filter (fun e => on (state (snd e))) m)),
     ap + Z.of_nat (List.length (filter (fun e => match type (snd e) with
                                                  | apartment => true | amenity => false end) m)),
     am + Z.of_nat (List.length (filter (fun e => match type (snd e) with
                                                  | amenity => true | apartment => false end) m))).
Proof.
  revert t o ap am. induction m as [|[k l] m IH]; intros t o ap am; cbn [fold_left filter List.length].
  - now rewrite !Z.add_0_r.
  - unfold count_light at 2. cbn [snd]. rewrite IH.
    destruct (on (state l)), (type l); cbn [List.length];
      (apply f_equal2; [apply f_equal2; [apply f_equal2|]|]); lia.
Qed.

Lemma filter_length_le {A} (f : A -> bool) (l : list A) :
  (List.length (filter f l) <= List.length l)%nat.
Proof.
  induction l as [|x l IH]; cbn [filter List.length]; [lia|].
  destruct (f x); cbn [List.length]; lia.
Qed.

Lemma filter_partition_length {A} (f g : A -> bool) (l : list A) :
  (forall x, g x = negb (f x)) ->
  (List.length (filter f l) + List.length (filter g l) = List.length l)%nat.
Proof.
  intros H. induction l as [|x l IH]; cbn [filter List.length]; [reflexivity|].
  rewrite (H x). destruct (f x); cbn [negb List.length]; lia.
Qed.

(** X17. [getStats] counts every fixture once: the lights on and off add
    up to the total, as do apartments and amenities; after [resetAll] no
    light is on and the other counts are unchanged. *)
Theorem getStats_consistent (s : Sim) (now : string) :
  let stats := getStats s in
  let after := getStats (resetAll now s) in
  totalLights stats = Z.of_nat (List.length (getAllStates s))
  /\ lightsOn stats
     = Z.of_nat (List.length (filter (fun light => on (state light)) (getAllStates s)))
  /\ 0 <= lightsOn stats <= totalLights stats
  /\ lightsOn stats + lightsOff stats = totalLights stats
  /\ apartments stats + amenities stats = totalLights stats
  /\ lightsOn after = 0
  /\ lightsOff after = totalLights stats
  /\ apartments after = apartments stats /\ amenities after = amenities stats.
Proof.
  intros stats after. subst stats after. unfold getStats, getAllStates, resetAll.
  cbn [lights enabled]. rewrite !count_light_fold.
  cbn [totalLights lightsOn lightsOff apartments amenities].
  rewrite !length_map.
  pose proof (filter_length_le (fun e : option Z * Light => on (state (snd e))) (lights s)).
  pose proof (filter_partition_length
                (fun e : option Z * Light =>
                   match type (snd e) with apartment => true | amenity => false end)
                (fun e : option Z * Light =>
                   match type (snd e) with amenity => true | apartment => false end)
                (lights s) ltac:(intros [k l]; cbn; now destruct (type l))).
  assert (Hon : forall m : Lights,
             filter (fun light => on (state light)) (map snd m)
             = map snd (filter (fun e => on (state (snd e))) m)).
  { induction m as [|[k l] m IH]; cbn [map filter snd]; [reflexivity|].
    destruct (on (state l)); cbn [map snd]; now rewrite IH. }
  assert (Hoff : forall m : Lights,
             filter (fun e : option Z * Light => on (state (snd e)))
                    (map (fun entry => (fst entry, with_state (snd entry) off_state now)) m) = []).
  { induction m as [|[k l] m IH]; cbn [map filter snd]; [reflexivity|]. exact IH. }
  assert (Htype : forall (f : LightType -> bool) (m : Lights),
             List.length (filter (fun e : option Z * Light => f (type (snd e)))
                            (map (fun entry => (fst entry, with_state (snd entry) off_state now)) m))
             = List.length (filter (fun e : option Z * Light => f (type (snd e))) m)).
  { intros f. induction m as [|[k l] m IH]; cbn [map filter snd fst]; [reflexivity|].
    cbn [with_state type]. destruct (f (type l)); cbn [List.length]; now rewrite IH. }
  rewrite Hon, Hoff, length_map.
  rewrite (Htype (fun t => match t with apartment => true | amenity => false end)).
  rewrite (Htype (fun t => match t with amenity => true | apartment => false end)).
  cbn [List.length]. repeat split; lia.
Qed.

End TableFacts.

(** ** From the encoders to the simulator *)

Module EndToEndFacts.
Import JsNum Slip Commands Protocol ProtocolMore Simulator SimulatorQueries.

(** On a packet whose frame and checksum need no escaping the simulator
    reads the frame that was encoded. *)
Lemma frame_of_packet_buildPacket (hi lo cmd : Z) (data : list Z) :
  Forall is_byte (hi :: lo :: cmd :: data) ->
  Forall (fun b => b <> 0xC0 /\ b <> 0xDB)
         ((hi :: lo :: cmd :: data) ++ [calculateChecksum (bytes (hi :: lo :: cmd :: data))]) ->
  frame_of_packet (buildPacket (bytes (hi :: lo :: cmd :: data)))
  = Some (hi * 256 + lo, cmd, data).
Proof.
  intros HF Hplain.
  set (F := hi :: lo :: cmd :: data) in *.
  assert (Hc : is_byte (calculateChecksum (bytes F))) by now apply CodecFacts.checksum_is_byte.
  assert (HFc : Forall is_byte (F ++ [calculateChecksum (bytes F)]))
    by (apply Forall_app; split; [exact HF | now constructor]).
  rewrite ProtocolFacts.buildPacket_bytes.
  rewrite SimulatorFacts.frame_of_packet_plain by assumption.
  unfold spec_frame_of_packet. rewrite SlipFacts.decode_encode by exact HFc.
  rewrite removelast_last. reflexivity.
Qed.

(** X18. On a packet built by [buildPacket] whose command and checksum
    hold neither 0xC0 nor 0xDB, the simulator reads the same address, opcode
    and payload as [parsePacket]. *)
Theorem simulator_agrees_with_parser (hi lo cmd : Z) (data : list Z) :
  Forall is_byte (hi :: lo :: cmd :: data) ->
  Forall (fun b => b <> 0xC0 /\ b <> 0xDB)
         ((hi :: lo :: cmd :: data) ++ [calculateChecksum (bytes (hi :: lo :: cmd :: data))]) ->
  frame_of_packet (buildPacket (bytes (hi :: lo :: cmd :: data)))
  = parsePacket (buildPacket (bytes (hi :: lo :: cmd :: data))).
Proof.
  intros HF Hplain.
  rewrite (frame_of_packet_buildPacket hi lo cmd data HF Hplain).
  rewrite ProtocolFacts.buildPacket_bytes.
  rewrite ProtocolFacts.parsePacket_frame
    by (try exact HF; now apply CodecFacts.checksum_is_byte).
  now rewrite Z.eqb_refl.
Qed.

Lemma simulator_agrees_with_parser_witness :
  frame_of_packet (buildPacket (bytes [0x00; 0x64; 0x2C; 0xFF; 0x80; 0x40]))
  = parsePacket (buildPacket (bytes [0x00; 0x64; 0x2C; 0xFF; 0x80; 0x40])).
Proof.
  refine (simulator_agrees_with_parser 0x00 0x64 0x2C [0xFF; 0x80; 0x40] _ _).
  - repeat (apply Forall_cons; [unfold is_byte; lia|]). apply Forall_nil.
  - vm_compute. repeat (apply Forall_cons; [split; discriminate|]). apply Forall_nil.
Defined.

(** X19. From encoder to simulator: when the packet of [packetRgbLevel]
    for a fixture of the enabled simulator needs no escaping, processing it
    leaves the fixture with the three clamped colours, level their maximum,
    and on exactly when that is positive. *)
Theorem rgb_level_packet_reaches_fixture (depth : nat) (now : string) (fixture : Z)
  (red green blue : number) (packet : list Z) (s : Sim) (light : Light) :
  enabled s = true ->
  0 <= fixture < 65535 ->
  not_nan red -> not_nan green -> not_nan blue ->
  packetRgbLevel fixture red green blue = Ok packet ->
  Forall (fun x => x <> 0xC0 /\ x <> 0xDB) (Slip.decode packet) ->
  lights_get (Some fixture) (lights s) = Some light ->
  exists r g b,
    clamp red 0 255 = Finite r /\ clamp green 0 255 = Finite g /\ clamp blue 0 255 = Finite b
    /\ getState (Some fixture) (snd (processPacket (S depth) now packet s))
       = Some (with_state light
                 {| on := 0 <? Z.max r (Z.max g b); level := Z.max r (Z.max g b);
                    r := r; g := g; b := b |} now).
Proof.
  intros Hen Hf Hr Hg Hb Hp Hplain Hlight.
  destruct (ProtocolFacts.within_byte 0 255 _ ltac:(lia) ltac:(lia)
              (CommandFacts.clamp_within red 0 255 Hr ltac:(lia))) as (r & Er & Hr' & Br).
  destruct (ProtocolFacts.within_byte 0 255 _ ltac:(lia) ltac:(lia)
              (CommandFacts.clamp_within green 0 255 Hg ltac:(lia))) as (g & Eg & Hg' & Bg).
  destruct (ProtocolFacts.within_byte 0 255 _ ltac:(lia) ltac:(lia)
              (CommandFacts.clamp_within blue 0 255 Hb ltac:(lia))) as (b & Eb & Hb' & Bb).
  exists r, g, b. repeat (split; [assumption|]).
  unfold packetRgbLevel, buildRgbLevelCommand in Hp.
  rewrite (CommandFacts.addressToBytes_ok fixture ltac:(lia)), Er, Eg, Eb in Hp.
  cbn [bind app] in Hp. injection Hp as <-.
  change [Finite (fixture / 256); Finite (fixture mod 256); Finite RGB_LEVEL;
          Finite r; Finite g; Finite b]
    with (bytes [fixture / 256; fixture mod 256; RGB_LEVEL; r; g; b]) in *.
  assert (Hhi : is_byte (fixture / 256)).
  { unfold is_byte. split; [apply Z.div_pos; lia|].
    apply Z.lt_succ_r. apply Z.div_lt_upper_bound; lia. }
  assert (Hlo : is_byte (fixture mod 256)).
  { unfold is_byte. pose proof (Z.mod_pos_bound fixture 256 ltac:(lia)). lia. }
  assert (HF : Forall is_byte [fixture / 256; fixture mod 256; RGB_LEVEL; r; g; b]).
  { repeat (apply Forall_cons; [first [assumption | unfold is_byte, RGB_LEVEL; lia]|]).
    apply Forall_nil. }
  rewrite ProtocolFacts.buildPacket_bytes in Hplain.
  rewrite SlipFacts.decode_encode in Hplain
    by (apply Forall_app; split; [exact HF | constructor; [|constructor];
        now apply CodecFacts.checksum_is_byte]).
  pose proof (frame_of_packet_buildPacket _ _ _ _ HF Hplain) as Hframe.
  unfold processPacket, getState. rewrite Hen. cbn [negb].
  rewrite Hframe.
  replace (fixture / 256 * 256 + fixture mod 256) with fixture
    by (rewrite (Z.div_mod fixture 256) at 1 by lia; lia).
  pose proof (TableFacts.executeCommand_unicast_get depth now (Some fixture) RGB_LEVEL
                [r; g; b] (lights s) ltac:(intros [= E]; lia)) as Hat.
  destruct (executeCommand (S depth) now (Some fixture) RGB_LEVEL [r; g; b] (lights s))
    as [[o|e] m] eqn:Hexec; cbn [snd lights] in *; rewrite Hat, Hlight; cbn [option_map];
    unfold commanded, apply_command, RGB_LEVEL; cbn [Z.eqb Pos.eqb fst at_or0 nth_error];
    rewrite SimulatorFacts.any_positive; reflexivity.
Qed.

Lemma rgb_level_packet_reaches_fixture_witness :
  exists r g b,
    clamp (num 255) 0 255 = Finite r /\ clamp (num 128) 0 255 = Finite g
    /\ clamp (num 64) 0 255 = Finite b
    /\ getState (Some 100)
         (snd (processPacket 1 "t" [0xC0; 0x00; 0x64; 0x2C; 0xFF; 0x80; 0x40; 0x77; 0xC0]
                 demo_simulator))
       = Some (with_state (demo_light 100)
                 {| on := 0 <? Z.max r (Z.max g b); level := Z.max r (Z.max g b);
                    r := r; g := g; b := b |} "t").
Proof.
  apply (rgb_level_packet_reaches_fixture 0 "t" 100 (num 255) (num 128) (num 64)
           [0xC0; 0x00; 0x64; 0x2C; 0xFF; 0x80; 0x40; 0x77; 0xC0] demo_simulator (demo_light 100));
    try reflexivity; try lia; try (unfold not_nan; discriminate).
  vm_compute. repeat (apply Forall_cons; [split; discriminate|]). apply Forall_nil.
Defined.

End EndToEndFacts.

(** ** Loading the simulator *)

Module LoadFacts.
Import Simulator SimulatorQueries.

Lemma lights_set_keys (k k' : option Z) (l : Light) (m : Lights) :
  In k (map fst (lights_set k' l m)) <-> k = k' \/ In k (map fst m).
Proof.
  induction m as [|[k0 l0] m IH]; cbn [lights_set map fst In].
  - intuition congruence.
  - destruct (key_eqb k' k0) eqn:E; cbn [map fst In].
    + apply TableFacts.key_eqb_eq in E. subst k0. intuition congruence.
    + rewrite IH. intuition congruence.
Qed.

Lemma lights_set_NoDup (k : option Z) (l : Light) (m : Lights) :
  NoDup (map fst m) -> NoDup (map fst (lights_set k l m)).
Proof.
  induction m as [|[k0 l0] m IH]; cbn [lights_set map fst]; intros H.
  - constructor; [intros [] | constructor].
  - inversion H as [|? ? Hnotin Hrest]; subst.
    destruct (key_eqb k k0) eqn:E; cbn [map fst].
    + apply TableFacts.key_eqb_eq in E. subst k0. now constructor.
    + constructor; [|now apply IH].
      rewrite lights_set_keys. intros [->|Hin]; [|contradiction].
      apply TableFacts.key_eqb_neq in E. now apply E.
Qed.

Lemma lights_set_Forall (P : option Z * Light -> Prop) (k : option Z) (l : Light) (m : Lights) :
  P (k, l) -> Forall P m -> Forall P (lights_set k l m).
Proof.
  intros Hl. induction 1 as [|[k0 l0] m Hx Hm IH]; cbn [lights_set].
  - constructor; [exact Hl | constructor].
  - destruct (key_eqb k k0); constructor; assumption.
Qed.

Section Load.
Context {A : Type} (key : A -> option Z) (mk : A -> Light).

Lemma load_table (P : option Z * Light -> Prop) (rows : list A) (m : Lights) :
  (forall x, P (key x, mk x)) -> NoDup (map fst m) -> Forall P m ->
  NoDup (map fst (fold_left (fun m x => lights_set (key x) (mk x) m) rows m))
  /\ Forall P (fold_left (fun m x => lights_set (key x) (mk x) m) rows m)
  /\ (forall k, In k (map fst (fold_left (fun m x => lights_set (key x) (mk x) m) rows m))
                <-> In k (map key rows) \/ In k (map fst m)).
Proof.
  intros HP. revert m. induction rows as [|x rows IH]; intros m Hnd Hm; cbn [fold_left map In].
  - repeat split; [exact Hnd | exact Hm | now right | now intros [[]|H]].
  - destruct (IH (lights_set (key x) (mk x) m)
                (lights_set_NoDup _ _ _ Hnd) (lights_set_Forall P _ _ _ (HP x) Hm))
      as (H1 & H2 & H3).
    repeat split; [exact H1 | exact H2 | |].
    + intros Hin. apply H3 in Hin. rewrite lights_set_keys in Hin. intuition congruence.
    + intros Hin. apply H3. rewrite lights_set_keys. intuition congruence.
Qed.

Lemma load_other (rows : list A) (m : Lights) (k : option Z) :
  ~ In k (map key rows) ->
  lights_get k (fold_left (fun m x => lights_set (key x) (mk x) m) rows m) = lights_get k m.
Proof.
  revert m. induction rows as [|x rows IH]; intros m Hk; cbn [fold_left map In] in *; [reflexivity|].
  rewrite IH by tauto. apply TableFacts.lights_get_set_other. intros ->. tauto.
Qed.

Lemma load_last (rows : list A) (m : Lights) (x : A) :
  In x rows ->
  exists y, In y rows /\ key y = key x
            /\ lights_get (key x) (fold_left (fun m x => lights_set (key x) (mk x) m) rows m)
               = Some (mk y).
Proof.
  induction rows as [|z rows IH] using rev_ind; intros Hin; [contradiction|].
  rewrite fold_left_app. cbn [fold_left].
  destruct (key_eqb (key x) (key z)) eqn:E.
  - apply TableFacts.key_eqb_eq in E. exists z. rewrite E.
    repeat split; [apply in_or_app; right; now left | apply TableFacts.lights_get_set_same].
  - apply TableFacts.key_eqb_neq in E.
    apply in_app_or in Hin. destruct Hin as [Hin|[->|[]]]; [|congruence].
    destruct (IH Hin) as (y & Hy & Hkey & Hget). exists y.
    repeat split; [apply in_or_app; now left | exact Hkey |].
    rewrite TableFacts.lights_get_set_other by exact E. exact Hget.
Qed.

End Load.

(** X20. Loading the database into a new simulator gives a table with
    distinct keys, one for every address of an apartment or amenity row,
    every light off and stored under its own address; where rows share an
    address one light is kept for it, the light of an amenity row whenever
    an amenity has the address. *)
Theorem initializeFromDatabase_table
  (apartments : list Database.Apartment) (amenities : list Database.Amenity) :
  let s := initializeFromDatabase apartments amenities new_simulator in
  let apartment_key := Database.apt_lightswarm_address in
  let amenity_key := fun a => Some (Database.am_lightswarm_address a) in
  NoDup (map fst (lights s))
  /\ Forall (fun entry => state (snd entry) = off_state /\ lastUpdated (snd entry) = None
                          /\ address (snd entry) = fst entry) (lights s)
  /\ (forall k, In k (map fst (lights s))
                <-> In k (map apartment_key apartments) \/ In k (map amenity_key amenities))
  /\ (forall a, In a amenities ->
        exists a', In a' amenities /\ amenity_key a' = amenity_key a
                   /\ getState (amenity_key a) s = Some (amenity_light a'))
  /\ (forall apt, In apt apartments -> ~ In (apartment_key apt) (map amenity_key amenities) ->
        exists apt', In apt' apartments /\ apartment_key apt' = apartment_key apt
                     /\ getState (apartment_key apt) s = Some (apartment_light apt')).
Proof.
  intros s apartment_key amenity_key. subst s. unfold initializeFromDatabase, getState.
  cbn [lights new_simulator].
  set (P := fun entry : option Z * Light =>
              state (snd entry) = off_state /\ lastUpdated (snd entry) = None
              /\ address (snd entry) = fst entry).
  destruct (load_table apartment_key apartment_light P apartments [])
    as (N1 & F1 & K1); [now repeat split | constructor | constructor |].
  destruct (load_table amenity_key amenity_light P amenities _ ltac:(now repeat split) N1 F1)
    as (N2 & F2 & K2).
  repeat split.
  - exact N2.
  - exact F2.
  - intros Hin. apply K2 in Hin. destruct Hin as [Hin|Hin]; [now right|].
    apply K1 in Hin. destruct Hin as [Hin|[]]. now left.
  - intros [Hin|Hin]; apply K2; [right; apply K1; now left | now left].
  - intros a Ha. apply (load_last amenity_key amenity_light amenities _ a Ha).
  - intros apt Hapt Hno.
    destruct (load_last apartment_key apartment_light apartments [] apt Hapt)
      as (apt' & H1 & H2 & H3).
    exists apt'. repeat split; [exact H1 | exact H2 |].
    rewrite (load_other amenity_key amenity_light amenities _ _ Hno). exact H3.
Qed.

End LoadFacts.

(** ** The queue of the transport *)

Module QueueFacts.
Import Serial SerialMore.

Lemma simulating_idle (s : State) :
  fifo_inv s -> processing s = false -> pending s = None.
Proof.
  intros (_ & _ & H3) Hp. rewrite Hp in H3. now destruct (pending s).
Qed.

Lemma processQueue_emit (s : State) :
  fifo_inv s -> emit_inv s -> emit_inv (processQueue s).
Proof.
  intros Hf He. unfold processQueue.
  destruct (processing s) eqn:Hp; [exact He|].
  destruct (commandQueue s) as [|job rest] eqn:Hq; [exact He|].
  destruct (negb (isOpen s)); [exact He|].
  pose proof (simulating_idle s Hf Hp) as Hnone.
  unfold emit_inv, resolved, simulating in *. rewrite Hnone in He.
  destruct (simulationMode s); cbn; rewrite ?map_app, ?app_nil_r in *; cbn;
    now rewrite He.
Qed.

Lemma step_emit (e : Event) (s : State) :
  fifo_inv s -> emit_inv s -> emit_inv (step e s).
Proof.
  intros Hf He.
  destruct e; cbn [step].
  - apply processQueue_emit.
    + pose proof (SerialFacts.step_fifo (Send data) s Hf) as H.
      destruct Hf as (H1 & H2 & H3).
      unfold fifo_inv, in_flight in *. cbn.
      repeat split; [now rewrite app_assoc, H1 | assumption | assumption].
    + exact He.
  - destruct (pending s) as [[job [|byte remaining]|job]|] eqn:Hp; try exact He.
    unfold emit_inv, resolved, simulating in *. cbn. now rewrite Hp in He.
  - destruct (pending s) as [[job [|byte remaining]|job]|] eqn:Hp; try exact He.
    unfold emit_inv, resolved, simulating, finish in *. cbn. rewrite Hp in He.
    rewrite filter_app, !map_app, ?app_nil_r in *. cbn. rewrite ?app_nil_r. now rewrite He.
  - destruct (pending s) as [[job remaining|job]|] eqn:Hp; try exact He.
    unfold emit_inv, resolved, simulating, finish in *. cbn. rewrite Hp in He.
    rewrite filter_app, !map_app, ?app_nil_r in *. cbn. now rewrite ?app_nil_r.
  - destruct (pending s) as [[job remaining|job]|] eqn:Hp; try exact He.
    unfold emit_inv, resolved, simulating, finish in *. cbn. rewrite Hp in He.
    rewrite filter_app, !map_app, ?app_nil_r in *. cbn. rewrite ?app_nil_r. now rewrite He, ?map_app.
  - destruct (gap_timers s) as [|n]; [exact He|].
    apply processQueue_emit; [|exact He].
    destruct Hf as (H1 & H2 & H3). unfold fifo_inv, in_flight in *. cbn. now repeat split.
  - apply processQueue_emit; [|exact He].
    destruct Hf as (H1 & H2 & H3). unfold fifo_inv, in_flight, set_isOpen in *. cbn.
    now repeat split.
  - destruct (simulationMode s); exact He.
  - exact He.
  - exact He.
Qed.

Lemma processQueue_settled (s : State) : settled (processQueue s) = settled s.
Proof.
  unfold processQueue.
  destruct (processing s); [reflexivity|].
  destruct (commandQueue s); [reflexivity|].
  destruct (negb (isOpen s)); [reflexivity|].
  destruct (simulationMode s); reflexivity.
Qed.

Lemma step_settled_true (e : Event) (s : State) :
  e <> WriteError ->
  Forall (fun j => snd j = true) (settled s) ->
  Forall (fun j => snd j = true) (settled (step e s)).
Proof.
  intros Hne H. destruct e; cbn [step]; try congruence; rewrite ?processQueue_settled;
    try exact H.
  - destruct (pending s) as [[job [|byte remaining]|job]|]; exact H.
  - destruct (pending s) as [[job [|byte remaining]|job]|]; try exact H.
    cbn. apply Forall_app. split; [exact H | now repeat constructor].
  - destruct (pending s) as [[job remaining|job]|]; try exact H.
    cbn. apply Forall_app. split; [exact H | now repeat constructor].
  - destruct (gap_timers s); [exact H|]. now rewrite processQueue_settled.
  - destruct (simulationMode s); exact H.
Qed.

Lemma filter_all_true (l : list (Job * bool)) :
  Forall (fun j => snd j = true) l ->
  filter snd l = l /\ filter (fun j => negb (snd j)) l = [].
Proof.
  induction 1 as [|[j r] l Hx _ [IH1 IH2]]; [now split|].
  cbn in Hx. subst r. cbn. now rewrite IH1, IH2.
Qed.

(** X21. On every trace of the transport, the 'sent' events are, in
    order, the packets of the promises that were resolved, followed by the
    packet of the simulated write being awaited; when the port reports no
    error no promise is rejected and the events are a prefix of the packets
    in the order [send] was called. *)
Theorem sent_events_match_resolved (simulation : bool) (trace : list Event) :
  let s := run trace (new_connection simulation) in
  map ev_data (sent_events s) = map job_data (resolved s ++ simulating s)
  /\ (Forall (fun e => e <> WriteError) trace ->
      rejected s = []
      /\ exists waiting, map ev_data (sent_events s) ++ waiting = sends trace).
Proof.
  cbv zeta.
  assert (H : fifo_inv (run trace (new_connection simulation))
              /\ emit_inv (run trace (new_connection simulation))
              /\ (Forall (fun e => e <> WriteError) trace ->
                  Forall (fun j => snd j = true)
                         (settled (run trace (new_connection simulation))))).
  { induction trace as [|e trace IH] using rev_ind.
    - repeat split. intros _. constructor.
    - rewrite SerialFacts.run_snoc. destruct IH as (Hf & He & Hs).
      repeat split; try apply (SerialFacts.step_fifo e _ Hf).
      + now apply step_emit.
      + intros Hall. apply Forall_app in Hall. destruct Hall as [Hall Hlast].
        apply step_settled_true; [now inversion Hlast | now apply Hs]. }
  destruct H as (Hf & He & Hs). split; [exact He|].
  intros Hall. specialize (Hs Hall). destruct (filter_all_true _ Hs) as [F1 F2].
  split; [unfold rejected; now rewrite F2|].
  destruct (SerialFacts.run_invariants simulation trace) as (_ & Hsends & _).
  destruct Hf as (H1 & H2 & H3).
  rewrite <- Hsends, <- H1, <- H2. unfold emit_inv, resolved in He. rewrite F1 in He.
  rewrite He. unfold simulating, in_flight.
  destruct (pending (run trace (new_connection simulation))) as [[job remaining|job]|].
  - exists (map job_data (job :: commandQueue (run trace (new_connection simulation)))).
    rewrite app_nil_r, <- map_app, <- app_assoc. reflexivity.
  - exists (map job_data (commandQueue (run trace (new_connection simulation)))).
    now rewrite <- map_app.
  - exists (map job_data (commandQueue (run trace (new_connection simulation)))).
    now rewrite <- map_app.
Qed.

Lemma step_idle (e : Event) (s : State) :
  idle s -> wakes e = false ->
  idle (step e s)
  /\ commandQueue (step e s) = commandQueue s
  /\ started (step e s) = started s
  /\ sent_events (step e s) = sent_events s
  /\ settled (step e s) = settled s
  /\ device (step e s) = device s.
Proof.
  intros (Hp & Hn & Hg) Hw. unfold idle.
  destruct e; cbn [wakes] in Hw; try discriminate; cbn [step]; rewrite ?Hn, ?Hg;
    try (now repeat split).
  destruct (simulationMode s); now repeat split.
Qed.

(** X22. A connection that awaits nothing and has no delay running does
    not start a queued job by itself: until [send] is called again or the
    port reports 'open', the queue, the line, the events and the promises
    stay as they are.  In simulation mode this holds a packet sent before
    [connect] back, since [connect] there does not call [processQueue]. *)
Theorem idle_queue_waits (trace : list Event) (s : State) :
  idle s -> forallb (fun e => negb (wakes e)) trace = true ->
  idle (run trace s)
  /\ commandQueue (run trace s) = commandQueue s
  /\ started (run trace s) = started s
  /\ sent_events (run trace s) = sent_events s
  /\ settled (run trace s) = settled s
  /\ device (run trace s) = device s.
Proof.
  intros Hidle Hquiet. revert s Hidle.
  induction trace as [|e trace IH]; intros s Hidle;
    [split; [exact Hidle | now repeat split]|].
  cbn [forallb] in Hquiet. apply andb_prop in Hquiet. destruct Hquiet as [He Ht].
  apply negb_true_iff in He.
  destruct (step_idle e s Hidle He) as (I & Q & S1 & S2 & S3 & S4).
  change (run (e :: trace) s) with (run trace (step e s)).
  destruct (IH Ht (step e s) I) as (I' & Q' & S1' & S2' & S3' & S4').
  repeat split; try apply I'; congruence.
Qed.

Lemma idle_queue_waits_witness :
  let s := run [Send [0xC0; 1; 0xC0]] (new_connection true) in
  let later := run [SimConnect; SimDelayElapsed; GapElapsed; Drained; PortByte] s in
  isOpen later = true /\ queueLength later = 1%nat /\ sent_events later = [].
Proof.
  cbv zeta.
  destruct (idle_queue_waits [SimConnect; SimDelayElapsed; GapElapsed; Drained; PortByte]
              (run [Send [0xC0; 1; 0xC0]] (new_connection true)))
    as (_ & Q & _ & E & _); [now repeat split | reflexivity |].
  unfold queueLength. rewrite Q, E. now repeat split.
Defined.

Lemma sent_events_match_resolved_witness :
  let trace := [PortOpened; Send [0xC0; 1; 0xC0]; PortByte; PortByte; PortByte; Drained;
                Send [0xC0; 2; 0xC0]] in
  let s := run trace (new_connection false) in
  map ev_data (sent_events s) = map job_data (resolved s ++ simulating s)
  /\ rejected s = [].
Proof.
  cbv zeta.
  destruct (sent_events_match_resolved false
              [PortOpened; Send [0xC0; 1; 0xC0]; PortByte; PortByte; PortByte; Drained;
               Send [0xC0; 2; 0xC0]]) as [H1 H2].
  split; [exact H1|]. apply H2. repeat constructor; discriminate.
Defined.

Lemma port_bytes (job : Job) (remaining : list Z) queue line events done pushed shifted :
  run (repeat PortByte (List.length remaining))
      (writing job remaining queue line events done pushed shifted)
  = writing job [] queue (line ++ remaining) events done pushed shifted.
Proof.
  revert line. induction remaining as [|byte remaining IH]; intros line.
  - cbn. now rewrite app_nil_r.
  - cbn [List.length repeat]. change (run (PortByte :: ?t) ?s) with (run t (step PortByte s)).
    cbn [step writing pending]. 
    change (run (repeat PortByte (List.length remaining))
              (writing job remaining queue (line ++ [byte]) events done pushed shifted)
            = writing job [] queue (line ++ byte :: remaining) events done pushed shifted).
    rewrite IH, <- app_assoc. reflexivity.
Qed.

Lemma run_app (t1 t2 : list Event) (s : State) : run (t1 ++ t2) s = run t2 (run t1 s).
Proof. unfold run. apply fold_left_app. Qed.

Lemma service_writing (job : Job) (queue : list Job) line events done pushed shifted :
  run (service (job_data job))
      (writing job (job_data job) queue line events done pushed shifted)
  = match queue with
    | [] => at_rest (line ++ job_data job) (events ++ [sent_event job])
                    (done ++ [(job, true)]) pushed shifted
    | next :: rest =>
        writing next (job_data next) rest (line ++ job_data job) (events ++ [sent_event job])
                (done ++ [(job, true)]) pushed (shifted ++ [next])
    end.
Proof.
  unfold service. rewrite run_app, port_bytes.
  destruct queue as [|next rest]; reflexivity.
Qed.

Lemma service_all (queue : list Job) (job : Job) line events done pushed shifted :
  run (flat_map (fun j => service (job_data j)) (job :: queue))
      (writing job (job_data job) queue line events done pushed shifted)
  = at_rest (line ++ List.concat (map job_data (job :: queue)))
            (events ++ map sent_event (job :: queue))
            (done ++ map (fun j => (j, true)) (job :: queue))
            pushed (shifted ++ queue).
Proof.
  revert job line events done shifted.
  induction queue as [|next rest IH]; intros job line events done shifted;
    cbn [flat_map]; rewrite run_app, service_writing.
  - cbn. now rewrite !app_nil_r.
  - change (run [] ?s) with s in IH. specialize (IH next).
    cbn [flat_map] in IH. rewrite IH. cbn [map List.concat].
    now rewrite <- !app_assoc.
Qed.

Lemma sends_writing (packets : list (list Z)) (job : Job) remaining queue line events done
  pushed shifted :
  run (map Send packets) (writing job remaining queue line events done pushed shifted)
  = writing job remaining (queue ++ jobs_from (List.length pushed) packets) line events done
            (pushed ++ jobs_from (List.length pushed) packets) shifted.
Proof.
  revert queue pushed. induction packets as [|data packets IH]; intros queue pushed.
  - cbn. now rewrite !app_nil_r.
  - cbn [map jobs_from]. change (run (?e :: ?t) ?s) with (run t (step e s)).
    change (step (Send data) (writing job remaining queue line events done pushed shifted))
      with (writing job remaining (queue ++ [{| job_id := List.length pushed; job_data := data |}])
              line events done
              (pushed ++ [{| job_id := List.length pushed; job_data := data |}]) shifted).
    rewrite IH. rewrite length_app, Nat.add_1_r, <- !app_assoc. reflexivity.
Qed.

Lemma jobs_from_data (n : nat) (packets : list (list Z)) :
  map job_data (jobs_from n packets) = packets.
Proof.
  revert n. induction packets as [|data packets IH]; intros n; cbn; [reflexivity|].
  now rewrite IH.
Qed.

(** X23. When the port is opened, any number of packets are sent, and
    the port then serves each write (all bytes, the callback without error,
    the 10 ms delay), every packet is written to the line in the order of
    the calls, every promise is resolved, one 'sent' event is emitted per
    packet, and the queue ends empty. *)
Theorem served_port_delivers_all (packets : list (list Z)) :
  let trace := PortOpened :: map Send packets ++ flat_map service packets in
  let s := run trace (new_connection false) in
  device s = List.concat packets
  /\ map ev_data (sent_events s) = packets
  /\ map (fun j => (job_data (fst j), snd j)) (settled s) = map (fun p => (p, true)) packets
  /\ commandQueue s = [] /\ pending s = None /\ processing s = false.
Proof.
  cbv zeta. destruct packets as [|data packets]; [now repeat split|].
  change (run (PortOpened :: ?t) ?s) with (run t (step PortOpened s)).
  rewrite run_app. cbn [map]. change (run (?e :: ?t) ?s) with (run t (step e s)).
  change (step (Send data) (step PortOpened (new_connection false)))
    with (writing {| job_id := 0; job_data := data |} data [] [] [] []
            [{| job_id := 0; job_data := data |}] [{| job_id := 0; job_data := data |}]).
  rewrite sends_writing. cbn [List.length app].
  set (job := {| job_id := 0; job_data := data |}).
  set (queue := jobs_from 1 packets).
  replace (flat_map service (data :: packets))
    with (flat_map (fun j => service (job_data j)) (job :: queue)).
  2:{ rewrite !flat_map_concat_map. f_equal. rewrite <- (map_map job_data service).
      f_equal. cbn [map]. unfold queue. now rewrite jobs_from_data. }
  rewrite (service_all queue job [] [] [] (job :: queue) [job] : run _ (writing job data _ _ _ _ _ _) = _).
  cbn [at_rest device sent_events settled commandQueue pending processing app].
  rewrite !map_map. cbn [map fst snd sent_event ev_data job_data job List.concat].
  change (map (fun x => job_data x) queue) with (map job_data queue).
  change (map (fun x : Job => ev_data (sent_event x)) queue) with (map job_data queue).
  unfold queue. rewrite !jobs_from_data.
  repeat split. f_equal. clear. generalize 1%nat.
  induction packets as [|p packets IH]; intros n; cbn; [reflexivity|]. now rewrite IH.
Qed.

End QueueFacts.

(** ** Reconnection *)

Module ReconnectFacts.
Import Reconnect.

Lemma attemptReconnect_bound (s : State) :
  (reconnectAttempts s <= maxReconnectAttempts)%nat ->
  Forall (fun d => d = 2000) (scheduled s) ->
  (reconnectAttempts (attemptReconnect s) <= maxReconnectAttempts)%nat
  /\ Forall (fun d => d = 2000) (scheduled (attemptReconnect s)).
Proof.
  intros Hb Hd. unfold attemptReconnect.
  destruct (Nat.leb_spec maxReconnectAttempts (reconnectAttempts s)); cbn.
  - now split.
  - split; [lia|]. apply Forall_app. split; [exact Hd | now repeat constructor].
Qed.

Lemma attemptReconnect_count (s : State) :
  List.length (scheduled s) = reconnectAttempts s ->
  (0 < gave_up s -> reconnectAttempts s = maxReconnectAttempts)%nat ->
  (reconnectAttempts s <= maxReconnectAttempts)%nat ->
  List.length (scheduled (attemptReconnect s)) = reconnectAttempts (attemptReconnect s)
  /\ (0 < gave_up (attemptReconnect s) ->
      reconnectAttempts (attemptReconnect s) = maxReconnectAttempts)%nat.
Proof.
  intros Hc Hg Hb. unfold attemptReconnect.
  destruct (Nat.leb_spec maxReconnectAttempts (reconnectAttempts s)); cbn.
  - split; [exact Hc | lia].
  - rewrite length_app. cbn. split; [lia|]. intros H0. specialize (Hg H0). lia.
Qed.

Lemma reconnect_run_snoc (trace : list Event) (e : Event) (s : State) :
  run (trace ++ [e]) s = step e (run trace s).
Proof. unfold run. now rewrite fold_left_app. Qed.

(** X24. Reconnection: the attempt counter never exceeds 10 and every
    retry is scheduled after the same 2000 ms; as long as no attempt opens
    the port, at most 10 retries are ever scheduled, and once the limit has
    been logged the 10 have been used. *)
Theorem reconnect_is_bounded (trace : list Event) :
  let s := run trace initial in
  (reconnectAttempts s <= 10)%nat
  /\ Forall (fun delay => delay = 2000) (scheduled s)
  /\ (never_opens trace ->
      List.length (scheduled s) = reconnectAttempts s
      /\ (List.length (scheduled s) <= 10)%nat
      /\ (0 < gave_up s -> List.length (scheduled s) = 10%nat)%nat).
Proof.
  cbv zeta.
  assert (H : (reconnectAttempts (run trace initial) <= maxReconnectAttempts)%nat
              /\ Forall (fun d => d = 2000) (scheduled (run trace initial))
              /\ (never_opens trace ->
                  List.length (scheduled (run trace initial))
                  = reconnectAttempts (run trace initial)
                  /\ (0 < gave_up (run trace initial) ->
                      reconnectAttempts (run trace initial) = maxReconnectAttempts)%nat)).
  { induction trace as [|e trace IH] using rev_ind.
    - cbn. repeat split; try lia. constructor.
    - rewrite reconnect_run_snoc. destruct IH as (Hb & Hd & Hn).
      set (s := run trace initial) in *.
      assert (Hstep : (reconnectAttempts (step e s) <= maxReconnectAttempts)%nat
                      /\ Forall (fun d => d = 2000) (scheduled (step e s))).
      { destruct e as [|connected|]; cbn [step].
        - now apply attemptReconnect_bound.
        - destruct (timers s) as [|d rest]; [now split|].
          destruct connected; [cbn; split; [lia | exact Hd]|].
          now apply attemptReconnect_bound.
        - cbn. split; [lia | exact Hd]. }
      destruct Hstep as [Hb' Hd']. split; [exact Hb'|]. split; [exact Hd'|].
      intros Hall. apply Forall_app in Hall. destruct Hall as [Hall Hlast].
      destruct (Hn Hall) as [Hc Hg]. inversion Hlast as [|? ? He _]; subst.
      destruct e as [|connected|]; cbn [step]; try contradiction.
      + now apply attemptReconnect_count.
      + destruct (timers s) as [|d rest]; [now split|].
        destruct connected; [contradiction|]. now apply attemptReconnect_count. }
  destruct H as (Hb & Hd & Hn). unfold maxReconnectAttempts in *.
  split; [exact Hb|]. split; [exact Hd|].
  intros Hall. destruct (Hn Hall) as [Hc Hg].
  split; [exact Hc|]. split; [lia|]. intros H0. specialize (Hg H0). lia.
Qed.

Lemma reconnect_is_bounded_witness :
  let s := run (Closed :: repeat (TimerFired false) 12) initial in
  List.length (scheduled s) = reconnectAttempts s /\ (List.length (scheduled s) <= 10)%nat.
Proof.
  cbv zeta.
  destruct (reconnect_is_bounded (Closed :: repeat (TimerFired false) 12)) as (_ & _ & H).
  destruct H as (H1 & H2 & _); [repeat constructor | split; assumption].
Defined.

End ReconnectFacts.

(** ** Handlers of the apartment routes *)

Module HandlerFacts.
Import JsNum Database DatabaseMore Commands Protocol ProtocolMore Routes ApartmentRoutes.














Lemma route_of_post (path : list string) :
  route_of post_routes path
  = match path with
    | [segment; last] =>
        if String.eqb "off" last then
          if String.eqb segment "" then None
          else Some (RouteApartmentOff, [("id"%string, segment)])
        else if String.eqb "all" segment && String.eqb "on" last then Some (RouteAllOn, [])
        else None
    | _ => None
    end.
Proof.
  unfold post_routes.
  destruct path as [|segment [|last [|more path]]];
    cbn [route_of match_path option_map andb];
    try (destruct (String.eqb_spec segment "") as [->|_]);
    repeat match goal with
           | |- context [String.eqb ?a last] => destruct (String.eqb a last)
           | |- context [String.eqb ?a segment] => destruct (String.eqb a segment)
           end; reflexivity.
Qed.

(** X28. Among the POST routes of the apartments router, taken in the
    order they are registered, no path reaches the handler of '/all/off':
    the request POST /all/off is taken by '/:id/off' with id 'all' and
    answered 'not found' when no apartment has that id, with no packet
    enqueued; POST /all/on does reach its handler.  The handler itself would
    enqueue the broadcast OFF packet C0 FF FF 21 21 C0. *)
Theorem all_off_route_is_shadowed :
  (forall path route params,
     route_of post_routes path = Some (route, params) -> route <> RouteAllOff)
  /\ (forall w intensity,
        apartments_get (db w) (Some "all"%string) = None ->
        post ["all"; "off"]%string intensity w = (Ok NotFound, w))
  /\ (forall w intensity, post ["all"; "on"]%string intensity w = all_on intensity w)
  /\ (forall w,
        all_off w
        = (Ok AllOff, with_effects w [Enqueued [0xC0; 0xFF; 0xFF; 0x21; 0x21; 0xC0]]))
  /\ parsePacket [0xC0; 0xFF; 0xFF; 0x21; 0x21; 0xC0] = Some (BROADCAST_ADDRESS, OFF, [])
  /\ Simulator.frame_of_packet [0xC0; 0xFF; 0xFF; 0x21; 0x21; 0xC0]
     = Some (BROADCAST_ADDRESS, OFF, []).
Proof.
  split; [|split; [|split; [|split; [|split]]]].
  - intros path route params. rewrite route_of_post.
    destruct path as [|segment [|last [|more path]]]; try discriminate.
    destruct (String.eqb "off" last).
    + destruct (String.eqb segment ""); [discriminate|]. now intros [= <- _].
    + destruct (String.eqb "all" segment && String.eqb "on" last); [|discriminate].
      now intros [= <- _].
  - intros w intensity H. unfold post. rewrite route_of_post.
    change (String.eqb "off" "off") with true. change (String.eqb "all" "") with false.
    cbv iota. change (param "id" [("id"%string, "all"%string)]) with "all"%string.
    unfold apartment_off, bindM, read_db. now rewrite H.
  - reflexivity.
  - reflexivity.
  - reflexivity.
  - reflexivity.
Qed.

End HandlerFacts.

(** ** Storage queries *)

Module QueryFacts.
Import Database DatabaseMore Routes.

Section OrderBy.
Context {A : Type} (key : A -> sql Z).

Lemma order_by_of_sorted (l : list A) :
  Sorted (fun a b => key_leb (key a) (key b) = true) l -> order_by key l = l.
Proof.
  induction 1 as [|x l Hs IH Hhd]; [reflexivity|].
  cbn. fold (order_by key l). rewrite IH.
  destruct Hhd as [|y l Hxy]; cbn [insert_by]; [reflexivity|]. now rewrite Hxy.
Qed.

End OrderBy.

Lemma inserted_lights_rows (id : string) (i : Z) (addresses : list (sql Z)) :
  Forall (fun l => al_apartment_id l = id /\ i < al_light_index l) (inserted_lights id i addresses)
  /\ Sorted (fun a b => key_leb (Some (al_light_index a)) (Some (al_light_index b)) = true)
            (inserted_lights id i addresses)
  /\ map al_lightswarm_address (inserted_lights id i addresses) = present addresses.
Proof.
  revert i. induction addresses as [|[a|] rest IH]; intros i; cbn [inserted_lights present flat_map].
  - repeat split; constructor.
  - destruct (IH (i + 1)) as (F & S & M). repeat split.
    + constructor; [cbn; split; [reflexivity | lia]|].
      eapply Forall_impl; [|exact F]. cbn. intros l [H1 H2]. split; [exact H1 | lia].
    + constructor; [exact S|].
      destruct (inserted_lights id (i + 1) rest) as [|l ls]; constructor.
      inversion F as [|? ? [_ Hl] _]; subst. cbn. apply Z.leb_le. lia.
    + cbn [map al_lightswarm_address app]. f_equal. exact M.
  - destruct (IH (i + 1)) as (F & S & M). repeat split; [|exact S | exact M].
    eapply Forall_impl; [|exact F]. cbn. intros l [H1 H2]. split; [exact H1 | lia].
Qed.

Lemma inserted_lights_index (id : string) (i : Z) (addresses : list (sql Z)) (n : nat) (a : Z) :
  nth_error addresses n = Some (Some a) ->
  In {| al_apartment_id := id; al_light_index := i + Z.of_nat n + 1;
        al_lightswarm_address := a |} (inserted_lights id i addresses).
Proof.
  revert i n. induction addresses as [|[x|] rest IH]; intros i [|n] H; cbn in H; try discriminate.
  - injection H as ->. cbn [inserted_lights]. left. f_equal. lia.
  - cbn [inserted_lights]. right.
    replace (i + Z.of_nat (S n) + 1) with (i + 1 + Z.of_nat n + 1) by lia. now apply IH.
  - cbn [inserted_lights].
    replace (i + Z.of_nat (S n) + 1) with (i + 1 + Z.of_nat n + 1) by lia. now apply IH.
Qed.

Lemma filter_rejects {A} (f : A -> bool) (l : list A) :
  Forall (fun x => f x = false) l -> filter f l = [].
Proof.
  induction 1 as [|x l Hx _ IH]; cbn [filter]; [reflexivity|]. now rewrite Hx.
Qed.

Lemma filter_accepts {A} (f : A -> bool) (l : list A) :
  Forall (fun x => f x = true) l -> filter f l = l.
Proof.
  induction 1 as [|x l Hx _ IH]; cbn [filter]; [reflexivity|]. now rewrite Hx, IH.
Qed.

Lemma lights_of_after_setLights (db : DB) (id other : string) (addresses : list (sql Z)) :
  filter (fun l => String.eqb (al_apartment_id l) other)
         (apartment_lights (apartmentLights_setLights db id addresses))
  = if String.eqb other id then inserted_lights id 0 addresses
    else filter (fun l => String.eqb (al_apartment_id l) other) (apartment_lights db).
Proof.
  unfold apartmentLights_setLights, with_apartment_lights. cbn [apartment_lights].
  rewrite filter_app.
  destruct (inserted_lights_rows id 0 addresses) as (F & _ & _).
  destruct (String.eqb_spec other id) as [->|Hne].
  - rewrite filter_rejects, filter_accepts; [reflexivity | |].
    + eapply Forall_impl; [|exact F]. cbn. intros l [-> _]. apply String.eqb_refl.
    + apply Forall_forall. intros l Hin. apply filter_In in Hin. destruct Hin as [_ Hin].
      now destruct (String.eqb (al_apartment_id l) id).
  - rewrite (filter_rejects _ (inserted_lights id 0 addresses)), app_nil_r.
    + induction (apartment_lights db) as [|l ls IH]; cbn [filter]; [reflexivity|].
      destruct (String.eqb_spec (al_apartment_id l) id) as [E|E]; cbn [negb filter].
      * destruct (String.eqb_spec (al_apartment_id l) other) as [E'|E']; [congruence | exact IH].
      * destruct (String.eqb (al_apartment_id l) other); [now rewrite IH | exact IH].
    + eapply Forall_impl; [|exact F]. cbn. intros l [-> _].
      apply String.eqb_neq. congruence.
Qed.

(** X29. After [setLights] the addresses read back for the apartment
    are the addresses given, nulls left out, in the order given, each stored
    under its position in the request counted from 1; the rows of other
    apartments are not touched; and [getApartmentAddresses] then returns
    these addresses, falling back to the primary address only when none was
    given. *)
Theorem setLights_round_trip (db : DB) (id : string) (addresses : list (sql Z)) :
  let db' := apartmentLights_setLights db id addresses in
  apartmentLights_getAddressesForApartment db' id = present addresses
  /\ (forall other, other <> id ->
        apartmentLights_getAddressesForApartment db' other
        = apartmentLights_getAddressesForApartment db other)
  /\ (forall n a, nth_error addresses n = Some (Some a) ->
        In {| al_apartment_id := id; al_light_index := Z.of_nat n + 1;
              al_lightswarm_address := a |} (apartmentLights_getByApartment db' id))
  /\ (forall primary,
        getApartmentAddresses db' id primary
        = match present addresses with
          | [] => match primary with
                  | Some a => if a =? 0 then [] else [a]
                  | None => []
                  end
          | assigned => assigned
          end).
Proof.
  cbv zeta.
  destruct (inserted_lights_rows id 0 addresses) as (F & S & M).
  assert (Hrows : apartmentLights_getByApartment (apartmentLights_setLights db id addresses) id
                  = inserted_lights id 0 addresses).
  { unfold apartmentLights_getByApartment. rewrite lights_of_after_setLights, String.eqb_refl.
    now apply (order_by_of_sorted (fun l => Some (al_light_index l))). }
  split; [|split; [|split]].
  - unfold apartmentLights_getAddressesForApartment. now rewrite Hrows.
  - intros other Hne. unfold apartmentLights_getAddressesForApartment,
      apartmentLights_getByApartment.
    rewrite lights_of_after_setLights.
    now rewrite (proj2 (String.eqb_neq other id) Hne).
  - intros n a Hn. rewrite Hrows. now apply (inserted_lights_index id 0 addresses n a).
  - intros primary. unfold getApartmentAddresses. rewrite Hrows, <- M.
    now destruct (inserted_lights id 0 addresses).
Qed.

Lemma fold_min_max (fs : list Z) (f : Z) :
  let lo := fold_left Z.min fs f in
  let hi := fold_left Z.max fs f in
  lo <= f <= hi
  /\ Forall (fun x => lo <= x <= hi) fs
  /\ In lo (f :: fs) /\ In hi (f :: fs).
Proof.
  revert f. induction fs as [|x fs IH]; intros f; cbn [fold_left].
  - repeat split; try lia; try constructor; reflexivity.
  - destruct (IH (Z.min f x)) as (L1 & L2 & L3 & _).
    destruct (IH (Z.max f x)) as (H1 & H2 & _ & H4).
    cbv zeta in *.
    repeat split; try lia.
    + constructor; [lia|].
      apply Forall_forall. intros y Hy.
      pose proof (proj1 (Forall_forall _ _) L2 y Hy) as B1.
      pose proof (proj1 (Forall_forall _ _) H2 y Hy) as B2. cbv beta in B1, B2. lia.
    + destruct L3 as [E|Hin]; [|right; right; exact Hin].
      rewrite <- E.
      destruct (Z.min_spec f x) as [[_ E']|[_ E']]; rewrite E';
        [left; reflexivity | right; left; reflexivity].
    + destruct H4 as [E|Hin]; [|right; right; exact Hin].
      rewrite <- E.
      destruct (Z.max_spec f x) as [[_ E']|[_ E']]; rewrite E';
        [right; left; reflexivity | left; reflexivity].
Qed.

(** X30. [getFloorRange] returns two nulls exactly on an empty table;
    otherwise its bounds are floors of stored apartments and every
    apartment's floor lies between them. *)
Theorem getFloorRange_bounds (db : DB) :
  match apartments_getFloorRange db with
  | (Some min_floor, Some max_floor) =>
      min_floor <= max_floor
      /\ (forall a, In a (apartments db) -> min_floor <= apt_floor a <= max_floor)
      /\ (exists a, In a (apartments db) /\ apt_floor a = min_floor)
      /\ (exists a, In a (apartments db) /\ apt_floor a = max_floor)
  | (None, None) => apartments db = []
  | _ => False
  end.
Proof.
  unfold apartments_getFloorRange.
  destruct (apartments db) as [|a0 rest] eqn:E; cbn [map]; [reflexivity|].
  destruct (fold_min_max (map apt_floor rest) (apt_floor a0)) as (H1 & H2 & H3 & H4).
  cbv zeta in *. change (apt_floor a0 :: map apt_floor rest) with (map apt_floor (a0 :: rest)) in *.
  repeat split.
  - lia.
  - destruct H as [<-|Hin]; [lia|].
    apply (proj1 (Forall_forall _ _) H2). now apply in_map.
  - destruct H as [<-|Hin]; [lia|].
    apply (proj1 (Forall_forall _ _) H2). now apply in_map.
  - apply in_map_iff in H3. destruct H3 as (a & Ha & Hin). now exists a.
  - apply in_map_iff in H4. destruct H4 as (a & Ha & Hin). now exists a.
Qed.

End QueryFacts.
